(** * The Middleman Problem solver (src/lib/utils/middleman.ts)

    A shallow embedding of the optimisation engine and the proofs of its
    specification.

    Numbers.  The TypeScript code computes with IEEE doubles.  In the main
    development a [number] is an exact rational [Q], compared with [Qeq]
    ([==]): it describes the runs of the code in which no operation
    rounds; NaN and the infinities are outside it.  The one place where
    the source uses an infinity, the [-Infinity] seed of the maximum scan,
    is an [option].  With rationals [x || 0] is [x].  The theorems on
    the balancer and on the Maximum Element Method that need their sums
    and differences to be exact carry the hypothesis [exactQuantities]:
    whole-number supplies and demands with totals at most 2^53, on which
    the sums, differences and minima the code takes are whole numbers
    that binary64 represents.  The module [Double] is the same code over
    binary64 numbers ([PrimFloat]); it evaluates the code where it does
    round.

    Arrays.  A [number[][]] is a [list (list Q)].  Reads of the form
    [m[i]?.[j] || 0] are [cell m i j]; the unguarded reads [m[i][j]] of the
    source are written with [cell] as well: inside [solveMiddlemanProblem]
    they are only reached with indices inside the matrix, and a theorem
    about a function taken alone assumes a matrix of the shape of the
    problem where it depends on such a read.  Writes [m[i][j] = v] are
    [set_cell].  A matrix that a double loop fills cell by cell is
    [tabulate].

    Loops.  [for] loops over a range are folds over [seq] or over the
    row-major list [cells]; the two [while] loops that have no counter of
    their own in their recursion, [allocate] and [improvementLoop], take
    fuel and return [None] when it runs out, and are proved never to do
    so; the loop of [calculateDualVariables] recurses on what is left of
    its 50 passes.

    Effects.  [console.log] is left out.  The two readings of
    [performance.now()] are arguments of [solveMiddlemanProblem].  A thrown
    [Error] is the outcome [Thrown]. *)

From Stdlib Require Import QArith Qminmax Qabs Qround Lqa Lia PrimFloat.
From stdpp Require Import base list strings sorting.

Local Open Scope string_scope.
Local Open Scope list_scope.

(** Decimal literals of the source, such as [0.001], denote the nearest
    binary64 number, as they do in JavaScript. *)
#[local] Set Warnings "-inexact-float".

(** ** Numbers *)

(** [a > b] and [a < b] on numbers, as booleans. *)
Definition Qgtb (a b : Q) : bool := negb (Qle_bool a b).
Definition Qltb (a b : Q) : bool := negb (Qle_bool b a).

(** [xs.reduce((sum, x) => sum + x, 0)] *)
Definition sumQ (xs : list Q) : Q := fold_left Qplus xs 0%Q.

(** ** Matrices *)

Abbreviation Matrix := (list (list Q)).

(** [m[i]?.[j] || 0] *)
Definition cell (m : Matrix) (i j : nat) : Q :=
  default 0%Q (row ← m !! i; row !! j).

(** [m[i][j] = v], for [i], [j] inside the matrix. *)
Definition set_cell (m : Matrix) (i j : nat) (v : Q) : Matrix :=
  alter (fun row => <[j := v]> row) i m.

(** [Array(m).fill(0).map(() => Array(n).fill(0))] *)
Definition zeros (m n : nat) : Matrix := replicate m (replicate n 0%Q).

(** The index pairs visited by
    [for (i = 0; i < m; i++) for (j = 0; j < n; j++)], in visiting order. *)
Definition cells (m n : nat) : list (nat * nat) :=
  i ← seq 0 m; (fun j => (i, j)) <$> seq 0 n.

(** The matrix filled by such a double loop with [f i j] at [(i, j)]. *)
Definition tabulate (m n : nat) (f : nat -> nat -> Q) : Matrix :=
  (fun i => f i <$> seq 0 n) <$> seq 0 m.

(** [m] has [r] rows of [c] entries each. *)
Definition shape (m : Matrix) (r c : nat) : Prop :=
  length m = r /\ Forall (fun row => length row = c) m.

(** ** Data model (src/lib/types/middleman.ts) *)

Record Supplier := mkSupplier {
  sid : string;
  sname : string;
  supply : Q;
  purchaseCost : Q
}.

Record Customer := mkCustomer {
  cid : string;
  cname : string;
  demand : Q;
  sellingPrice : Q
}.

(** The [cost] field of a UI record: a number, a string (with the value
    [parseFloat] reads from it, [None] for NaN), or anything else. *)
Inductive CostValue :=
| CostNumber (q : Q)
| CostText (parsed : option Q)
| CostOther.

Record TransportationCost := mkTransportationCost {
  supplierId : string;
  customerId : string;
  cost : CostValue
}.

(** What a caller may pass as [transportationCosts]: nothing, a matrix of
    numbers, a matrix of UI records, or some other value. *)
Inductive CostsInput :=
| CostsAbsent
| CostsNumbers (rows : list (list Q))
| CostsRecords (rows : list (list TransportationCost))
| CostsOther.

Record MiddlemanProblem := mkProblem {
  suppliers : list Supplier;
  customers : list Customer;
  transportationCosts : CostsInput
}.

Record BalancedProblem := mkBalanced {
  b_suppliers : list Supplier;
  b_customers : list Customer;
  b_isBalanced : bool;
  fictitiousSupplier : option Supplier;
  fictitiousCustomer : option Customer;
  originalSupplyTotal : Q;
  originalDemandTotal : Q
}.

Record ValidationResult := mkValidation {
  isValid : bool;
  errors : list string;
  warnings : list string
}.

Record ImprovementOpportunity := mkImprovement {
  supplierIndex : nat;
  customerIndex : nat;
  improvement : Q;
  currentProfit : Q;
  potentialProfit : Q
}.

Record DualVariables := mkDual {
  alpha : list Q;
  beta : list Q
}.

Record TransportationCell := mkRoute {
  r_supplierId : string;
  r_customerId : string;
  r_quantity : Q;
  r_unitProfit : Q;
  r_purchaseCost : Q;
  r_transportationCost : Q;
  r_sellingPrice : Q
}.

Record MiddlemanSolution := mkSolution {
  profitMatrix : Matrix;
  transportationPlan : Matrix;
  isBalanced : bool;
  isFeasible : bool;
  isOptimal : bool;
  totalPurchaseCost : Q;
  totalTransportationCost : Q;
  totalRevenue : Q;
  totalProfit : Q;
  optimalRoutes : list TransportationCell;
  algorithm : string;
  executionTime : Q;
  iterations : nat
}.

(** [suppliers[i].supply] and [customers[j].demand]. *)
Definition supplyAt (ss : list Supplier) (i : nat) : Q :=
  default 0%Q (supply <$> ss !! i).
Definition demandAt (cs : list Customer) (j : nat) : Q :=
  default 0%Q (demand <$> cs !! j).

(** ** validateTransportationCosts *)

Definition costOfRecord (r : TransportationCost) : Q :=
  match cost r with
  | CostNumber q => q
  | CostText (Some q) => q
  | CostText None => 0%Q
  | CostOther => 0%Q
  end.

Definition validateTransportationCosts
    (costs : CostsInput) (supplierCount customerCount : nat) : Matrix :=
  match costs with
  | CostsAbsent => zeros supplierCount customerCount
  | CostsNumbers rows =>
      match rows with
      | (_ :: _) :: _ =>
          tabulate supplierCount customerCount (fun i j => cell rows i j)
      | _ => zeros supplierCount customerCount
      end
  | CostsRecords rows =>
      match rows with
      | (_ :: _) :: _ =>
          tabulate supplierCount customerCount (fun i j =>
            default 0%Q (row ← rows !! i; costOfRecord <$> row !! j))
      | _ => zeros supplierCount customerCount
      end
  | CostsOther => zeros supplierCount customerCount
  end.

(** ** calculateProfitMatrix *)

Definition calculateProfitMatrix
    (ss : list Supplier) (cs : list Customer) (costs : Matrix) : Matrix :=
  tabulate (length ss) (length cs) (fun i j =>
    let sellingPrice := default 0%Q (sellingPrice <$> cs !! j) in
    let purchaseCost := default 0%Q (purchaseCost <$> ss !! i) in
    let transportationCost := cell costs i j in
    (sellingPrice - purchaseCost - transportationCost)%Q).

(** ** balanceProblem *)

Definition totalSupplyOf (ss : list Supplier) : Q :=
  fold_left (fun sum s => (sum + supply s)%Q) ss 0%Q.
Definition totalDemandOf (cs : list Customer) : Q :=
  fold_left (fun sum c => (sum + demand c)%Q) cs 0%Q.

Definition balanceProblem (ss : list Supplier) (cs : list Customer)
    : BalancedProblem :=
  let totalSupply := totalSupplyOf ss in
  let totalDemand := totalDemandOf cs in
  if Qgtb totalSupply totalDemand then
    let excessSupply := (totalSupply - totalDemand)%Q in
    let fc := mkCustomer "fictitious-customer" "Fictitious Customer"
                excessSupply 0%Q in
    mkBalanced ss (cs ++ [fc]) (Qeq_bool totalSupply totalDemand)
      None (Some fc) totalSupply totalDemand
  else if Qgtb totalDemand totalSupply then
    let excessDemand := (totalDemand - totalSupply)%Q in
    let fs := mkSupplier "fictitious-supplier" "Fictitious Supplier"
                excessDemand 0%Q in
    mkBalanced (ss ++ [fs]) cs (Qeq_bool totalSupply totalDemand)
      (Some fs) None totalSupply totalDemand
  else
    mkBalanced ss cs (Qeq_bool totalSupply totalDemand)
      None None totalSupply totalDemand.

(** ** validateProblem *)

Definition supplierErrors (s : Supplier) : list string :=
  (if Qle_bool (supply s) 0 then
     [("Supplier " ++ sname s ++ " must have positive supply")%string] else [])
  ++
  (if Qltb (purchaseCost s) 0 then
     [("Supplier " ++ sname s ++ " cannot have negative purchase cost")%string]
   else []).

Definition customerErrors (c : Customer) : list string :=
  (if Qle_bool (demand c) 0 then
     [("Customer " ++ cname c ++ " must have positive demand")%string] else [])
  ++
  (if Qltb (sellingPrice c) 0 then
     [("Customer " ++ cname c ++ " cannot have negative selling price")%string]
   else []).

Definition validateProblem (problem : MiddlemanProblem) : ValidationResult :=
  let supplierPart :=
    if Nat.eqb (length (suppliers problem)) 0 then
      ["Problem must have at least one supplier"]
    else s ← suppliers problem; supplierErrors s in
  let customerPart :=
    if Nat.eqb (length (customers problem)) 0 then
      ["Problem must have at least one customer"]
    else c ← customers problem; customerErrors c in
  let errors := supplierPart ++ customerPart in
  let warnings :=
    match transportationCosts problem with
    | CostsAbsent => ["No transportation costs specified, will use zeros"]
    | _ => []
    end in
  mkValidation (Nat.eqb (length errors) 0) errors warnings.

(** ** findOptimalTransportation (Maximum Element Method) *)

Record AllocState := mkAlloc {
  a_plan : Matrix;
  remainingSupply : list Q;
  remainingDemand : list Q;
  allocationStep : nat
}.

(** [xs[i]] for a list of numbers. *)
Definition at_ (xs : list Q) (i : nat) : Q := default 0%Q (xs !! i).

(** [xs.some(x => x > 0)] *)
Definition somePositive (xs : list Q) : bool :=
  existsb (fun x => Qgtb x 0) xs.

(** The body of the double loop that looks for the maximum: [best] is
    [None] while [maxProfit] is [-Infinity] and [maxI], [maxJ] are [-1]. *)
Definition scanCell (pm : Matrix) (rs rd : list Q)
    (best : option (Q * (nat * nat))) (c : nat * nat)
    : option (Q * (nat * nat)) :=
  let '(i, j) := c in
  if Qgtb (at_ rs i) 0 && Qgtb (at_ rd j) 0 then
    match best with
    | None => Some (cell pm i j, (i, j))
    | Some (maxProfit, _) =>
        if Qgtb (cell pm i j) maxProfit then Some (cell pm i j, (i, j))
        else best
    end
  else best.

Definition findMaxCell (pm : Matrix) (m n : nat) (rs rd : list Q)
    : option (Q * (nat * nat)) :=
  fold_left (scanCell pm rs rd) (cells m n) None.

(** The [while] loop of the method; [None] when the fuel runs out. *)
Fixpoint allocate (fuel : nat) (pm : Matrix) (m n : nat) (st : AllocState)
    : option AllocState :=
  if somePositive (remainingSupply st) && somePositive (remainingDemand st)
  then
    match fuel with
    | O => None
    | S fuel' =>
        match findMaxCell pm m n (remainingSupply st) (remainingDemand st) with
        | None => Some st
        | Some (_, (maxI, maxJ)) =>
            let allocation :=
              Qmin (at_ (remainingSupply st) maxI)
                   (at_ (remainingDemand st) maxJ) in
            allocate fuel' pm m n
              {| a_plan := set_cell (a_plan st) maxI maxJ allocation;
                 remainingSupply :=
                   <[maxI := (at_ (remainingSupply st) maxI - allocation)%Q]>
                     (remainingSupply st);
                 remainingDemand :=
                   <[maxJ := (at_ (remainingDemand st) maxJ - allocation)%Q]>
                     (remainingDemand st);
                 allocationStep := S (allocationStep st) |}
        end
    end
  else Some st.

(** The state in which the method stops, with its step counter. *)
Definition maximumElementMethod
    (pm : Matrix) (ss : list Supplier) (cs : list Customer)
    : option AllocState :=
  let m := length ss in
  let n := length cs in
  allocate (S (m + n)) pm m n
    {| a_plan := zeros m n;
       remainingSupply := supply <$> ss;
       remainingDemand := demand <$> cs;
       allocationStep := 0 |}.

Definition findOptimalTransportation
    (pm : Matrix) (ss : list Supplier) (cs : list Customer) : option Matrix :=
  a_plan <$> maximumElementMethod pm ss cs.

(** ** calculateDualVariables *)

Definition basicCells (plan : Matrix) (m n : nat) : list (nat * nat) :=
  List.filter (fun '(i, j) => Qgtb (cell plan i j) 0) (cells m n).

(** The body of [for (const {i, j} of basicVariables)]; an unknown dual
    ([null]) is [None]. *)
Definition dualStep (pm : Matrix)
    (st : list (option Q) * list (option Q) * bool) (bv : nat * nat)
    : list (option Q) * list (option Q) * bool :=
  let '(alpha, beta, changed) := st in
  let '(i, j) := bv in
  match alpha !! i, beta !! j with
  | Some (Some a), Some None =>
      (alpha, <[j := Some (cell pm i j - a)%Q]> beta, true)
  | Some None, Some (Some b) =>
      (<[i := Some (cell pm i j - b)%Q]> alpha, beta, true)
  | _, _ => st
  end.

(** [while (changed && iteration < maxIterations)]; [budget] is
    [maxIterations - iteration]. *)
Fixpoint dualPasses (budget : nat) (pm : Matrix) (basic : list (nat * nat))
    (alpha beta : list (option Q)) : list (option Q) * list (option Q) :=
  match budget with
  | O => (alpha, beta)
  | S budget' =>
      let '(alpha', beta', changed) :=
        fold_left (dualStep pm) basic (alpha, beta, false) in
      if changed then dualPasses budget' pm basic alpha' beta'
      else (alpha', beta')
  end.

Definition calculateDualVariables (pm plan : Matrix) (m n : nat)
    : DualVariables :=
  let basicVariables := basicCells plan m n in
  match
    List.find (fun i => existsb (fun bv => Nat.eqb (fst bv) i) basicVariables)
      (seq 0 m)
  with
  | None => mkDual (replicate m 0%Q) (replicate n 0%Q)
  | Some i0 =>
      let '(alpha, beta) :=
        dualPasses 50 pm basicVariables
          (<[i0 := Some 0%Q]> (replicate m None)) (replicate n None) in
      mkDual (default 0%Q <$> alpha) (default 0%Q <$> beta)
  end.

(** ** checkOptimality *)

Definition epsilon : Q := 0.001%Q.

Record OptimalityCheck := mkCheck {
  oc_isOptimal : bool;
  oc_improvements : list ImprovementOpportunity
}.

(** Stable insertion by decreasing [improvement]:
    [improvements.sort((a, b) => b.improvement - a.improvement)]. *)
Fixpoint insertImprovement (x : ImprovementOpportunity)
    (l : list ImprovementOpportunity) : list ImprovementOpportunity :=
  match l with
  | [] => [x]
  | y :: l' =>
      if Qle_bool (improvement y) (improvement x) then x :: l
      else y :: insertImprovement x l'
  end.

Definition sortImprovements (l : list ImprovementOpportunity)
    : list ImprovementOpportunity :=
  fold_right insertImprovement [] l.

Definition collectImprovement (pm plan : Matrix) (dual : DualVariables)
    (acc : list ImprovementOpportunity) (c : nat * nat)
    : list ImprovementOpportunity :=
  let '(i, j) := c in
  if Qle_bool (cell plan i j) epsilon then
    let opportunityCost :=
      (cell pm i j - at_ (alpha dual) i - at_ (beta dual) j)%Q in
    if Qgtb opportunityCost epsilon then
      acc ++ [mkImprovement i j opportunityCost 0%Q (cell pm i j)]
    else acc
  else acc.

Definition checkOptimality (pm plan : Matrix)
    (ss : list Supplier) (cs : list Customer) : OptimalityCheck :=
  let m := length ss in
  let n := length cs in
  let dualVariables := calculateDualVariables pm plan m n in
  let improvements :=
    sortImprovements
      (fold_left (collectImprovement pm plan dualVariables) (cells m n) []) in
  mkCheck (Nat.eqb (length improvements) 0) improvements.

(** ** arraysEqual *)

Definition arraysEqual (a b : Matrix) : bool :=
  if negb (Nat.eqb (length a) (length b)) then false
  else
    forallb (fun '(ra, rb) =>
      Nat.eqb (length ra) (length rb)
      && forallb (fun '(x, y) => negb (Qgtb (Qabs (x - y)) 0.001%Q))
           (zip ra rb))
      (zip a b).

(** ** improveSolution *)

(** [newPlan[i].reduce((sum, val) => sum + val, 0)] *)
Definition rowSum (plan : Matrix) (i : nat) : Q :=
  sumQ (default [] (plan !! i)).

(** [newPlan.reduce((sum, row) => sum + row[j], 0)] *)
Definition colSum (plan : Matrix) (j : nat) : Q :=
  fold_left (fun sum row => (sum + at_ row j)%Q) plan 0%Q.

(** First reallocation scan: from the same supplier, other customers [k].
    [Some] is the plan at the [break]; [None] when the loop ends with
    [reallocated] still false. *)
Fixpoint reallocateAlongRow (newPlan : Matrix) (i j : nat) (unmetDemand : Q)
    (ks : list nat) : option Matrix :=
  match ks with
  | [] => None
  | k :: ks' =>
      if negb (Nat.eqb k j) && Qgtb (cell newPlan i k) 0 then
        let canReduce := Qmin (Qmin (cell newPlan i k) unmetDemand) 1 in
        if Qgtb canReduce 0 then
          let p1 := set_cell newPlan i k (cell newPlan i k - canReduce)%Q in
          Some (set_cell p1 i j (cell p1 i j + canReduce)%Q)
        else reallocateAlongRow newPlan i j unmetDemand ks'
      else reallocateAlongRow newPlan i j unmetDemand ks'
  end.

(** Second scan: to the same customer, from other suppliers [k]. *)
Fixpoint reallocateAlongColumn (newPlan : Matrix) (i j : nat)
    (availableSupply : Q) (ks : list nat) : option Matrix :=
  match ks with
  | [] => None
  | k :: ks' =>
      if negb (Nat.eqb k i) && Qgtb (cell newPlan k j) 0 then
        let canReduce := Qmin (Qmin (cell newPlan k j) availableSupply) 1 in
        if Qgtb canReduce 0 then
          let p1 := set_cell newPlan k j (cell newPlan k j - canReduce)%Q in
          Some (set_cell p1 i j (cell p1 i j + canReduce)%Q)
        else reallocateAlongColumn newPlan i j availableSupply ks'
      else reallocateAlongColumn newPlan i j availableSupply ks'
  end.

Definition improveSolution (plan : Matrix) (imp : ImprovementOpportunity)
    (ss : list Supplier) (cs : list Customer) : Matrix :=
  let newPlan := plan in
  let i := supplierIndex imp in
  let j := customerIndex imp in
  let currentSupplyUsed := rowSum newPlan i in
  let currentDemandMet := colSum newPlan j in
  let availableSupply := (supplyAt ss i - currentSupplyUsed)%Q in
  let unmetDemand := (demandAt cs j - currentDemandMet)%Q in
  let maxNewAllocation := Qmin availableSupply unmetDemand in
  if Qgtb maxNewAllocation 0 then
    set_cell newPlan i j (cell newPlan i j + maxNewAllocation)%Q
  else
    match reallocateAlongRow newPlan i j unmetDemand (seq 0 (length cs)) with
    | Some p => p
    | None =>
        match
          reallocateAlongColumn newPlan i j availableSupply
            (seq 0 (length ss))
        with
        | Some p => p
        | None => newPlan
        end
    end.

(** ** calculateResults *)

(** [customer?.id === 'fictitious-customer'] and
    [supplier?.id === 'fictitious-supplier']. *)
Definition isFictitiousCustomer (customer : option Customer) : bool :=
  match customer with
  | Some c => String.eqb (cid c) "fictitious-customer"
  | None => false
  end.

Definition isFictitiousSupplier (supplier : option Supplier) : bool :=
  match supplier with
  | Some s => String.eqb (sid s) "fictitious-supplier"
  | None => false
  end.

Record Results := mkResults {
  res_totalPurchaseCost : Q;
  res_totalTransportationCost : Q;
  res_totalRevenue : Q;
  res_totalProfit : Q
}.

(** The three running totals of the double loop. *)
Record Totals := mkTotals {
  t_purchaseCost : Q;
  t_transportationCost : Q;
  t_revenue : Q
}.

Definition accumulate (plan : Matrix) (ss : list Supplier)
    (cs : list Customer) (validatedCosts : Matrix)
    (acc : Totals) (c : nat * nat) : Totals :=
  let '(i, j) := c in
  let quantity := cell plan i j in
  if Qgtb quantity 0 then
    let supplier := ss !! i in
    let customer := cs !! j in
    let purchaseCost := default 0%Q (purchaseCost <$> supplier) in
    let transportCost := cell validatedCosts i j in
    let sellingPrice := default 0%Q (sellingPrice <$> customer) in
    let real :=
      negb (isFictitiousCustomer customer)
      && negb (isFictitiousSupplier supplier) in
    let acc1 :=
      if real then
        mkTotals (t_purchaseCost acc + quantity * purchaseCost)%Q
          (t_transportationCost acc) (t_revenue acc)
      else acc in
    let acc2 :=
      if real then
        mkTotals (t_purchaseCost acc1)
          (t_transportationCost acc1 + quantity * transportCost)%Q
          (t_revenue acc1)
      else acc1 in
    if negb (isFictitiousCustomer customer) then
      mkTotals (t_purchaseCost acc2) (t_transportationCost acc2)
        (t_revenue acc2 + quantity * sellingPrice)%Q
    else acc2
  else acc.

Definition calculateResults (plan : Matrix) (ss : list Supplier)
    (cs : list Customer) (costs : Matrix) : Results :=
  let validatedCosts :=
    validateTransportationCosts (CostsNumbers costs) (length ss) (length cs) in
  let totals :=
    fold_left (accumulate plan ss cs validatedCosts)
      (cells (length ss) (length cs)) (mkTotals 0 0 0)%Q in
  mkResults (t_purchaseCost totals) (t_transportationCost totals)
    (t_revenue totals)
    (t_revenue totals - t_purchaseCost totals - t_transportationCost totals)%Q.

(** ** createOptimalRoutes *)

Definition pushRoute (plan : Matrix) (ss : list Supplier)
    (cs : list Customer) (validatedCosts pm : Matrix)
    (routes : list TransportationCell) (c : nat * nat)
    : list TransportationCell :=
  let '(i, j) := c in
  let quantity := cell plan i j in
  if Qgtb quantity 0 then
    match ss !! i, cs !! j with
    | Some supplier, Some customer =>
        if negb (isFictitiousCustomer (Some customer))
           && negb (isFictitiousSupplier (Some supplier))
        then
          routes ++
            [mkRoute (sid supplier) (cid customer) quantity (cell pm i j)
               (purchaseCost supplier) (cell validatedCosts i j)
               (sellingPrice customer)]
        else routes
    | _, _ => routes
    end
  else routes.

Definition createOptimalRoutes (plan : Matrix) (ss : list Supplier)
    (cs : list Customer) (costs pm : Matrix) : list TransportationCell :=
  let validatedCosts :=
    validateTransportationCosts (CostsNumbers costs) (length ss) (length cs) in
  fold_left (pushRoute plan ss cs validatedCosts pm)
    (cells (length ss) (length cs)) [].

(** ** solveMiddlemanProblem *)

Definition maxIterations : nat := 20.

(** The variables of the improvement loop. *)
Record LoopState := mkLoop {
  l_plan : Matrix;
  l_isOptimal : bool;
  l_iterations : nat
}.

(** How the [while] loop is left: its condition is false, or one of its
    two [break]s. *)
Inductive LoopExit :=
| ConditionFalse
| PlanUnchanged
| NoImprovements.

(** [while (!isOptimal && iterations < maxIterations)]; [None] when the
    fuel runs out. *)
Fixpoint improvementLoop (fuel : nat) (pm : Matrix)
    (ss : list Supplier) (cs : list Customer) (st : LoopState)
    : option (LoopState * LoopExit) :=
  if negb (l_isOptimal st) && Nat.ltb (l_iterations st) maxIterations then
    match fuel with
    | O => None
    | S fuel' =>
        let optimalityCheck := checkOptimality pm (l_plan st) ss cs in
        let isOptimal := oc_isOptimal optimalityCheck in
        match negb isOptimal, oc_improvements optimalityCheck with
        | true, bestImprovement :: _ =>
            let newPlan :=
              improveSolution (l_plan st) bestImprovement ss cs in
            let planChanged := negb (arraysEqual (l_plan st) newPlan) in
            if negb planChanged then
              Some (mkLoop (l_plan st) isOptimal (l_iterations st),
                    PlanUnchanged)
            else
              improvementLoop fuel' pm ss cs
                (mkLoop newPlan isOptimal (S (l_iterations st)))
        | true, [] =>
            Some (mkLoop (l_plan st) isOptimal (l_iterations st),
                  NoImprovements)
        | false, _ =>
            improvementLoop fuel' pm ss cs
              (mkLoop (l_plan st) isOptimal (S (l_iterations st)))
        end
    end
  else Some (st, ConditionFalse).

(** How step 6 ends: the initial plan passes the optimality test and the
    loop is not entered, or the loop is left. *)
Inductive Termination :=
| InitiallyOptimal
| LoopLeft (e : LoopExit).

(** Step 6 of [solveMiddlemanProblem]: the initial check and the loop. *)
Definition optimize (pm : Matrix) (ss : list Supplier) (cs : list Customer)
    (plan : Matrix) : option (LoopState * Termination) :=
  let initialOptimalityCheck := checkOptimality pm plan ss cs in
  if oc_isOptimal initialOptimalityCheck then
    Some (mkLoop plan true 0, InitiallyOptimal)
  else
    '(st, e) ← improvementLoop maxIterations pm ss cs (mkLoop plan false 0);
    Some (st, LoopLeft e).

(** What a call does: return a value, throw an [Error] with a message, or
    (in the model only) run out of fuel. *)
Inductive Outcome (A : Type) :=
| Returned (a : A)
| Thrown (message : string)
| OutOfFuel.
Arguments Returned {A} a.
Arguments Thrown {A} message.
Arguments OutOfFuel {A}.

(** [errors.join(', ')] *)
Definition join (sep : string) (l : list string) : string :=
  String.concat sep l.

(** [startTime] and [endTime] are the two readings of
    [performance.now()]. *)
Definition solveMiddlemanProblem (startTime endTime : Q)
    (problem : MiddlemanProblem) : Outcome MiddlemanSolution :=
  let validation := validateProblem problem in
  if negb (isValid validation) then
    Thrown ("Invalid problem: " ++ join ", " (errors validation))%string
  else if Nat.eqb (length (suppliers problem)) 0
          || Nat.eqb (length (customers problem)) 0 then
    Thrown "Invalid problem: no suppliers or customers"
  else
    let balancedProblem :=
      balanceProblem (suppliers problem) (customers problem) in
    let ss := b_suppliers balancedProblem in
    let cs := b_customers balancedProblem in
    let transportationCosts :=
      validateTransportationCosts (transportationCosts problem)
        (length ss) (length cs) in
    let profitMatrix := calculateProfitMatrix ss cs transportationCosts in
    match findOptimalTransportation profitMatrix ss cs with
    | None => OutOfFuel
    | Some initialPlan =>
        match optimize profitMatrix ss cs initialPlan with
        | None => OutOfFuel
        | Some (st, _) =>
            let transportationPlan := l_plan st in
            let results :=
              calculateResults transportationPlan ss cs transportationCosts in
            let optimalRoutes :=
              createOptimalRoutes transportationPlan ss cs
                transportationCosts profitMatrix in
            Returned
              {| profitMatrix := profitMatrix;
                 transportationPlan := transportationPlan;
                 isBalanced := b_isBalanced balancedProblem;
                 isFeasible := true;
                 isOptimal := l_isOptimal st;
                 totalPurchaseCost := res_totalPurchaseCost results;
                 totalTransportationCost :=
                   res_totalTransportationCost results;
                 totalRevenue := res_totalRevenue results;
                 totalProfit := res_totalProfit results;
                 optimalRoutes := optimalRoutes;
                 algorithm :=
                   "Maximum Element Method with Dual Variable Optimality Check";
                 executionTime := (endTime - startTime)%Q;
                 iterations := l_iterations st |}
        end
    end.

(** ** OptimalTransportationTable: the totals of the route list *)

(** [optimalRoutes.reduce((sum, route) => sum + ..., 0)], five times. *)
Definition tableTotalQuantity (optimalRoutes : list TransportationCell) : Q :=
  fold_left (fun sum route => (sum + r_quantity route)%Q) optimalRoutes 0%Q.

Definition tableTotalProfit (optimalRoutes : list TransportationCell) : Q :=
  fold_left (fun sum route => (sum + r_quantity route * r_unitProfit route)%Q)
    optimalRoutes 0%Q.

Definition tableTotalRevenue (optimalRoutes : list TransportationCell) : Q :=
  fold_left
    (fun sum route => (sum + r_quantity route * r_sellingPrice route)%Q)
    optimalRoutes 0%Q.

Definition tableTotalPurchaseCost (optimalRoutes : list TransportationCell)
    : Q :=
  fold_left
    (fun sum route => (sum + r_quantity route * r_purchaseCost route)%Q)
    optimalRoutes 0%Q.

Definition tableTotalTransportationCost
    (optimalRoutes : list TransportationCell) : Q :=
  fold_left
    (fun sum route =>
       (sum + r_quantity route * r_transportationCost route)%Q)
    optimalRoutes 0%Q.

(** ** The worked examples *)

Definition smallSuppliers : list Supplier :=
  [mkSupplier "S1" "Factory A" 50 8; mkSupplier "S2" "Factory B" 70 10]%Q.
Definition smallCustomers : list Customer :=
  [mkCustomer "C1" "Store X" 40 20; mkCustomer "C2" "Store Y" 60 25]%Q.
Definition smallExample : MiddlemanProblem :=
  mkProblem smallSuppliers smallCustomers
    (CostsRecords
       [[mkTransportationCost "S1" "C1" (CostNumber 2);
         mkTransportationCost "S1" "C2" (CostNumber 4)];
        [mkTransportationCost "S2" "C1" (CostNumber 3);
         mkTransportationCost "S2" "C2" (CostNumber 1)]]%Q).

(** * The engine over binary64 numbers

    The same functions with [number] as a binary64 float and the
    operations of IEEE 754, which are those of JavaScript.  A missing
    entry or field, [undefined] in the source, is read as NaN: both fail
    every comparison and make every sum and difference NaN; [x || 0]
    turns it into 0.  A read in a missing row, a [TypeError] in the
    source, does not occur on the matrices [solveMiddlemanProblem]
    builds. *)

Module Double.

Abbreviation Matrix := (list (list float)).

(** [x || 0] for a number [x]: 0 for the falsy numbers 0, -0 and NaN. *)
Definition orZero (x : float) : float :=
  if PrimFloat.eqb x 0 || PrimFloat.is_nan x then 0%float else x.

(** [m[i][j]] and [xs[i]] read as numbers; a missing entry is [undefined],
    which compares and computes as NaN does. *)
Definition entry (m : Matrix) (i j : nat) : float :=
  default PrimFloat.nan (row ← m !! i; row !! j).
Definition at_ (xs : list float) (i : nat) : float :=
  default PrimFloat.nan (xs !! i).

(** [m[i]?.[j] || 0] *)
Definition cell (m : Matrix) (i j : nat) : float := orZero (entry m i j).

Definition set_cell (m : Matrix) (i j : nat) (v : float) : Matrix :=
  alter (fun row => <[j := v]> row) i m.

Definition zeros (m n : nat) : Matrix := replicate m (replicate n 0%float).

Definition tabulate (m n : nat) (f : nat -> nat -> float) : Matrix :=
  (fun i => f i <$> seq 0 n) <$> seq 0 m.

(** [Math.min(a, b)]: NaN when an argument is, and -0 below +0. *)
Definition Math_min (a b : float) : float :=
  if PrimFloat.is_nan a || PrimFloat.is_nan b then PrimFloat.nan
  else if PrimFloat.ltb a b then a
  else if PrimFloat.ltb b a then b
  else if PrimFloat.get_sign a then a else b.

Record Supplier := mkSupplier {
  sid : string;
  sname : string;
  supply : float;
  purchaseCost : float
}.

Record Customer := mkCustomer {
  cid : string;
  cname : string;
  demand : float;
  sellingPrice : float
}.

(** The [cost] field of a UI record: a number, a string (with the number
    [parseFloat] reads from it, NaN included), or anything else. *)
Inductive CostValue :=
| CostNumber (x : float)
| CostText (parsed : float)
| CostOther.

Record TransportationCost := mkTransportationCost {
  supplierId : string;
  customerId : string;
  cost : CostValue
}.

Inductive CostsInput :=
| CostsAbsent
| CostsNumbers (rows : list (list float))
| CostsRecords (rows : list (list TransportationCost))
| CostsOther.

Record MiddlemanProblem := mkProblem {
  suppliers : list Supplier;
  customers : list Customer;
  transportationCosts : CostsInput
}.

Record BalancedProblem := mkBalanced {
  b_suppliers : list Supplier;
  b_customers : list Customer;
  b_isBalanced : bool;
  fictitiousSupplier : option Supplier;
  fictitiousCustomer : option Customer;
  originalSupplyTotal : float;
  originalDemandTotal : float
}.

Record ImprovementOpportunity := mkImprovement {
  supplierIndex : nat;
  customerIndex : nat;
  improvement : float;
  currentProfit : float;
  potentialProfit : float
}.

Record DualVariables := mkDual {
  alpha : list float;
  beta : list float
}.

Record TransportationCell := mkRoute {
  r_supplierId : string;
  r_customerId : string;
  r_quantity : float;
  r_unitProfit : float;
  r_purchaseCost : float;
  r_transportationCost : float;
  r_sellingPrice : float
}.

Record MiddlemanSolution := mkSolution {
  profitMatrix : Matrix;
  transportationPlan : Matrix;
  isBalanced : bool;
  isFeasible : bool;
  isOptimal : bool;
  totalPurchaseCost : float;
  totalTransportationCost : float;
  totalRevenue : float;
  totalProfit : float;
  optimalRoutes : list TransportationCell;
  algorithm : string;
  executionTime : float;
  iterations : nat
}.

(** [suppliers[i].supply] and [customers[j].demand]. *)
Definition supplyAt (ss : list Supplier) (i : nat) : float :=
  default PrimFloat.nan (supply <$> ss !! i).
Definition demandAt (cs : list Customer) (j : nat) : float :=
  default PrimFloat.nan (demand <$> cs !! j).

(** ** validateTransportationCosts *)

Definition costOfRecord (r : TransportationCost) : float :=
  match cost r with
  | CostNumber x => x
  | CostText parsed => orZero parsed
  | CostOther => 0%float
  end.

Definition validateTransportationCosts
    (costs : CostsInput) (supplierCount customerCount : nat) : Matrix :=
  match costs with
  | CostsAbsent => zeros supplierCount customerCount
  | CostsNumbers rows =>
      match rows with
      | (_ :: _) :: _ =>
          tabulate supplierCount customerCount (fun i j => cell rows i j)
      | _ => zeros supplierCount customerCount
      end
  | CostsRecords rows =>
      match rows with
      | (_ :: _) :: _ =>
          tabulate supplierCount customerCount (fun i j =>
            default 0%float (row ← rows !! i; costOfRecord <$> row !! j))
      | _ => zeros supplierCount customerCount
      end
  | CostsOther => zeros supplierCount customerCount
  end.

(** ** calculateProfitMatrix *)

Definition calculateProfitMatrix
    (ss : list Supplier) (cs : list Customer) (costs : Matrix) : Matrix :=
  tabulate (length ss) (length cs) (fun i j =>
    let sellingPrice :=
      orZero (default PrimFloat.nan (sellingPrice <$> cs !! j)) in
    let purchaseCost :=
      orZero (default PrimFloat.nan (purchaseCost <$> ss !! i)) in
    let transportationCost := cell costs i j in
    (sellingPrice - purchaseCost - transportationCost)%float).

(** ** balanceProblem *)

Definition totalSupplyOf (ss : list Supplier) : float :=
  fold_left (fun sum s => (sum + supply s)%float) ss 0%float.
Definition totalDemandOf (cs : list Customer) : float :=
  fold_left (fun sum c => (sum + demand c)%float) cs 0%float.

Definition balanceProblem (ss : list Supplier) (cs : list Customer)
    : BalancedProblem :=
  let totalSupply := totalSupplyOf ss in
  let totalDemand := totalDemandOf cs in
  if PrimFloat.ltb totalDemand totalSupply then
    let excessSupply := (totalSupply - totalDemand)%float in
    let fc := mkCustomer "fictitious-customer" "Fictitious Customer"
                excessSupply 0%float in
    mkBalanced ss (cs ++ [fc]) (PrimFloat.eqb totalSupply totalDemand)
      None (Some fc) totalSupply totalDemand
  else if PrimFloat.ltb totalSupply totalDemand then
    let excessDemand := (totalDemand - totalSupply)%float in
    let fs := mkSupplier "fictitious-supplier" "Fictitious Supplier"
                excessDemand 0%float in
    mkBalanced (ss ++ [fs]) cs (PrimFloat.eqb totalSupply totalDemand)
      (Some fs) None totalSupply totalDemand
  else
    mkBalanced ss cs (PrimFloat.eqb totalSupply totalDemand)
      None None totalSupply totalDemand.

(** ** validateProblem *)

Definition supplierErrors (s : Supplier) : list string :=
  (if PrimFloat.leb (supply s) 0 then
     [("Supplier " ++ sname s ++ " must have positive supply")%string] else [])
  ++
  (if PrimFloat.ltb (purchaseCost s) 0 then
     [("Supplier " ++ sname s ++ " cannot have negative purchase cost")%string]
   else []).

Definition customerErrors (c : Customer) : list string :=
  (if PrimFloat.leb (demand c) 0 then
     [("Customer " ++ cname c ++ " must have positive demand")%string] else [])
  ++
  (if PrimFloat.ltb (sellingPrice c) 0 then
     [("Customer " ++ cname c ++ " cannot have negative selling price")%string]
   else []).

Definition validateProblem (problem : MiddlemanProblem) : ValidationResult :=
  let supplierPart :=
    if Nat.eqb (length (suppliers problem)) 0 then
      ["Problem must have at least one supplier"]
    else s ← suppliers problem; supplierErrors s in
  let customerPart :=
    if Nat.eqb (length (customers problem)) 0 then
      ["Problem must have at least one customer"]
    else c ← customers problem; customerErrors c in
  let errors := supplierPart ++ customerPart in
  let warnings :=
    match transportationCosts problem with
    | CostsAbsent => ["No transportation costs specified, will use zeros"]
    | _ => []
    end in
  mkValidation (Nat.eqb (length errors) 0) errors warnings.

(** ** findOptimalTransportation *)

Record AllocState := mkAlloc {
  a_plan : Matrix;
  remainingSupply : list float;
  remainingDemand : list float;
  allocationStep : nat
}.

Definition somePositive (xs : list float) : bool :=
  existsb (fun x => PrimFloat.ltb 0 x) xs.

(** The body of the maximum scan: [maxProfit], and the cell [maxI], [maxJ]
    once they are no longer [-1]. *)
Definition scanCell (pm : Matrix) (rs rd : list float)
    (best : float * option (nat * nat)) (c : nat * nat)
    : float * option (nat * nat) :=
  let '(i, j) := c in
  if PrimFloat.ltb 0 (at_ rs i) && PrimFloat.ltb 0 (at_ rd j) then
    if PrimFloat.ltb (fst best) (entry pm i j) then
      (entry pm i j, Some (i, j))
    else best
  else best.

Definition findMaxCell (pm : Matrix) (m n : nat) (rs rd : list float)
    : float * option (nat * nat) :=
  fold_left (scanCell pm rs rd) (cells m n) (PrimFloat.neg_infinity, None).

Fixpoint allocate (fuel : nat) (pm : Matrix) (m n : nat) (st : AllocState)
    : option AllocState :=
  if somePositive (remainingSupply st) && somePositive (remainingDemand st)
  then
    match fuel with
    | O => None
    | S fuel' =>
        match
          snd (findMaxCell pm m n (remainingSupply st) (remainingDemand st))
        with
        | None => Some st
        | Some (maxI, maxJ) =>
            let allocation :=
              Math_min (at_ (remainingSupply st) maxI)
                       (at_ (remainingDemand st) maxJ) in
            allocate fuel' pm m n
              {| a_plan := set_cell (a_plan st) maxI maxJ allocation;
                 remainingSupply :=
                   <[maxI :=
                       (at_ (remainingSupply st) maxI - allocation)%float]>
                     (remainingSupply st);
                 remainingDemand :=
                   <[maxJ :=
                       (at_ (remainingDemand st) maxJ - allocation)%float]>
                     (remainingDemand st);
                 allocationStep := S (allocationStep st) |}
        end
    end
  else Some st.

Definition maximumElementMethod
    (pm : Matrix) (ss : list Supplier) (cs : list Customer)
    : option AllocState :=
  let m := length ss in
  let n := length cs in
  allocate (S (m + n)) pm m n
    {| a_plan := zeros m n;
       remainingSupply := supply <$> ss;
       remainingDemand := demand <$> cs;
       allocationStep := 0 |}.

Definition findOptimalTransportation
    (pm : Matrix) (ss : list Supplier) (cs : list Customer) : option Matrix :=
  a_plan <$> maximumElementMethod pm ss cs.

(** ** calculateDualVariables *)

Definition basicCells (plan : Matrix) (m n : nat) : list (nat * nat) :=
  List.filter (fun '(i, j) => PrimFloat.ltb 0 (entry plan i j)) (cells m n).

Definition dualStep (pm : Matrix)
    (st : list (option float) * list (option float) * bool) (bv : nat * nat)
    : list (option float) * list (option float) * bool :=
  let '(alpha, beta, changed) := st in
  let '(i, j) := bv in
  match alpha !! i, beta !! j with
  | Some (Some a), Some None =>
      (alpha, <[j := Some (entry pm i j - a)%float]> beta, true)
  | Some None, Some (Some b) =>
      (<[i := Some (entry pm i j - b)%float]> alpha, beta, true)
  | _, _ => st
  end.

Fixpoint dualPasses (budget : nat) (pm : Matrix) (basic : list (nat * nat))
    (alpha beta : list (option float))
    : list (option float) * list (option float) :=
  match budget with
  | O => (alpha, beta)
  | S budget' =>
      let '(alpha', beta', changed) :=
        fold_left (dualStep pm) basic (alpha, beta, false) in
      if changed then dualPasses budget' pm basic alpha' beta'
      else (alpha', beta')
  end.

Definition calculateDualVariables (pm plan : Matrix) (m n : nat)
    : DualVariables :=
  let basicVariables := basicCells plan m n in
  match
    List.find (fun i => existsb (fun bv => Nat.eqb (fst bv) i) basicVariables)
      (seq 0 m)
  with
  | None => mkDual (replicate m 0%float) (replicate n 0%float)
  | Some i0 =>
      let '(alpha, beta) :=
        dualPasses 50 pm basicVariables
          (<[i0 := Some 0%float]> (replicate m None)) (replicate n None) in
      mkDual (default 0%float <$> alpha) (default 0%float <$> beta)
  end.

(** ** checkOptimality *)

Definition epsilon : float := 0.001%float.

Record OptimalityCheck := mkCheck {
  oc_isOptimal : bool;
  oc_improvements : list ImprovementOpportunity
}.

(** The comparator [(a, b) => b.improvement - a.improvement]. *)
Definition compareFn (a b : ImprovementOpportunity) : float :=
  (improvement b - improvement a)%float.

(** Stable insertion of [x], which came before the elements of [l]: it
    moves behind [y] only when the comparator is positive on [x], [y]. *)
Fixpoint insertImprovement (x : ImprovementOpportunity)
    (l : list ImprovementOpportunity) : list ImprovementOpportunity :=
  match l with
  | [] => [x]
  | y :: l' =>
      if PrimFloat.ltb (compareFn x y) 0 then x :: l
      else if PrimFloat.ltb 0 (compareFn x y) then y :: insertImprovement x l'
      else x :: l
  end.

Definition sortImprovements (l : list ImprovementOpportunity)
    : list ImprovementOpportunity :=
  fold_right insertImprovement [] l.

Definition collectImprovement (pm plan : Matrix) (dual : DualVariables)
    (acc : list ImprovementOpportunity) (c : nat * nat)
    : list ImprovementOpportunity :=
  let '(i, j) := c in
  if PrimFloat.leb (entry plan i j) epsilon then
    let opportunityCost :=
      (entry pm i j - at_ (alpha dual) i - at_ (beta dual) j)%float in
    if PrimFloat.ltb epsilon opportunityCost then
      acc ++ [mkImprovement i j opportunityCost 0%float (entry pm i j)]
    else acc
  else acc.

Definition checkOptimality (pm plan : Matrix)
    (ss : list Supplier) (cs : list Customer) : OptimalityCheck :=
  let m := length ss in
  let n := length cs in
  let dualVariables := calculateDualVariables pm plan m n in
  let improvements :=
    sortImprovements
      (fold_left (collectImprovement pm plan dualVariables) (cells m n) []) in
  mkCheck (Nat.eqb (length improvements) 0) improvements.

(** ** arraysEqual *)

Definition arraysEqual (a b : Matrix) : bool :=
  if negb (Nat.eqb (length a) (length b)) then false
  else
    forallb (fun '(ra, rb) =>
      Nat.eqb (length ra) (length rb)
      && forallb (fun '(x, y) =>
                    negb (PrimFloat.ltb 0.001 (PrimFloat.abs (x - y))))
           (zip ra rb))
      (zip a b).

(** ** improveSolution *)

Definition rowSum (plan : Matrix) (i : nat) : float :=
  fold_left PrimFloat.add (default [] (plan !! i)) 0%float.

Definition colSum (plan : Matrix) (j : nat) : float :=
  fold_left (fun sum row => (sum + at_ row j)%float) plan 0%float.

Fixpoint reallocateAlongRow (newPlan : Matrix) (i j : nat)
    (unmetDemand : float) (ks : list nat) : option Matrix :=
  match ks with
  | [] => None
  | k :: ks' =>
      if negb (Nat.eqb k j) && PrimFloat.ltb 0 (entry newPlan i k) then
        let canReduce :=
          Math_min (Math_min (entry newPlan i k) unmetDemand) 1 in
        if PrimFloat.ltb 0 canReduce then
          let p1 :=
            set_cell newPlan i k (entry newPlan i k - canReduce)%float in
          Some (set_cell p1 i j (entry p1 i j + canReduce)%float)
        else reallocateAlongRow newPlan i j unmetDemand ks'
      else reallocateAlongRow newPlan i j unmetDemand ks'
  end.

Fixpoint reallocateAlongColumn (newPlan : Matrix) (i j : nat)
    (availableSupply : float) (ks : list nat) : option Matrix :=
  match ks with
  | [] => None
  | k :: ks' =>
      if negb (Nat.eqb k i) && PrimFloat.ltb 0 (entry newPlan k j) then
        let canReduce :=
          Math_min (Math_min (entry newPlan k j) availableSupply) 1 in
        if PrimFloat.ltb 0 canReduce then
          let p1 :=
            set_cell newPlan k j (entry newPlan k j - canReduce)%float in
          Some (set_cell p1 i j (entry p1 i j + canReduce)%float)
        else reallocateAlongColumn newPlan i j availableSupply ks'
      else reallocateAlongColumn newPlan i j availableSupply ks'
  end.

Definition improveSolution (plan : Matrix) (imp : ImprovementOpportunity)
    (ss : list Supplier) (cs : list Customer) : Matrix :=
  let newPlan := plan in
  let i := supplierIndex imp in
  let j := customerIndex imp in
  let currentSupplyUsed := rowSum newPlan i in
  let currentDemandMet := colSum newPlan j in
  let availableSupply := (supplyAt ss i - currentSupplyUsed)%float in
  let unmetDemand := (demandAt cs j - currentDemandMet)%float in
  let maxNewAllocation := Math_min availableSupply unmetDemand in
  if PrimFloat.ltb 0 maxNewAllocation then
    set_cell newPlan i j (entry newPlan i j + maxNewAllocation)%float
  else
    match reallocateAlongRow newPlan i j unmetDemand (seq 0 (length cs)) with
    | Some p => p
    | None =>
        match
          reallocateAlongColumn newPlan i j availableSupply
            (seq 0 (length ss))
        with
        | Some p => p
        | None => newPlan
        end
    end.

(** ** calculateResults *)

Definition isFictitiousCustomer (customer : option Customer) : bool :=
  match customer with
  | Some c => String.eqb (cid c) "fictitious-customer"
  | None => false
  end.

Definition isFictitiousSupplier (supplier : option Supplier) : bool :=
  match supplier with
  | Some s => String.eqb (sid s) "fictitious-supplier"
  | None => false
  end.

Record Results := mkResults {
  res_totalPurchaseCost : float;
  res_totalTransportationCost : float;
  res_totalRevenue : float;
  res_totalProfit : float
}.

Record Totals := mkTotals {
  t_purchaseCost : float;
  t_transportationCost : float;
  t_revenue : float
}.

Definition accumulate (plan : Matrix) (ss : list Supplier)
    (cs : list Customer) (validatedCosts : Matrix)
    (acc : Totals) (c : nat * nat) : Totals :=
  let '(i, j) := c in
  let quantity := cell plan i j in
  if PrimFloat.ltb 0 quantity then
    let supplier := ss !! i in
    let customer := cs !! j in
    let purchaseCost :=
      orZero (default PrimFloat.nan (purchaseCost <$> supplier)) in
    let transportCost := cell validatedCosts i j in
    let sellingPrice :=
      orZero (default PrimFloat.nan (sellingPrice <$> customer)) in
    let real :=
      negb (isFictitiousCustomer customer)
      && negb (isFictitiousSupplier supplier) in
    let acc1 :=
      if real then
        mkTotals (t_purchaseCost acc + quantity * purchaseCost)%float
          (t_transportationCost acc) (t_revenue acc)
      else acc in
    let acc2 :=
      if real then
        mkTotals (t_purchaseCost acc1)
          (t_transportationCost acc1 + quantity * transportCost)%float
          (t_revenue acc1)
      else acc1 in
    if negb (isFictitiousCustomer customer) then
      mkTotals (t_purchaseCost acc2) (t_transportationCost acc2)
        (t_revenue acc2 + quantity * sellingPrice)%float
    else acc2
  else acc.

Definition calculateResults (plan : Matrix) (ss : list Supplier)
    (cs : list Customer) (costs : Matrix) : Results :=
  let validatedCosts :=
    validateTransportationCosts (CostsNumbers costs) (length ss) (length cs) in
  let totals :=
    fold_left (accumulate plan ss cs validatedCosts)
      (cells (length ss) (length cs)) (mkTotals 0 0 0)%float in
  mkResults (t_purchaseCost totals) (t_transportationCost totals)
    (t_revenue totals)
    (t_revenue totals - t_purchaseCost totals
     - t_transportationCost totals)%float.

(** ** createOptimalRoutes *)

Definition pushRoute (plan : Matrix) (ss : list Supplier)
    (cs : list Customer) (validatedCosts pm : Matrix)
    (routes : list TransportationCell) (c : nat * nat)
    : list TransportationCell :=
  let '(i, j) := c in
  let quantity := cell plan i j in
  if PrimFloat.ltb 0 quantity then
    match ss !! i, cs !! j with
    | Some supplier, Some customer =>
        if negb (isFictitiousCustomer (Some customer))
           && negb (isFictitiousSupplier (Some supplier))
        then
          routes ++
            [mkRoute (sid supplier) (cid customer) quantity (cell pm i j)
               (purchaseCost supplier) (cell validatedCosts i j)
               (sellingPrice customer)]
        else routes
    | _, _ => routes
    end
  else routes.

Definition createOptimalRoutes (plan : Matrix) (ss : list Supplier)
    (cs : list Customer) (costs pm : Matrix) : list TransportationCell :=
  let validatedCosts :=
    validateTransportationCosts (CostsNumbers costs) (length ss) (length cs) in
  fold_left (pushRoute plan ss cs validatedCosts pm)
    (cells (length ss) (length cs)) [].

(** ** solveMiddlemanProblem *)

Record LoopState := mkLoop {
  l_plan : Matrix;
  l_isOptimal : bool;
  l_iterations : nat
}.

Fixpoint improvementLoop (fuel : nat) (pm : Matrix)
    (ss : list Supplier) (cs : list Customer) (st : LoopState)
    : option (LoopState * LoopExit) :=
  if negb (l_isOptimal st) && Nat.ltb (l_iterations st) maxIterations then
    match fuel with
    | O => None
    | S fuel' =>
        let optimalityCheck := checkOptimality pm (l_plan st) ss cs in
        let isOptimal := oc_isOptimal optimalityCheck in
        match negb isOptimal, oc_improvements optimalityCheck with
        | true, bestImprovement :: _ =>
            let newPlan :=
              improveSolution (l_plan st) bestImprovement ss cs in
            let planChanged := negb (arraysEqual (l_plan st) newPlan) in
            if negb planChanged then
              Some (mkLoop (l_plan st) isOptimal (l_iterations st),
                    PlanUnchanged)
            else
              improvementLoop fuel' pm ss cs
                (mkLoop newPlan isOptimal (S (l_iterations st)))
        | true, [] =>
            Some (mkLoop (l_plan st) isOptimal (l_iterations st),
                  NoImprovements)
        | false, _ =>
            improvementLoop fuel' pm ss cs
              (mkLoop (l_plan st) isOptimal (S (l_iterations st)))
        end
    end
  else Some (st, ConditionFalse).

Definition optimize (pm : Matrix) (ss : list Supplier) (cs : list Customer)
    (plan : Matrix) : option (LoopState * Termination) :=
  let initialOptimalityCheck := checkOptimality pm plan ss cs in
  if oc_isOptimal initialOptimalityCheck then
    Some (mkLoop plan true 0, InitiallyOptimal)
  else
    '(st, e) ← improvementLoop maxIterations pm ss cs (mkLoop plan false 0);
    Some (st, LoopLeft e).

Definition solveMiddlemanProblem (startTime endTime : float)
    (problem : MiddlemanProblem) : Outcome MiddlemanSolution :=
  let validation := validateProblem problem in
  if negb (isValid validation) then
    Thrown ("Invalid problem: " ++ join ", " (errors validation))%string
  else if Nat.eqb (length (suppliers problem)) 0
          || Nat.eqb (length (customers problem)) 0 then
    Thrown "Invalid problem: no suppliers or customers"
  else
    let balancedProblem :=
      balanceProblem (suppliers problem) (customers problem) in
    let ss := b_suppliers balancedProblem in
    let cs := b_customers balancedProblem in
    let transportationCosts :=
      validateTransportationCosts (transportationCosts problem)
        (length ss) (length cs) in
    let profitMatrix := calculateProfitMatrix ss cs transportationCosts in
    match findOptimalTransportation profitMatrix ss cs with
    | None => OutOfFuel
    | Some initialPlan =>
        match optimize profitMatrix ss cs initialPlan with
        | None => OutOfFuel
        | Some (st, _) =>
            let transportationPlan := l_plan st in
            let results :=
              calculateResults transportationPlan ss cs transportationCosts in
            let optimalRoutes :=
              createOptimalRoutes transportationPlan ss cs
                transportationCosts profitMatrix in
            Returned
              {| profitMatrix := profitMatrix;
                 transportationPlan := transportationPlan;
                 isBalanced := b_isBalanced balancedProblem;
                 isFeasible := true;
                 isOptimal := l_isOptimal st;
                 totalPurchaseCost := res_totalPurchaseCost results;
                 totalTransportationCost :=
                   res_totalTransportationCost results;
                 totalRevenue := res_totalRevenue results;
                 totalProfit := res_totalProfit results;
                 optimalRoutes := optimalRoutes;
                 algorithm :=
                   "Maximum Element Method with Dual Variable Optimality Check";
                 executionTime := (endTime - startTime)%float;
                 iterations := l_iterations st |}
        end
    end.

End Double.

(** * Vocabulary of the proofs and of the claims *)

(** The number of positive entries of a vector. *)
Definition countPositive (xs : list Q) : nat :=
  length (List.filter (fun x => Qgtb x 0) xs).

(** The column [j] of a matrix, as a vector. *)
Definition column (mx : Matrix) (j : nat) : list Q :=
  (fun row => at_ row j) <$> mx.

(** A cell the scan may choose: remaining supply on its row and remaining
    demand on its column. *)
Definition eligible (rs rd : list Q) (c : nat * nat) : bool :=
  Qgtb (at_ rs c.1) 0 && Qgtb (at_ rd c.2) 0.

(** What the scan of the list [l] has found. *)
Definition scanned (pm : Matrix) (rs rd : list Q) (l : list (nat * nat))
    (r : option (Q * (nat * nat))) : Prop :=
  match r with
  | None => forall c, c ∈ l -> eligible rs rd c = false
  | Some (z, c) =>
      z = cell pm c.1 c.2 /\ eligible rs rd c = true /\
      exists l1 l2, l = l1 ++ c :: l2 /\
        (forall c', c' ∈ l1 -> eligible rs rd c' = true ->
           (cell pm c'.1 c'.2 < z)%Q) /\
        (forall c', c' ∈ l2 -> eligible rs rd c' = true ->
           (cell pm c'.1 c'.2 <= z)%Q)
  end.

(** What holds of the plan and of the remaining vectors before and after
    every allocation. *)
Record allocating (supplies demands : list Q) (st : AllocState)
  : Prop := {
  al_shape : shape (a_plan st) (length supplies) (length demands);
  al_rs_length : length (remainingSupply st) = length supplies;
  al_rd_length : length (remainingDemand st) = length demands;
  al_rs_nonneg : forall i, (0 <= at_ (remainingSupply st) i)%Q;
  al_rd_nonneg : forall j, (0 <= at_ (remainingDemand st) j)%Q;
  al_plan_nonneg : forall i j, (0 <= cell (a_plan st) i j)%Q;
  al_rows : forall i, i < length supplies ->
    (rowSum (a_plan st) i + at_ (remainingSupply st) i == at_ supplies i)%Q;
  al_cols : forall j, j < length demands ->
    (colSum (a_plan st) j + at_ (remainingDemand st) j == at_ demands j)%Q;
  al_fresh : forall i j,
    (0 < at_ (remainingSupply st) i)%Q ->
    (0 < at_ (remainingDemand st) j)%Q ->
    (cell (a_plan st) i j == 0)%Q;
  al_balance :
    (sumQ (remainingSupply st) == sumQ (remainingDemand st))%Q;
  al_steps :
    allocationStep st + countPositive (remainingSupply st)
      + countPositive (remainingDemand st)
    <= length supplies + length demands;
  al_steps_last :
    0 < length supplies + length demands ->
    allocationStep st + 1 <= length supplies + length demands
}.

(** The state the method starts from. *)
Definition allocationStart (supplies demands : list Q) : AllocState :=
  {| a_plan := zeros (length supplies) (length demands);
     remainingSupply := supplies;
     remainingDemand := demands;
     allocationStep := 0 |}.

(** What the validation asks of a supplier and of a customer, and what it
    rejects. *)
Definition validSupplier (s : Supplier) : Prop :=
  (0 < supply s)%Q /\ (0 <= purchaseCost s)%Q.
Definition validCustomer (c : Customer) : Prop :=
  (0 < demand c)%Q /\ (0 <= sellingPrice c)%Q.
Definition invalidSupplier (s : Supplier) : Prop :=
  (supply s <= 0)%Q \/ (purchaseCost s < 0)%Q.
Definition invalidCustomer (c : Customer) : Prop :=
  (demand c <= 0)%Q \/ (sellingPrice c < 0)%Q.

(** A problem the validation accepts. *)
Definition wellFormed (p : MiddlemanProblem) : Prop :=
  suppliers p <> [] /\ customers p <> [] /\
  Forall validSupplier (suppliers p) /\ Forall validCustomer (customers p).

(** A structurally invalid problem: no suppliers, no customers, a
    non-positive supply or demand, or a negative purchase cost or selling
    price. *)
Definition structurallyInvalid (p : MiddlemanProblem) : Prop :=
  suppliers p = [] \/ customers p = [] \/
  Exists invalidSupplier (suppliers p) \/ Exists invalidCustomer (customers p).

(** The values of steps 2 to 5 of [solveMiddlemanProblem]: the balanced
    problem and its two lists, the validated costs, the profit matrix and
    the initial plan. *)
Definition balancedOf (p : MiddlemanProblem) : BalancedProblem :=
  balanceProblem (suppliers p) (customers p).
Definition suppliersOf (p : MiddlemanProblem) : list Supplier :=
  b_suppliers (balancedOf p).
Definition customersOf (p : MiddlemanProblem) : list Customer :=
  b_customers (balancedOf p).
Definition costsOf (p : MiddlemanProblem) : Matrix :=
  validateTransportationCosts (transportationCosts p)
    (length (suppliersOf p)) (length (customersOf p)).
Definition profitOf (p : MiddlemanProblem) : Matrix :=
  calculateProfitMatrix (suppliersOf p) (customersOf p) (costsOf p).
Definition initialPlanOf (p : MiddlemanProblem) : option Matrix :=
  findOptimalTransportation (profitOf p) (suppliersOf p) (customersOf p).

(** The solution assembled from the final state of the loop. *)
Definition solutionOf (startTime endTime : Q) (p : MiddlemanProblem)
    (st : LoopState) : MiddlemanSolution :=
  let results :=
    calculateResults (l_plan st) (suppliersOf p) (customersOf p) (costsOf p) in
  {| profitMatrix := profitOf p;
     transportationPlan := l_plan st;
     isBalanced := b_isBalanced (balancedOf p);
     isFeasible := true;
     isOptimal := l_isOptimal st;
     totalPurchaseCost := res_totalPurchaseCost results;
     totalTransportationCost := res_totalTransportationCost results;
     totalRevenue := res_totalRevenue results;
     totalProfit := res_totalProfit results;
     optimalRoutes :=
       createOptimalRoutes (l_plan st) (suppliersOf p) (customersOf p)
         (costsOf p) (profitOf p);
     algorithm := "Maximum Element Method with Dual Variable Optimality Check";
     executionTime := (endTime - startTime)%Q;
     iterations := l_iterations st |}.

(** [c] is visited before [c'] by the double loop. *)
Definition before (c c' : nat * nat) : Prop :=
  c.1 < c'.1 \/ (c.1 = c'.1 /\ c.2 < c'.2).

(** [suppliers[i].purchaseCost] and [customers[j].sellingPrice]. *)
Definition purchaseCostAt (ss : list Supplier) (i : nat) : Q :=
  default 0%Q (purchaseCost <$> ss !! i).
Definition sellingPriceAt (cs : list Customer) (j : nat) : Q :=
  default 0%Q (sellingPrice <$> cs !! j).

(** A cell with positive flow. *)
Definition positiveFlow (plan : Matrix) (c : nat * nat) : bool :=
  Qgtb (cell plan c.1 c.2) 0.

(** The supplier, the customer of a cell is not the fictitious one. *)
Definition realSupplier (ss : list Supplier) (c : nat * nat) : bool :=
  negb (isFictitiousSupplier (ss !! c.1)).
Definition realCustomer (cs : list Customer) (c : nat * nat) : bool :=
  negb (isFictitiousCustomer (cs !! c.2)).

(** A positive-flow cell with no fictitious endpoint. *)
Definition realRoute (plan : Matrix) (ss : list Supplier)
    (cs : list Customer) (c : nat * nat) : bool :=
  positiveFlow plan c && (realCustomer cs c && realSupplier ss c).

(** A positive-flow cell whose customer is not fictitious. *)
Definition soldRoute (plan : Matrix) (cs : list Customer) (c : nat * nat)
    : bool :=
  positiveFlow plan c && realCustomer cs c.

(** The sum of [f] over the cells of [l]. *)
Definition sumOver (f : nat * nat -> Q) (l : list (nat * nat)) : Q :=
  sumQ (f <$> l).

(** The route record of a cell. *)
Definition routeOf (plan : Matrix) (ss : list Supplier) (cs : list Customer)
    (costs pm : Matrix) (c : nat * nat) : TransportationCell :=
  mkRoute (default "" (sid <$> ss !! c.1)) (default "" (cid <$> cs !! c.2))
    (cell plan c.1 c.2) (cell pm c.1 c.2) (purchaseCostAt ss c.1)
    (cell costs c.1 c.2) (sellingPriceAt cs c.2).

(** A problem with no supplier and no customer. *)
Definition emptyProblem : MiddlemanProblem := mkProblem [] [] CostsAbsent.

(** The initial plan of the small example, over its suppliers and its
    balanced customers. *)
Definition saturatedPlan : Matrix := [[40; 0; 10]; [0; 60; 10]]%Q.
Definition smallBalancedCustomers : list Customer :=
  smallCustomers
  ++ [mkCustomer "fictitious-customer" "Fictitious Customer" 20 0]%Q.

(** The objective: the total profit of a plan under a profit matrix. *)
Definition objective (pm plan : Matrix) (m n : nat) : Q :=
  sumOver (fun c => cell pm c.1 c.2 * cell plan c.1 c.2)%Q (cells m n).

(** The loop replaces [plan] by [newPlan]: the test lists an improvement,
    and the improved plan differs from [plan] under [arraysEqual]. *)
Definition accepts (pm : Matrix) (ss : list Supplier) (cs : list Customer)
    (plan newPlan : Matrix) : Prop :=
  exists best rest,
    oc_improvements (checkOptimality pm plan ss cs) = best :: rest /\
    newPlan = improveSolution plan best ss cs /\
    arraysEqual plan newPlan = false.

(** A plan with slack: supplier 2 ships 1 of its 3 units and customer 2
    receives nothing. *)
Definition slackSuppliers : list Supplier :=
  [mkSupplier "S1" "Factory A" 1 0; mkSupplier "S2" "Factory B" 3 0]%Q.
Definition slackCustomers : list Customer :=
  [mkCustomer "C1" "Store X" 2 0; mkCustomer "C2" "Store Y" 5 0]%Q.
Definition slackProfit : Matrix := [[-10; 0]; [-20; -5]]%Q.
Definition slackPlan : Matrix := [[1; 0]; [1; 0]]%Q.

(** An outcome with the measured time erased. *)
Definition withoutTime (o : Outcome MiddlemanSolution)
    : Outcome MiddlemanSolution :=
  match o with
  | Returned sol =>
      Returned
        {| profitMatrix := profitMatrix sol;
           transportationPlan := transportationPlan sol;
           isBalanced := isBalanced sol;
           isFeasible := isFeasible sol;
           isOptimal := isOptimal sol;
           totalPurchaseCost := totalPurchaseCost sol;
           totalTransportationCost := totalTransportationCost sol;
           totalRevenue := totalRevenue sol;
           totalProfit := totalProfit sol;
           optimalRoutes := optimalRoutes sol;
           algorithm := algorithm sol;
           executionTime := 0;
           iterations := iterations sol |}
  | Thrown message => Thrown message
  | OutOfFuel => OutOfFuel
  end.

(** A problem with less supply than demand. *)
Definition shortageProblem : MiddlemanProblem :=
  mkProblem [mkSupplier "S1" "Factory A" 10 1]%Q
    [mkCustomer "C1" "Store X" 15 5]%Q CostsAbsent.

(** A balanced problem whose initial plan is not optimal: unit supplies
    and demands with profit matrix [[10, 9], [9, 1]]. *)
Definition stagnationProblem : MiddlemanProblem :=
  mkProblem
    [mkSupplier "S1" "Factory A" 1 0; mkSupplier "S2" "Factory B" 1 0]%Q
    [mkCustomer "C1" "Store X" 1 10; mkCustomer "C2" "Store Y" 1 9]%Q
    (CostsNumbers [[0; 0]; [1; 8]]%Q).

(** The opportunity cost of a cell under dual variables. *)
Definition opportunityCost (pm : Matrix) (dual : DualVariables)
    (i j : nat) : Q :=
  (cell pm i j - at_ (alpha dual) i - at_ (beta dual) j)%Q.

(** The improvement the double loop pushes for a cell, if any. *)
Definition opportunityAt (pm plan : Matrix) (dual : DualVariables)
    (c : nat * nat) : option ImprovementOpportunity :=
  if Qle_bool (cell plan c.1 c.2) epsilon then
    if Qgtb (opportunityCost pm dual c.1 c.2) epsilon then
      Some (mkImprovement c.1 c.2 (opportunityCost pm dual c.1 c.2) 0%Q
              (cell pm c.1 c.2))
    else None
  else None.

(** Non-increasing improvement. *)
Definition byImprovement (a b : ImprovementOpportunity) : Prop :=
  (improvement b <= improvement a)%Q.

(** The cell of an improvement. *)
Definition cellOf (imp : ImprovementOpportunity) : nat * nat :=
  (supplierIndex imp, customerIndex imp).

(** A plan within the capacities: of the shape of the problem, with no
    negative flow, no row above its supply and no column above its
    demand. *)
Definition feasible (plan : Matrix) (ss : list Supplier)
    (cs : list Customer) : Prop :=
  shape plan (length ss) (length cs) /\
  (forall i j, (0 <= cell plan i j)%Q) /\
  (forall i, i < length ss -> (rowSum plan i <= supplyAt ss i)%Q) /\
  (forall j, j < length cs -> (colSum plan j <= demandAt cs j)%Q).


(** A whole number. *)
Definition whole (q : Q) : Prop := (inject_Z (Qfloor q) == q)%Q.

(** Up to 2^53 binary64 holds every whole number. *)
Definition exactLimit : Q := inject_Z (2 ^ 53).

(** Supplies and demands on which the balancer and the Maximum Element
    Method compute exactly in binary64: whole numbers, not negative, with
    totals at most 2^53.  Every partial sum, difference and minimum the
    code takes of them is a whole number between 0 and 2^53. *)
Definition exactQuantities (ss : list Supplier) (cs : list Customer)
    : Prop :=
  Forall (fun s => whole (supply s) /\ (0 <= supply s)%Q) ss /\
  Forall (fun c => whole (demand c) /\ (0 <= demand c)%Q) cs /\
  (totalSupplyOf ss <= exactLimit)%Q /\
  (totalDemandOf cs <= exactLimit)%Q.

(** A plan on which the improver computes exactly in binary64: whole
    flows within whole supplies and demands of at most 2^53. *)
Definition exactPlan (plan : Matrix) (ss : list Supplier)
    (cs : list Customer) : Prop :=
  feasible plan ss cs /\
  Forall (Forall whole) plan /\
  Forall (fun s => whole (supply s) /\ (supply s <= exactLimit)%Q) ss /\
  Forall (fun c => whole (demand c) /\ (demand c <= exactLimit)%Q) cs.

(** The small example, over binary64 numbers. *)
Definition smallExampleDouble : Double.MiddlemanProblem :=
  Double.mkProblem
    [Double.mkSupplier "S1" "Factory A" 50 8;
     Double.mkSupplier "S2" "Factory B" 70 10]
    [Double.mkCustomer "C1" "Store X" 40 20;
     Double.mkCustomer "C2" "Store Y" 60 25]
    (Double.CostsRecords
       [[Double.mkTransportationCost "S1" "C1" (Double.CostNumber 2);
         Double.mkTransportationCost "S1" "C2" (Double.CostNumber 4)];
        [Double.mkTransportationCost "S2" "C1" (Double.CostNumber 3);
         Double.mkTransportationCost "S2" "C2" (Double.CostNumber 1)]]).

(** One supplier of 2^53 units and two customers asking for 1 and 2^53
    units at the prices 1 and 8: in binary64 the total demand 1 + 2^53
    rounds to 2^53, and the code takes the problem for a balanced one. *)
Definition roundedShortage : Double.MiddlemanProblem :=
  Double.mkProblem
    [Double.mkSupplier "S1" "Factory A" 0x1p53 0]
    [Double.mkCustomer "C1" "Store X" 1 1;
     Double.mkCustomer "C2" "Store Y" 0x1p53 8]
    Double.CostsAbsent.

(** The same suppliers, customers and profit matrix over rationals, with
    the initial plan of that run, which leaves the first customer
    unserved. *)
Definition unservedSuppliers : list Supplier :=
  [mkSupplier "S1" "Factory A" (inject_Z (2 ^ 53)) 0].
Definition unservedCustomers : list Customer :=
  [mkCustomer "C1" "Store X" 1 1;
   mkCustomer "C2" "Store Y" (inject_Z (2 ^ 53)) 8].
Definition unservedProfit : Matrix := [[1; 8]]%Q.
Definition unservedPlan : Matrix := [[0; inject_Z (2 ^ 53)]]%Q.


(** A supply of 0.2 against a demand of 0.9. *)
Definition fractionalSuppliers : list Double.Supplier :=
  [Double.mkSupplier "S1" "Factory A" 0.2 1].
Definition fractionalCustomers : list Double.Customer :=
  [Double.mkCustomer "C1" "Store X" 0.9 5].


(** A positive flow from the fictitious supplier to a real customer. *)
Definition phantomRoute (plan : Matrix) (ss : list Supplier)
    (cs : list Customer) (c : nat * nat) : bool :=
  soldRoute plan cs c && negb (realSupplier ss c).



(** The duals known in [a] are known, with the same values, in [a']. *)
Definition keeps (a a' : list (option Q)) : Prop :=
  length a' = length a /\
  forall i v, a !! i = Some (Some v) -> a' !! i = Some (Some v).

(** * Proofs *)

(** ** Comparisons and sums of numbers *)

Lemma Qgtb_true (a b : Q) : Qgtb a b = true <-> (b < a)%Q.
Proof.
  unfold Qgtb. rewrite negb_true_iff, <- not_true_iff_false, Qle_bool_iff.
  split; [apply Qnot_le_lt | apply Qlt_not_le].
Qed.

Lemma Qgtb_false (a b : Q) : Qgtb a b = false <-> (a <= b)%Q.
Proof. unfold Qgtb. rewrite negb_false_iff. apply Qle_bool_iff. Qed.

Lemma Qltb_true (a b : Q) : Qltb a b = true <-> (a < b)%Q.
Proof. apply Qgtb_true. Qed.

Lemma Qltb_false (a b : Q) : Qltb a b = false <-> (b <= a)%Q.
Proof. apply Qgtb_false. Qed.

Lemma fold_Qplus_acc (xs : list Q) (a : Q) :
  (fold_left Qplus xs a == a + sumQ xs)%Q.
Proof.
  unfold sumQ. revert a. induction xs as [|x xs IH]; intros a; simpl.
  - lra.
  - rewrite (IH (a + x)%Q), (IH (0 + x)%Q). lra.
Qed.

Lemma sumQ_nil : sumQ [] = 0%Q.
Proof. reflexivity. Qed.

Lemma sumQ_cons (x : Q) (xs : list Q) : (sumQ (x :: xs) == x + sumQ xs)%Q.
Proof. unfold sumQ at 1. simpl. rewrite fold_Qplus_acc. lra. Qed.

Lemma sumQ_app (xs ys : list Q) : (sumQ (xs ++ ys) == sumQ xs + sumQ ys)%Q.
Proof.
  induction xs as [|x xs IH]; simpl.
  - rewrite sumQ_nil. lra.
  - rewrite !sumQ_cons, IH. lra.
Qed.

Lemma at_cons_0 (x : Q) (xs : list Q) : at_ (x :: xs) 0 = x.
Proof. reflexivity. Qed.

Lemma at_cons_S (x : Q) (xs : list Q) (i : nat) :
  at_ (x :: xs) (S i) = at_ xs i.
Proof. reflexivity. Qed.

Lemma at_insert_eq (xs : list Q) (i : nat) (v : Q) :
  i < length xs -> at_ (<[i := v]> xs) i = v.
Proof. intros H. unfold at_. by rewrite list_lookup_insert_eq. Qed.

Lemma at_insert_ne (xs : list Q) (i j : nat) (v : Q) :
  i <> j -> at_ (<[i := v]> xs) j = at_ xs j.
Proof. intros H. unfold at_. by rewrite list_lookup_insert_ne. Qed.

Lemma at_ge (xs : list Q) (i : nat) : length xs <= i -> at_ xs i = 0%Q.
Proof. intros H. unfold at_. by rewrite lookup_ge_None_2. Qed.

Lemma at_positive_lt (xs : list Q) (i : nat) :
  (0 < at_ xs i)%Q -> i < length xs.
Proof.
  intros H. destruct (decide (i < length xs)) as [|Hge]; [done|].
  rewrite at_ge in H by lia. lra.
Qed.

Lemma sumQ_insert (xs : list Q) (i : nat) (v : Q) :
  i < length xs ->
  (sumQ (<[i := v]> xs) == sumQ xs - at_ xs i + v)%Q.
Proof.
  revert i. induction xs as [|x xs IH]; intros [|i] Hi; simpl in *; try lia.
  - rewrite !sumQ_cons, at_cons_0. lra.
  - rewrite !sumQ_cons, at_cons_S, IH by lia. lra.
Qed.

Lemma sumQ_nonneg (xs : list Q) :
  Forall (fun x => 0 <= x)%Q xs -> (0 <= sumQ xs)%Q.
Proof.
  induction 1 as [|x xs Hx _ IH]; [rewrite sumQ_nil; lra|].
  rewrite sumQ_cons. lra.
Qed.

Lemma sumQ_zero_all (xs : list Q) :
  Forall (fun x => 0 <= x)%Q xs -> (sumQ xs == 0)%Q ->
  Forall (fun x => x == 0)%Q xs.
Proof.
  induction 1 as [|x xs Hx Hxs IH]; intros Hsum; [constructor|].
  rewrite sumQ_cons in Hsum. pose proof (sumQ_nonneg xs Hxs).
  constructor; [lra | apply IH; lra].
Qed.

Lemma sumQ_all_zero (xs : list Q) :
  Forall (fun x => x == 0)%Q xs -> (sumQ xs == 0)%Q.
Proof.
  induction 1 as [|x xs Hx _ IH]; [reflexivity|].
  rewrite sumQ_cons. lra.
Qed.

(** ** Positive entries of a vector *)

Lemma countPositive_le (xs : list Q) : countPositive xs <= length xs.
Proof. apply List.filter_length_le. Qed.

Lemma somePositive_true (xs : list Q) :
  somePositive xs = true <-> exists i, i < length xs /\ (0 < at_ xs i)%Q.
Proof.
  unfold somePositive. rewrite existsb_exists. split.
  - intros (x & Hin & Hx). apply Qgtb_true in Hx.
    apply list_elem_of_In, list_elem_of_lookup in Hin as [i Hi].
    exists i. split; [by eapply lookup_lt_Some|].
    unfold at_. by rewrite Hi.
  - intros (i & Hi & Hpos). apply lookup_lt_is_Some in Hi as [x Hx].
    exists x. split.
    + apply list_elem_of_In, list_elem_of_lookup. eauto.
    + apply Qgtb_true. unfold at_ in Hpos. by rewrite Hx in Hpos.
Qed.

Lemma somePositive_false (xs : list Q) :
  somePositive xs = false <-> Forall (fun x => x <= 0)%Q xs.
Proof.
  unfold somePositive. rewrite <- not_true_iff_false, existsb_exists.
  rewrite Forall_forall. split.
  - intros H x Hin. apply Qgtb_false.
    destruct (Qgtb x 0) eqn:E; [|done].
    exfalso. apply H. exists x. split; [by apply list_elem_of_In|done].
  - intros H (x & Hin & Hx). apply Qgtb_true in Hx.
    apply list_elem_of_In, H in Hin. lra.
Qed.

Lemma countPositive_insert (xs : list Q) (i : nat) (v : Q) :
  i < length xs ->
  countPositive (<[i := v]> xs) + (if Qgtb (at_ xs i) 0 then 1 else 0)
  = countPositive xs + (if Qgtb v 0 then 1 else 0).
Proof.
  unfold countPositive.
  revert i. induction xs as [|x xs IH]; intros [|i] Hi; simpl in *; try lia.
  - rewrite at_cons_0.
    destruct (Qgtb x 0), (Qgtb v 0); simpl; lia.
  - rewrite at_cons_S. specialize (IH i ltac:(lia)).
    destruct (Qgtb x 0); simpl; lia.
Qed.

Lemma countPositive_zero (xs : list Q) :
  countPositive xs = 0 <-> somePositive xs = false.
Proof.
  unfold countPositive, somePositive.
  induction xs as [|x xs IH]; simpl; [done|].
  destruct (Qgtb x 0); simpl; [split; intros; [lia|done]|apply IH].
Qed.

(** ** Cells and matrices *)

Lemma elem_of_cells (m n i j : nat) : (i, j) ∈ cells m n <-> i < m /\ j < n.
Proof.
  unfold cells. rewrite list_elem_of_bind. split.
  - intros (i' & Hj & Hi). apply list_elem_of_fmap in Hj as (j' & Heq & Hj).
    inversion Heq; subst. apply elem_of_seq in Hi, Hj. lia.
  - intros [Hi Hj]. exists i. split.
    + apply list_elem_of_fmap. exists j. split; [done|]. apply elem_of_seq. lia.
    + apply elem_of_seq. lia.
Qed.

Lemma lookup_tabulate (m n : nat) (f : nat -> nat -> Q) (i : nat) :
  i < m -> tabulate m n f !! i = Some (f i <$> seq 0 n).
Proof.
  intros Hi. unfold tabulate. rewrite list_lookup_fmap.
  by rewrite (lookup_seq_lt 0 m i Hi).
Qed.

Lemma cell_tabulate (m n : nat) (f : nat -> nat -> Q) (i j : nat) :
  i < m -> j < n -> cell (tabulate m n f) i j = f i j.
Proof.
  intros Hi Hj. unfold cell. rewrite lookup_tabulate by done. simpl.
  rewrite list_lookup_fmap. by rewrite (lookup_seq_lt 0 n j Hj).
Qed.

Lemma shape_tabulate (m n : nat) (f : nat -> nat -> Q) :
  shape (tabulate m n f) m n.
Proof.
  unfold shape, tabulate. split.
  - by rewrite length_fmap, length_seq.
  - apply Forall_fmap, Forall_forall. intros i _. simpl.
    by rewrite length_fmap, length_seq.
Qed.

Lemma shape_zeros (m n : nat) : shape (zeros m n) m n.
Proof.
  unfold shape, zeros. split; [by rewrite length_replicate|].
  apply Forall_replicate. by rewrite length_replicate.
Qed.

Lemma cell_zeros (m n i j : nat) : cell (zeros m n) i j = 0%Q.
Proof.
  unfold cell, zeros.
  destruct (replicate m (replicate n 0%Q) !! i) as [row|] eqn:Hrow; [|done].
  apply lookup_replicate in Hrow as [-> _]. simpl.
  destruct (replicate n 0%Q !! j) as [x|] eqn:Hx; [|done].
  by apply lookup_replicate in Hx as [-> _].
Qed.

Lemma shape_row (mx : Matrix) (r c i : nat) (row : list Q) :
  shape mx r c -> mx !! i = Some row -> length row = c.
Proof.
  intros [_ Hrows] Hi. rewrite Forall_forall in Hrows. apply Hrows.
  apply list_elem_of_lookup. eauto.
Qed.

Lemma shape_set_cell (mx : Matrix) (r c i j : nat) (v : Q) :
  shape mx r c -> shape (set_cell mx i j v) r c.
Proof.
  intros [Hlen Hrows]. unfold set_cell. split; [by rewrite length_alter|].
  apply Forall_lookup. intros k row Hk.
  rewrite list_lookup_alter in Hk. rewrite Forall_lookup in Hrows.
  destruct (decide (i = k)) as [->|]; [|by eapply Hrows].
  destruct (mx !! k) as [row0|] eqn:Hrow0; simpl in Hk; [|done].
  inversion Hk; subst. rewrite length_insert. by eapply Hrows.
Qed.

Lemma cell_set_cell_eq (mx : Matrix) (r c i j : nat) (v : Q) :
  shape mx r c -> i < r -> j < c -> cell (set_cell mx i j v) i j = v.
Proof.
  intros Hs Hi Hj. unfold cell, set_cell. rewrite list_lookup_alter_eq.
  destruct Hs as [Hlen Hrows].
  destruct (lookup_lt_is_Some_2 mx i ltac:(lia)) as [row Hrow].
  rewrite Hrow. simpl. rewrite list_lookup_insert_eq; [done|].
  rewrite Forall_lookup in Hrows. by rewrite (Hrows _ _ Hrow).
Qed.

Lemma cell_set_cell_ne (mx : Matrix) (i j i' j' : nat) (v : Q) :
  (i, j) <> (i', j') -> cell (set_cell mx i j v) i' j' = cell mx i' j'.
Proof.
  intros Hne. unfold cell, set_cell. rewrite list_lookup_alter.
  destruct (decide (i = i')) as [->|]; [|done].
  destruct (mx !! i') as [row|]; simpl; [|done].
  rewrite list_lookup_insert_ne; [done|]. congruence.
Qed.

Lemma cell_row (mx : Matrix) (i j : nat) (row : list Q) :
  mx !! i = Some row -> cell mx i j = at_ row j.
Proof. intros H. unfold cell. by rewrite H. Qed.

Lemma cell_nonzero_lt (mx : Matrix) (r c i j : nat) :
  shape mx r c -> ~ (cell mx i j == 0)%Q -> i < r /\ j < c.
Proof.
  intros Hs Hnz. unfold cell in Hnz.
  destruct (mx !! i) as [row|] eqn:Hrow; simpl in Hnz; [|by destruct Hnz].
  destruct (row !! j) as [x|] eqn:Hx; simpl in Hnz; [|by destruct Hnz].
  apply lookup_lt_Some in Hx. rewrite (shape_row _ _ _ _ _ Hs Hrow) in Hx.
  apply lookup_lt_Some in Hrow. destruct Hs as [Hlen _]. lia.
Qed.

Lemma colSum_column (mx : Matrix) (j : nat) : colSum mx j = sumQ (column mx j).
Proof.
  unfold colSum, sumQ, column. generalize 0%Q.
  induction mx as [|row mx IH]; intros a; simpl; [done|]. apply IH.
Qed.

Lemma at_column (mx : Matrix) (i j : nat) : at_ (column mx j) i = cell mx i j.
Proof.
  unfold at_, column, cell. rewrite list_lookup_fmap.
  by destruct (mx !! i).
Qed.

Lemma column_set_cell_eq (mx : Matrix) (r c i j : nat) (v : Q) :
  shape mx r c -> j < c ->
  column (set_cell mx i j v) j = <[i := v]> (column mx j).
Proof.
  intros Hs Hj. apply list_eq. intros k. unfold column, set_cell.
  rewrite list_lookup_fmap, list_lookup_alter.
  destruct (decide (i = k)) as [->|Hne].
  - destruct (mx !! k) as [row|] eqn:Hrow; simpl.
    + rewrite list_lookup_insert_eq.
      * f_equal. apply at_insert_eq.
        by rewrite (shape_row _ _ _ _ _ Hs Hrow).
      * rewrite length_fmap. by eapply lookup_lt_Some.
    + rewrite list_insert_ge; [by rewrite list_lookup_fmap, Hrow|].
      rewrite length_fmap. by apply lookup_ge_None.
  - rewrite list_lookup_insert_ne by done. by rewrite list_lookup_fmap.
Qed.

Lemma column_set_cell_ne (mx : Matrix) (i j j' : nat) (v : Q) :
  j <> j' -> column (set_cell mx i j v) j' = column mx j'.
Proof.
  intros Hne. apply list_eq. intros k. unfold column, set_cell.
  rewrite !list_lookup_fmap, list_lookup_alter.
  destruct (decide (i = k)) as [->|]; [|done].
  destruct (mx !! k) as [row|]; simpl; [|done].
  by rewrite at_insert_ne.
Qed.

Lemma rowSum_set_cell_eq (mx : Matrix) (r c i j : nat) (v : Q) :
  shape mx r c -> i < r -> j < c ->
  (rowSum (set_cell mx i j v) i == rowSum mx i - cell mx i j + v)%Q.
Proof.
  intros Hs Hi Hj. unfold rowSum, set_cell. rewrite list_lookup_alter_eq.
  destruct (lookup_lt_is_Some_2 mx i ltac:(destruct Hs; lia)) as [row Hrow].
  rewrite Hrow. simpl. rewrite (cell_row _ _ _ _ Hrow).
  apply sumQ_insert. by rewrite (shape_row _ _ _ _ _ Hs Hrow).
Qed.

Lemma rowSum_set_cell_ne (mx : Matrix) (i j i' : nat) (v : Q) :
  i <> i' -> rowSum (set_cell mx i j v) i' = rowSum mx i'.
Proof.
  intros Hne. unfold rowSum, set_cell. by rewrite list_lookup_alter_ne.
Qed.

Lemma colSum_set_cell_eq (mx : Matrix) (r c i j : nat) (v : Q) :
  shape mx r c -> i < r -> j < c ->
  (colSum (set_cell mx i j v) j == colSum mx j - cell mx i j + v)%Q.
Proof.
  intros Hs Hi Hj. rewrite !colSum_column.
  rewrite (column_set_cell_eq _ _ _ _ _ _ Hs Hj), <- at_column.
  apply sumQ_insert. unfold column. rewrite length_fmap. destruct Hs; lia.
Qed.

Lemma colSum_set_cell_ne (mx : Matrix) (i j j' : nat) (v : Q) :
  j <> j' -> colSum (set_cell mx i j v) j' = colSum mx j'.
Proof.
  intros Hne. by rewrite !colSum_column, column_set_cell_ne.
Qed.

Lemma rowSum_zeros (m n i : nat) : (rowSum (zeros m n) i == 0)%Q.
Proof.
  unfold rowSum, zeros.
  destruct (replicate m (replicate n 0%Q) !! i) as [row|] eqn:Hrow;
    [|reflexivity].
  apply lookup_replicate in Hrow as [-> _]. simpl.
  apply sumQ_all_zero, Forall_replicate. reflexivity.
Qed.

Lemma colSum_zeros (m n j : nat) : (colSum (zeros m n) j == 0)%Q.
Proof.
  rewrite colSum_column. apply sumQ_all_zero, Forall_forall.
  intros x Hx. apply list_elem_of_lookup in Hx as [i Hi].
  assert (x = at_ (column (zeros m n) j) i) as ->
    by (unfold at_; by rewrite Hi).
  rewrite at_column, cell_zeros. reflexivity.
Qed.

(** ** The maximum scan *)

Lemma scanCell_scanned pm rs rd l r c :
  scanned pm rs rd l r -> scanned pm rs rd (l ++ [c]) (scanCell pm rs rd r c).
Proof.
  intros Hr. unfold scanCell. destruct c as [i j].
  change (Qgtb (at_ rs i) 0 && Qgtb (at_ rd j) 0)
    with (eligible rs rd (i, j)).
  destruct (eligible rs rd (i, j)) eqn:He.
  - destruct r as [[z c0]|]; simpl in *.
    + destruct Hr as (Hz & He0 & l1 & l2 & Hl & Hbefore & Hafter).
      destruct (Qgtb (cell pm i j) z) eqn:Hgt; simpl.
      * apply Qgtb_true in Hgt. split_and!; [done..|].
        exists l, []. split_and!; [done| |].
        -- intros c' Hc' He'. subst l.
           apply elem_of_app in Hc' as [Hc'|Hc'].
           { specialize (Hbefore c' Hc' He'). lra. }
           apply elem_of_cons in Hc' as [->|Hc'].
           { subst z. lra. }
           specialize (Hafter c' Hc' He'). lra.
        -- intros c' Hc'. by apply elem_of_nil in Hc'.
      * apply Qgtb_false in Hgt. split_and!; [done..|].
        exists l1, (l2 ++ [(i, j)]). split_and!; [|done|].
        -- subst l. by rewrite <- app_assoc.
        -- intros c' Hc' He'. apply elem_of_app in Hc' as [Hc'|Hc'].
           { by apply Hafter. }
           apply list_elem_of_singleton in Hc' as ->. done.
    + split_and!; [done..|]. exists l, []. split_and!; [done| |].
      * intros c' Hc' He'. rewrite (Hr c' Hc') in He'. done.
      * intros c' Hc'. by apply elem_of_nil in Hc'.
  - destruct r as [[z c0]|]; simpl in *.
    + destruct Hr as (Hz & He0 & l1 & l2 & Hl & Hbefore & Hafter).
      split_and!; [done..|].
      exists l1, (l2 ++ [(i, j)]). split_and!; [|done|].
      * subst l. by rewrite <- app_assoc.
      * intros c' Hc' He'. apply elem_of_app in Hc' as [Hc'|Hc'].
        { by apply Hafter. }
        apply list_elem_of_singleton in Hc' as ->. congruence.
    + intros c' Hc'. apply elem_of_app in Hc' as [Hc'|Hc']; [by apply Hr|].
      by apply list_elem_of_singleton in Hc' as ->.
Qed.

Lemma scan_scanned pm rs rd l :
  scanned pm rs rd l (fold_left (scanCell pm rs rd) l None).
Proof.
  induction l as [|c l IH] using rev_ind.
  - simpl. intros c Hc. by apply elem_of_nil in Hc.
  - rewrite fold_left_app. simpl. by apply scanCell_scanned.
Qed.

Lemma findMaxCell_Some pm m n rs rd z i j :
  findMaxCell pm m n rs rd = Some (z, (i, j)) ->
  i < m /\ j < n /\ (0 < at_ rs i)%Q /\ (0 < at_ rd j)%Q /\ z = cell pm i j.
Proof.
  intros H. pose proof (scan_scanned pm rs rd (cells m n)) as Hs.
  unfold findMaxCell in H. rewrite H in Hs.
  destruct Hs as (Hz & He & l1 & l2 & Hl & _).
  assert ((i, j) ∈ cells m n) as Hin.
  { rewrite Hl. apply elem_of_app. right. apply elem_of_cons. by left. }
  apply elem_of_cells in Hin as [Hi Hj].
  apply andb_true_iff in He as [He1 He2].
  apply Qgtb_true in He1, He2. done.
Qed.

Lemma findMaxCell_None pm m n rs rd i j :
  findMaxCell pm m n rs rd = None ->
  i < m -> j < n -> ~ ((0 < at_ rs i)%Q /\ (0 < at_ rd j)%Q).
Proof.
  intros H Hi Hj [H1 H2]. pose proof (scan_scanned pm rs rd (cells m n)) as Hs.
  unfold findMaxCell in H. rewrite H in Hs. simpl in Hs.
  specialize (Hs (i, j)). rewrite elem_of_cells in Hs.
  specialize (Hs (conj Hi Hj)). unfold eligible in Hs. simpl in Hs.
  apply Qgtb_true in H1, H2. rewrite H1, H2 in Hs. done.
Qed.

(** ** The allocation loop *)

Lemma allocate_unfold fuel pm m n st :
  allocate (S fuel) pm m n st =
  if somePositive (remainingSupply st) && somePositive (remainingDemand st)
  then
    match findMaxCell pm m n (remainingSupply st) (remainingDemand st) with
    | None => Some st
    | Some (_, (maxI, maxJ)) =>
        let allocation :=
          Qmin (at_ (remainingSupply st) maxI)
               (at_ (remainingDemand st) maxJ) in
        allocate fuel pm m n
          {| a_plan := set_cell (a_plan st) maxI maxJ allocation;
             remainingSupply :=
               <[maxI := (at_ (remainingSupply st) maxI - allocation)%Q]>
                 (remainingSupply st);
             remainingDemand :=
               <[maxJ := (at_ (remainingDemand st) maxJ - allocation)%Q]>
                 (remainingDemand st);
             allocationStep := S (allocationStep st) |}
    end
  else Some st.
Proof. reflexivity. Qed.

(** One allocation strictly lowers the number of positive entries. *)
Lemma countPositive_allocation (rs rd : list Q) (i j : nat) :
  (0 < at_ rs i)%Q -> (0 < at_ rd j)%Q ->
  let a := Qmin (at_ rs i) (at_ rd j) in
  countPositive (<[i := (at_ rs i - a)%Q]> rs)
  + countPositive (<[j := (at_ rd j - a)%Q]> rd)
  < countPositive rs + countPositive rd.
Proof.
  intros Hi Hj a.
  pose proof (countPositive_insert rs i (at_ rs i - a)%Q
                (at_positive_lt _ _ Hi)) as H1.
  pose proof (countPositive_insert rd j (at_ rd j - a)%Q
                (at_positive_lt _ _ Hj)) as H2.
  apply Qgtb_true in Hi as Hi', Hj as Hj'. rewrite Hi' in H1. rewrite Hj' in H2.
  destruct (Q.min_spec_le (at_ rs i) (at_ rd j)) as [[Hle Hmin]|[Hle Hmin]];
    fold a in Hmin.
  - assert (Qgtb (at_ rs i - a) 0 = false) as E by (apply Qgtb_false; lra).
    rewrite E in H1. destruct (Qgtb (at_ rd j - a) 0); lia.
  - assert (Qgtb (at_ rd j - a) 0 = false) as E by (apply Qgtb_false; lra).
    rewrite E in H2. destruct (Qgtb (at_ rs i - a) 0); lia.
Qed.

(** The loop stops before [fuel] runs out, whatever the vectors are. *)
Lemma allocate_total fuel pm m n st :
  countPositive (remainingSupply st) + countPositive (remainingDemand st)
    < fuel ->
  is_Some (allocate fuel pm m n st).
Proof.
  revert st. induction fuel as [|fuel IH]; intros st Hfuel; [lia|].
  rewrite allocate_unfold.
  destruct (somePositive _ && somePositive _); [|done].
  destruct (findMaxCell _ _ _ _ _) as [[z [i j]]|] eqn:Hmax; [|done].
  apply findMaxCell_Some in Hmax as (_ & _ & Hi & Hj & _).
  apply IH. simpl.
  pose proof (countPositive_allocation _ _ _ _ Hi Hj). simpl in *. lia.
Qed.

(** More fuel does not change what the loop returns. *)
Lemma allocate_fuel_mono fuel fuel' pm m n st st' :
  allocate fuel pm m n st = Some st' -> fuel <= fuel' ->
  allocate fuel' pm m n st = Some st'.
Proof.
  revert fuel' st. induction fuel as [|fuel IH]; intros fuel' st Hrun Hle.
  - cbn [allocate] in Hrun.
    destruct (somePositive (remainingSupply st)
              && somePositive (remainingDemand st)) eqn:Hcond; [done|].
    destruct fuel' as [|fuel']; [by cbn [allocate]; rewrite Hcond|].
    by rewrite allocate_unfold, Hcond.
  - destruct fuel' as [|fuel']; [lia|].
    rewrite allocate_unfold in *.
    destruct (somePositive _ && somePositive _); [|done].
    destruct (findMaxCell _ _ _ _ _) as [[z [i j]]|]; [|done].
    apply IH; [done|lia].
Qed.

Section MaximumElement.
Variables (pm : Matrix) (supplies demands : list Q).

Lemma allocating_step st i j :
  allocating supplies demands st ->
  i < length supplies -> j < length demands ->
  (0 < at_ (remainingSupply st) i)%Q ->
  (0 < at_ (remainingDemand st) j)%Q ->
  let a := Qmin (at_ (remainingSupply st) i) (at_ (remainingDemand st) j) in
  allocating supplies demands
    {| a_plan := set_cell (a_plan st) i j a;
       remainingSupply :=
         <[i := (at_ (remainingSupply st) i - a)%Q]> (remainingSupply st);
       remainingDemand :=
         <[j := (at_ (remainingDemand st) j - a)%Q]> (remainingDemand st);
       allocationStep := S (allocationStep st) |}.
Proof.
  intros [] Hi Hj Hsi Hdj a.
  destruct st as [plan rs rd steps]; simpl in *.
  assert (a <= at_ rs i)%Q as Hai by apply Q.le_min_l.
  assert (a <= at_ rd j)%Q as Haj by apply Q.le_min_r.
  assert (0 < a)%Q as Ha.
  { unfold a. destruct (Q.min_spec_le (at_ rs i) (at_ rd j))
      as [[_ ->]|[_ ->]]; done. }
  assert (forall i', at_ (<[i := (at_ rs i - a)%Q]> rs) i'
                     = if decide (i = i') then (at_ rs i - a)%Q
                       else at_ rs i') as Hrs.
  { intros i'. destruct (decide (i = i')) as [<-|Hne].
    - apply at_insert_eq. lia.
    - by apply at_insert_ne. }
  assert (forall j', at_ (<[j := (at_ rd j - a)%Q]> rd) j'
                     = if decide (j = j') then (at_ rd j - a)%Q
                       else at_ rd j') as Hrd.
  { intros j'. destruct (decide (j = j')) as [<-|Hne].
    - apply at_insert_eq. lia.
    - by apply at_insert_ne. }
  pose proof (al_fresh0 i j Hsi Hdj) as Hzero.
  pose proof (countPositive_allocation rs rd i j Hsi Hdj) as Hcount.
  simpl in Hcount. fold a in Hcount.
  constructor; simpl.
  - by apply shape_set_cell.
  - by rewrite length_insert.
  - by rewrite length_insert.
  - intros i'. rewrite Hrs. destruct (decide (i = i')); [lra|done].
  - intros j'. rewrite Hrd. destruct (decide (j = j')); [lra|done].
  - intros i' j'. destruct (decide ((i, j) = (i', j'))) as [Heq|Hne].
    + inversion Heq; subst i' j'.
      rewrite (cell_set_cell_eq _ (length supplies) (length demands))
        by done.
      lra.
    + by rewrite cell_set_cell_ne.
  - intros i' Hi'. rewrite Hrs. destruct (decide (i = i')) as [<-|Hne].
    + rewrite (rowSum_set_cell_eq _ (length supplies) (length demands)) by done.
      specialize (al_rows0 i Hi). lra.
    + rewrite rowSum_set_cell_ne by done. by apply al_rows0.
  - intros j' Hj'. rewrite Hrd. destruct (decide (j = j')) as [<-|Hne].
    + rewrite (colSum_set_cell_eq _ (length supplies) (length demands)) by done.
      specialize (al_cols0 j Hj). lra.
    + rewrite colSum_set_cell_ne by done. by apply al_cols0.
  - intros i' j'. rewrite Hrs, Hrd. intros Hsi' Hdj'.
    destruct (decide ((i, j) = (i', j'))) as [Heq|Hne].
    + inversion Heq; subst i' j'.
      rewrite !decide_True in * by done.
      unfold a in *. destruct (Q.min_spec_le (at_ rs i) (at_ rd j))
        as [[_ Hm]|[_ Hm]]; lra.
    + rewrite cell_set_cell_ne by done. apply al_fresh0.
      * destruct (decide (i = i')) as [<-|]; [lra|done].
      * destruct (decide (j = j')) as [<-|]; [lra|done].
  - rewrite !sumQ_insert by lia. lra.
  - lia.
  - intros _.
    assert (0 < countPositive rs) as Hprs.
    { destruct (countPositive rs) eqn:E; [|lia].
      apply countPositive_zero, somePositive_false in E.
      rewrite Forall_lookup in E.
      destruct (lookup_lt_is_Some_2 rs i ltac:(lia)) as [x Hx].
      specialize (E _ _ Hx). unfold at_ in Hsi. rewrite Hx in Hsi.
      simpl in Hsi. lra. }
    assert (0 < countPositive rd) as Hprd.
    { destruct (countPositive rd) eqn:E; [|lia].
      apply countPositive_zero, somePositive_false in E.
      rewrite Forall_lookup in E.
      destruct (lookup_lt_is_Some_2 rd j ltac:(lia)) as [x Hx].
      specialize (E _ _ Hx). unfold at_ in Hdj. rewrite Hx in Hdj.
      simpl in Hdj. lra. }
    lia.
Qed.

(** When the loop stops, it stops because its condition is false, and
    the invariant still holds. *)
Lemma allocate_allocating fuel st st' :
  allocating supplies demands st ->
  allocate fuel pm (length supplies) (length demands) st = Some st' ->
  allocating supplies demands st' /\
  somePositive (remainingSupply st') && somePositive (remainingDemand st')
    = false.
Proof.
  revert st. induction fuel as [|fuel IH]; intros st Hinv Hrun.
  - simpl in Hrun.
    destruct (somePositive _ && somePositive _) eqn:Hcond; [done|].
    by inversion Hrun; subst.
  - rewrite allocate_unfold in Hrun.
    destruct (somePositive (remainingSupply st)
              && somePositive (remainingDemand st)) eqn:Hcond.
    + destruct (findMaxCell _ _ _ _ _) as [[z [i j]]|] eqn:Hmax.
      * apply findMaxCell_Some in Hmax as (Hi & Hj & Hsi & Hdj & _).
        eapply IH; [|exact Hrun]. by apply allocating_step.
      * exfalso. apply andb_true_iff in Hcond as [Hs Hd].
        apply somePositive_true in Hs as (i & Hi & Hsi).
        apply somePositive_true in Hd as (j & Hj & Hdj).
        destruct Hinv.
        eapply (findMaxCell_None _ _ _ _ _ i j Hmax); [lia..|done].
    + by inversion Hrun; subst.
Qed.

(** Once the loop condition is false, nothing remains on either side. *)
Lemma allocating_exhausted st i j :
  allocating supplies demands st ->
  somePositive (remainingSupply st) && somePositive (remainingDemand st)
    = false ->
  (at_ (remainingSupply st) i == 0)%Q /\ (at_ (remainingDemand st) j == 0)%Q.
Proof.
  intros [] Hcond.
  assert (Forall (fun x => 0 <= x)%Q (remainingSupply st)) as Hrs.
  { apply Forall_lookup. intros k x Hk. specialize (al_rs_nonneg0 k).
    unfold at_ in al_rs_nonneg0. by rewrite Hk in al_rs_nonneg0. }
  assert (Forall (fun x => 0 <= x)%Q (remainingDemand st)) as Hrd.
  { apply Forall_lookup. intros k x Hk. specialize (al_rd_nonneg0 k).
    unfold at_ in al_rd_nonneg0. by rewrite Hk in al_rd_nonneg0. }
  assert (forall xs, Forall (fun x => 0 <= x)%Q xs ->
                     Forall (fun x => x <= 0)%Q xs ->
                     Forall (fun x => x == 0)%Q xs) as Hzero.
  { intros xs H1 H2. rewrite Forall_forall in *. intros x Hx.
    specialize (H1 x Hx). specialize (H2 x Hx). simpl in *. lra. }
  assert (forall xs k, Forall (fun x => x == 0)%Q xs -> (at_ xs k == 0)%Q)
    as Hat.
  { intros xs k H. unfold at_. destruct (xs !! k) as [x|] eqn:Hx;
      [|reflexivity].
    rewrite Forall_lookup in H. by apply (H _ _ Hx). }
  assert (Forall (fun x => x == 0)%Q (remainingSupply st)
          /\ Forall (fun x => x == 0)%Q (remainingDemand st)) as [Hs0 Hd0].
  { apply andb_false_iff in Hcond as [Hc|Hc];
      apply somePositive_false in Hc.
    - pose proof (Hzero _ Hrs Hc) as Hs0. split; [done|].
      apply sumQ_zero_all; [done|].
      rewrite <- al_balance0. by apply sumQ_all_zero.
    - pose proof (Hzero _ Hrd Hc) as Hd0. split; [|done].
      apply sumQ_zero_all; [done|].
      rewrite al_balance0. by apply sumQ_all_zero. }
  split; by apply Hat.
Qed.

Hypothesis supplies_nonneg : Forall (fun x => 0 <= x)%Q supplies.
Hypothesis demands_nonneg : Forall (fun x => 0 <= x)%Q demands.
Hypothesis balanced : (sumQ supplies == sumQ demands)%Q.

Lemma allocating_start :
  allocating supplies demands (allocationStart supplies demands).
Proof.
  assert (forall xs k, Forall (fun x => 0 <= x)%Q xs -> (0 <= at_ xs k)%Q)
    as Hat.
  { intros xs k H. unfold at_. destruct (xs !! k) as [x|] eqn:Hx;
      [|simpl; lra].
    rewrite Forall_lookup in H. by apply (H _ _ Hx). }
  constructor; simpl.
  - apply shape_zeros.
  - done.
  - done.
  - intros i. by apply Hat.
  - intros j. by apply Hat.
  - intros i j. rewrite cell_zeros. lra.
  - intros i _. rewrite rowSum_zeros. lra.
  - intros j _. rewrite colSum_zeros. lra.
  - intros i j _ _. rewrite cell_zeros. reflexivity.
  - done.
  - pose proof (countPositive_le supplies).
    pose proof (countPositive_le demands). lia.
  - lia.
Qed.

(** The method returns, with a non-negative plan whose rows and columns
    sum to the supplies and the demands, after fewer allocations than
    there are rows and columns. *)
Lemma allocate_feasible :
  exists st,
    allocate (S (length supplies + length demands)) pm
      (length supplies) (length demands)
      (allocationStart supplies demands) = Some st /\
    shape (a_plan st) (length supplies) (length demands) /\
    (forall i j, 0 <= cell (a_plan st) i j)%Q /\
    (forall i, i < length supplies ->
       (rowSum (a_plan st) i == at_ supplies i)%Q) /\
    (forall j, j < length demands ->
       (colSum (a_plan st) j == at_ demands j)%Q) /\
    (0 < length supplies + length demands ->
     allocationStep st + 1 <= length supplies + length demands).
Proof.
  destruct (allocate_total (S (length supplies + length demands)) pm
              (length supplies) (length demands)
              (allocationStart supplies demands)) as [st Hst].
  { simpl. pose proof (countPositive_le supplies).
    pose proof (countPositive_le demands). lia. }
  exists st. split; [done|].
  destruct (allocate_allocating _ _ _ allocating_start Hst) as [Hinv Hcond].
  pose proof (allocating_exhausted st) as Hex.
  destruct Hinv. split_and!; [done..| | |done].
  - intros i Hi. destruct (Hex i 0) as [H0 _]; [by constructor|done|].
    specialize (al_rows0 i Hi). lra.
  - intros j Hj. destruct (Hex 0 j) as [_ H0]; [by constructor|done|].
    specialize (al_cols0 j Hj). lra.
Qed.
End MaximumElement.

(** ** The improver on a saturated row and column *)

Lemma reallocateAlongRow_none plan i j unmetDemand ks :
  (unmetDemand <= 0)%Q -> reallocateAlongRow plan i j unmetDemand ks = None.
Proof.
  intros Hu. induction ks as [|k ks IH]; simpl; [done|].
  destruct (negb (k =? j)%nat && Qgtb (cell plan i k) 0); [|done].
  assert (Qgtb (Qmin (Qmin (cell plan i k) unmetDemand) 1) 0 = false) as ->;
    [|done].
  apply Qgtb_false.
  pose proof (Q.le_min_l (Qmin (cell plan i k) unmetDemand) 1).
  pose proof (Q.le_min_r (cell plan i k) unmetDemand). lra.
Qed.

Lemma reallocateAlongColumn_none plan i j availableSupply ks :
  (availableSupply <= 0)%Q ->
  reallocateAlongColumn plan i j availableSupply ks = None.
Proof.
  intros Hu. induction ks as [|k ks IH]; simpl; [done|].
  destruct (negb (k =? i)%nat && Qgtb (cell plan k j) 0); [|done].
  assert (Qgtb (Qmin (Qmin (cell plan k j) availableSupply) 1) 0 = false)
    as ->; [|done].
  apply Qgtb_false.
  pose proof (Q.le_min_l (Qmin (cell plan k j) availableSupply) 1).
  pose proof (Q.le_min_r (cell plan k j) availableSupply). lra.
Qed.

Lemma improveSolution_saturated plan imp ss cs :
  (rowSum plan (supplierIndex imp) == supplyAt ss (supplierIndex imp))%Q ->
  (colSum plan (customerIndex imp) == demandAt cs (customerIndex imp))%Q ->
  improveSolution plan imp ss cs = plan.
Proof.
  intros Hrow Hcol. unfold improveSolution.
  set (availableSupply := (supplyAt ss _ - rowSum plan _)%Q).
  set (unmetDemand := (demandAt cs _ - colSum plan _)%Q).
  assert (availableSupply == 0)%Q as Ha by (unfold availableSupply; lra).
  assert (unmetDemand == 0)%Q as Hu by (unfold unmetDemand; lra).
  assert (Qgtb (Qmin availableSupply unmetDemand) 0 = false) as ->.
  { apply Qgtb_false. pose proof (Q.le_min_l availableSupply unmetDemand).
    lra. }
  rewrite reallocateAlongRow_none by lra.
  by rewrite reallocateAlongColumn_none by lra.
Qed.

(** A plan that meets every supply and demand exactly is returned as it
    is by the improver, whatever the improvement. *)
Lemma improveSolution_feasible plan ss cs :
  shape plan (length ss) (length cs) ->
  (forall i, i < length ss -> (rowSum plan i == supplyAt ss i)%Q) ->
  (forall j, j < length cs -> (colSum plan j == demandAt cs j)%Q) ->
  forall imp, improveSolution plan imp ss cs = plan.
Proof.
  intros Hshape Hrows Hcols imp. apply improveSolution_saturated.
  - destruct (decide (supplierIndex imp < length ss)) as [Hi|Hi];
      [by apply Hrows|].
    unfold rowSum, supplyAt.
    rewrite !lookup_ge_None_2 by (destruct Hshape; lia). reflexivity.
  - destruct (decide (customerIndex imp < length cs)) as [Hj|Hj];
      [by apply Hcols|].
    unfold demandAt. rewrite lookup_ge_None_2 by lia. simpl.
    rewrite colSum_column. apply sumQ_all_zero, Forall_forall.
    intros x Hx. apply list_elem_of_lookup in Hx as [i Hi].
    assert (x = at_ (column plan (customerIndex imp)) i) as ->
      by (unfold at_; by rewrite Hi).
    rewrite at_column.
    destruct (Qeq_dec (cell plan i (customerIndex imp)) 0) as [|Hnz];
      [done|].
    apply (cell_nonzero_lt _ _ _ _ _ Hshape) in Hnz. lia.
Qed.

Lemma close_refl (x : Q) : negb (Qgtb (Qabs (x - x)) 0.001%Q) = true.
Proof.
  apply negb_true_iff, Qgtb_false, Qabs_Qle_condition.
  assert (- 0.001 <= 0)%Q by (vm_compute; discriminate).
  assert (0 <= 0.001)%Q by (vm_compute; discriminate).
  split; lra.
Qed.

Lemma arraysEqual_refl (a : Matrix) : arraysEqual a a = true.
Proof.
  unfold arraysEqual. rewrite Nat.eqb_refl. cbn [negb].
  induction a as [|row a IH]; [done|].
  change (zip (row :: a) (row :: a)) with ((row, row) :: zip a a).
  cbn [forallb]. rewrite IH, Nat.eqb_refl, andb_true_r. cbn [andb].
  clear. induction row as [|x row IH]; [done|].
  change (zip (x :: row) (x :: row)) with ((x, x) :: zip row row).
  cbn [forallb]. rewrite IH, andb_true_r. apply close_refl.
Qed.

(** ** The improvement loop *)

Lemma improvementLoop_unfold fuel pm ss cs st :
  improvementLoop (S fuel) pm ss cs st =
  if negb (l_isOptimal st) && Nat.ltb (l_iterations st) maxIterations then
    let optimalityCheck := checkOptimality pm (l_plan st) ss cs in
    let isOptimal := oc_isOptimal optimalityCheck in
    match negb isOptimal, oc_improvements optimalityCheck with
    | true, bestImprovement :: _ =>
        let newPlan := improveSolution (l_plan st) bestImprovement ss cs in
        let planChanged := negb (arraysEqual (l_plan st) newPlan) in
        if negb planChanged then
          Some (mkLoop (l_plan st) isOptimal (l_iterations st), PlanUnchanged)
        else
          improvementLoop fuel pm ss cs
            (mkLoop newPlan isOptimal (S (l_iterations st)))
    | true, [] =>
        Some (mkLoop (l_plan st) isOptimal (l_iterations st), NoImprovements)
    | false, _ =>
        improvementLoop fuel pm ss cs
          (mkLoop (l_plan st) isOptimal (S (l_iterations st)))
    end
  else Some (st, ConditionFalse).
Proof. reflexivity. Qed.

(** More fuel does not change how the loop is left. *)
Lemma improvementLoop_fuel_mono fuel fuel' pm ss cs st r :
  improvementLoop fuel pm ss cs st = Some r -> fuel <= fuel' ->
  improvementLoop fuel' pm ss cs st = Some r.
Proof.
  revert fuel' st. induction fuel as [|fuel IH]; intros fuel' st Hrun Hle.
  - cbn [improvementLoop] in Hrun.
    destruct (negb (l_isOptimal st)
              && (l_iterations st <? maxIterations)%nat) eqn:Hcond; [done|].
    destruct fuel' as [|fuel']; [by cbn [improvementLoop]; rewrite Hcond|].
    by rewrite improvementLoop_unfold, Hcond.
  - destruct fuel' as [|fuel']; [lia|].
    rewrite improvementLoop_unfold in *.
    destruct (negb (l_isOptimal st)
              && (l_iterations st <? maxIterations)%nat); [|done].
    cbv zeta in *.
    destruct (negb (oc_isOptimal (checkOptimality pm (l_plan st) ss cs)));
      [|apply IH; [done|lia]].
    destruct (oc_improvements (checkOptimality pm (l_plan st) ss cs))
      as [|best rest]; [done|].
    destruct (negb (negb (arraysEqual (l_plan st)
                (improveSolution (l_plan st) best ss cs)))); [done|].
    apply IH; [done|lia].
Qed.

(** The test reports an optimum exactly when it lists no improvement. *)
Lemma checkOptimality_isOptimal pm plan ss cs :
  oc_isOptimal (checkOptimality pm plan ss cs) = true <->
  oc_improvements (checkOptimality pm plan ss cs) = [].
Proof.
  unfold checkOptimality. simpl. rewrite Nat.eqb_eq. apply length_zero_iff_nil.
Qed.

(** From any state the loop is left within the fuel [maxIterations], with
    at most [maxIterations] iterations counted. *)
Lemma improvementLoop_total fuel pm ss cs st :
  maxIterations <= fuel + l_iterations st ->
  l_iterations st <= maxIterations ->
  exists st' e,
    improvementLoop fuel pm ss cs st = Some (st', e) /\
    l_iterations st <= l_iterations st' <= maxIterations /\
    match e with
    | ConditionFalse =>
        l_isOptimal st' = true
        \/ (l_isOptimal st' = false /\ l_iterations st' = maxIterations)
    | PlanUnchanged =>
        l_isOptimal st' = false /\
        exists best rest,
          oc_improvements (checkOptimality pm (l_plan st') ss cs)
            = best :: rest /\
          arraysEqual (l_plan st')
            (improveSolution (l_plan st') best ss cs) = true
    | NoImprovements =>
        l_isOptimal st' = false /\
        oc_improvements (checkOptimality pm (l_plan st') ss cs) = []
    end.
Proof.
  revert st. induction fuel as [|fuel IH]; intros st Hfuel Hle.
  - exists st, ConditionFalse. cbn [improvementLoop].
    assert (l_iterations st = maxIterations) as Heq by (cbn in Hfuel; lia).
    rewrite Heq, Nat.ltb_irrefl, andb_false_r. split_and!; [done|lia|lia|].
    destruct (l_isOptimal st); [by left|by right].
  - rewrite improvementLoop_unfold.
    destruct (negb (l_isOptimal st)
              && (l_iterations st <? maxIterations)%nat) eqn:Hcond.
    + apply andb_true_iff in Hcond as [_ Hlt]. apply Nat.ltb_lt in Hlt.
      cbv zeta.
      destruct (oc_isOptimal (checkOptimality pm (l_plan st) ss cs)) eqn:Hopt;
        cbn [negb].
      * destruct (IH (mkLoop (l_plan st) true (S (l_iterations st))))
          as (st' & e & Hrun & Hit & He);
          cbn [l_plan l_isOptimal l_iterations] in *; [lia..|].
        exists st', e. split_and!; [done|lia|lia|done].
      * destruct (oc_improvements (checkOptimality pm (l_plan st) ss cs))
          as [|best rest] eqn:Himp.
        { exists (mkLoop (l_plan st) false (l_iterations st)), NoImprovements.
          cbn [l_plan l_isOptimal l_iterations].
          split_and!; [done|lia|lia|done|done]. }
        destruct (arraysEqual (l_plan st)
                    (improveSolution (l_plan st) best ss cs)) eqn:Heq;
          cbn [negb].
        { exists (mkLoop (l_plan st) false (l_iterations st)), PlanUnchanged.
          cbn [l_plan l_isOptimal l_iterations].
          split_and!; [done|lia|lia|done|]. by exists best, rest. }
        destruct (IH (mkLoop (improveSolution (l_plan st) best ss cs) false
                        (S (l_iterations st))))
          as (st' & e & Hrun & Hit & He);
          cbn [l_plan l_isOptimal l_iterations] in *; [lia..|].
        exists st', e. split_and!; [done|lia|lia|done].
    + exists st, ConditionFalse. split_and!; [done|lia|lia|].
      apply andb_false_iff in Hcond as [Hc|Hc].
      * left. by apply negb_false_iff.
      * apply Nat.ltb_ge in Hc. destruct (l_isOptimal st); [by left|].
        right. split; [done|lia].
Qed.

(** Step 6 from a plan the improver leaves alone: either the plan passes
    the initial test, or the first pass of the loop finds it unchanged. *)
Lemma optimize_fixed pm ss cs plan :
  (forall imp, improveSolution plan imp ss cs = plan) ->
  optimize pm ss cs plan = Some (mkLoop plan true 0, InitiallyOptimal) \/
  optimize pm ss cs plan = Some (mkLoop plan false 0, LoopLeft PlanUnchanged).
Proof.
  intros Hfix. unfold optimize.
  destruct (oc_isOptimal (checkOptimality pm plan ss cs)) eqn:Hopt;
    [by left|right].
  change maxIterations with (S 19) at 1. rewrite improvementLoop_unfold.
  cbn [l_plan l_isOptimal l_iterations].
  change (negb false && (0 <? maxIterations)%nat) with true.
  cbv iota zeta. rewrite Hopt. cbn [negb].
  destruct (oc_improvements (checkOptimality pm plan ss cs))
    as [|best rest] eqn:Himp.
  { apply checkOptimality_isOptimal in Himp. congruence. }
  rewrite Hfix, arraysEqual_refl. done.
Qed.

(** ** Validation *)

Lemma supplierErrors_cases s :
  (supplierErrors s = [] /\ validSupplier s)
  \/ (supplierErrors s <> [] /\ invalidSupplier s).
Proof.
  unfold supplierErrors, validSupplier, invalidSupplier.
  destruct (Qle_bool (supply s) 0) eqn:E1.
  - right. apply Qle_bool_iff in E1. split; [done|by left].
  - assert (0 < supply s)%Q.
    { apply Qnot_le_lt. intros H. apply Qle_bool_iff in H. congruence. }
    destruct (Qltb (purchaseCost s) 0) eqn:E2.
    + right. apply Qltb_true in E2. split; [done|by right].
    + left. apply Qltb_false in E2. done.
Qed.

Lemma customerErrors_cases c :
  (customerErrors c = [] /\ validCustomer c)
  \/ (customerErrors c <> [] /\ invalidCustomer c).
Proof.
  unfold customerErrors, validCustomer, invalidCustomer.
  destruct (Qle_bool (demand c) 0) eqn:E1.
  - right. apply Qle_bool_iff in E1. split; [done|by left].
  - assert (0 < demand c)%Q.
    { apply Qnot_le_lt. intros H. apply Qle_bool_iff in H. congruence. }
    destruct (Qltb (sellingPrice c) 0) eqn:E2.
    + right. apply Qltb_true in E2. split; [done|by right].
    + left. apply Qltb_false in E2. done.
Qed.

Lemma valid_not_invalid_supplier s : validSupplier s -> ~ invalidSupplier s.
Proof. intros [H1 H2] [H|H]; lra. Qed.

Lemma valid_not_invalid_customer c : validCustomer c -> ~ invalidCustomer c.
Proof. intros [H1 H2] [H|H]; lra. Qed.

(** The errors collected over a list: none when every entry is valid, some
    when an entry is invalid. *)
Lemma collected_errors {A} (f : A -> list string) (valid invalid : A -> Prop)
    (l : list A) :
  (forall x, (f x = [] /\ valid x) \/ (f x <> [] /\ invalid x)) ->
  ((x ← l; f x) = [] /\ Forall valid l)
  \/ ((x ← l; f x) <> [] /\ Exists invalid l).
Proof.
  intros Hf. induction l as [|x l IH]; [by left|].
  change (x0 ← x :: l; f x0) with (f x ++ (x0 ← l; f x0)).
  destruct (Hf x) as [[Hx Hv]|[Hx Hi]].
  - rewrite Hx. simpl. destruct IH as [[-> Hl]|[Hne He]].
    + left. split; [done|by constructor].
    + right. split; [done|by apply Exists_cons_tl].
  - right. split; [|by apply Exists_cons_hd].
    destruct (f x); [done|]. simpl. discriminate.
Qed.

Lemma validateProblem_cases p :
  (isValid (validateProblem p) = true /\ errors (validateProblem p) = []
   /\ wellFormed p)
  \/ (isValid (validateProblem p) = false /\ errors (validateProblem p) <> []
      /\ structurallyInvalid p).
Proof.
  unfold validateProblem, wellFormed, structurallyInvalid.
  cbn [isValid errors].
  destruct (suppliers p) as [|s ss] eqn:Hss.
  { right. split_and!; [done|done|by left]. }
  destruct (customers p) as [|c cs] eqn:Hcs.
  { right. split_and!.
    - apply Nat.eqb_neq. rewrite length_app. simpl. lia.
    - intros H. apply app_eq_nil in H as [_ H]. done.
    - right. by left. }
  destruct (collected_errors supplierErrors _ _ (s :: ss) supplierErrors_cases)
    as [[-> Hs]|[Hes His]];
  destruct (collected_errors customerErrors _ _ (c :: cs) customerErrors_cases)
    as [[-> Hc]|[Hec Hic]].
  - left. done.
  - right. split_and!.
    + apply Nat.eqb_neq. intros H. by apply length_zero_iff_nil in H.
    + done.
    + by do 3 right.
  - right. split_and!.
    + apply Nat.eqb_neq. intros H.
      apply length_zero_iff_nil, app_eq_nil in H as [H _]. done.
    + intros H. apply app_eq_nil in H as [H _]. done.
    + right; right; by left.
  - right. split_and!.
    + apply Nat.eqb_neq. intros H.
      apply length_zero_iff_nil, app_eq_nil in H as [H _]. done.
    + intros H. apply app_eq_nil in H as [H _]. done.
    + right; right; by left.
Qed.

Lemma wellFormed_not_invalid p : wellFormed p -> ~ structurallyInvalid p.
Proof.
  intros (Hs & Hc & Hvs & Hvc) [H|[H|[H|H]]]; [done..| |].
  - apply Exists_exists in H as (s & Hin & Hi).
    rewrite Forall_forall in Hvs.
    by apply (valid_not_invalid_supplier s (Hvs s Hin)).
  - apply Exists_exists in H as (c & Hin & Hi).
    rewrite Forall_forall in Hvc.
    by apply (valid_not_invalid_customer c (Hvc c Hin)).
Qed.

Lemma isValid_wellFormed p :
  isValid (validateProblem p) = true <-> wellFormed p.
Proof.
  destruct (validateProblem_cases p) as [(Hv & _ & Hw)|(Hv & _ & Hi)].
  - done.
  - split; [congruence|]. intros Hw. by apply wellFormed_not_invalid in Hw.
Qed.

Lemma isValid_structurallyInvalid p :
  isValid (validateProblem p) = false <-> structurallyInvalid p.
Proof.
  destruct (validateProblem_cases p) as [(Hv & _ & Hw)|(Hv & _ & Hi)].
  - split; [congruence|]. intros Hi. by apply wellFormed_not_invalid in Hw.
  - done.
Qed.

(** ** Balancing *)

Lemma totalSupplyOf_sumQ ss : totalSupplyOf ss = sumQ (supply <$> ss).
Proof.
  unfold totalSupplyOf, sumQ. generalize 0%Q.
  induction ss as [|s ss IH]; intros a; simpl; [done|]. apply IH.
Qed.

Lemma totalDemandOf_sumQ cs : totalDemandOf cs = sumQ (demand <$> cs).
Proof.
  unfold totalDemandOf, sumQ. generalize 0%Q.
  induction cs as [|c cs IH]; intros a; simpl; [done|]. apply IH.
Qed.

Lemma totalSupplyOf_snoc ss s :
  (totalSupplyOf (ss ++ [s]) == totalSupplyOf ss + supply s)%Q.
Proof.
  rewrite !totalSupplyOf_sumQ, fmap_app, sumQ_app. simpl.
  rewrite sumQ_cons, sumQ_nil. lra.
Qed.

Lemma totalDemandOf_snoc cs c :
  (totalDemandOf (cs ++ [c]) == totalDemandOf cs + demand c)%Q.
Proof.
  rewrite !totalDemandOf_sumQ, fmap_app, sumQ_app. simpl.
  rewrite sumQ_cons, sumQ_nil. lra.
Qed.

(** The three cases of the balancer. *)
Lemma balanceProblem_cases ss cs :
  let bp := balanceProblem ss cs in
  ((totalDemandOf cs < totalSupplyOf ss)%Q /\
   exists fc,
     bp = mkBalanced ss (cs ++ [fc]) false None (Some fc)
            (totalSupplyOf ss) (totalDemandOf cs) /\
     fc = mkCustomer "fictitious-customer" "Fictitious Customer"
            (totalSupplyOf ss - totalDemandOf cs)%Q 0%Q)
  \/
  ((totalSupplyOf ss < totalDemandOf cs)%Q /\
   exists fs,
     bp = mkBalanced (ss ++ [fs]) cs false (Some fs) None
            (totalSupplyOf ss) (totalDemandOf cs) /\
     fs = mkSupplier "fictitious-supplier" "Fictitious Supplier"
            (totalDemandOf cs - totalSupplyOf ss)%Q 0%Q)
  \/
  ((totalSupplyOf ss == totalDemandOf cs)%Q /\
   bp = mkBalanced ss cs true None None
          (totalSupplyOf ss) (totalDemandOf cs)).
Proof.
  intros bp. subst bp. unfold balanceProblem.
  destruct (Qgtb (totalSupplyOf ss) (totalDemandOf cs)) eqn:E1.
  - left. apply Qgtb_true in E1. split; [done|]. eexists. split; [|done].
    assert (Qeq_bool (totalSupplyOf ss) (totalDemandOf cs) = false) as ->;
      [|done].
    apply not_true_iff_false. intros H. apply Qeq_bool_iff in H. lra.
  - apply Qgtb_false in E1.
    destruct (Qgtb (totalDemandOf cs) (totalSupplyOf ss)) eqn:E2.
    + right; left. apply Qgtb_true in E2. split; [done|].
      eexists. split; [|done].
      assert (Qeq_bool (totalSupplyOf ss) (totalDemandOf cs) = false) as ->;
        [|done].
      apply not_true_iff_false. intros H. apply Qeq_bool_iff in H. lra.
    + right; right. apply Qgtb_false in E2.
      assert (totalSupplyOf ss == totalDemandOf cs)%Q as Heq by lra.
      split; [done|]. apply Qeq_bool_iff in Heq. by rewrite Heq.
Qed.

Lemma balanceProblem_balanced ss cs :
  (totalSupplyOf (b_suppliers (balanceProblem ss cs))
   == totalDemandOf (b_customers (balanceProblem ss cs)))%Q.
Proof.
  destruct (balanceProblem_cases ss cs)
    as [(H & fc & -> & ->)|[(H & fs & -> & ->)|(H & ->)]]; simpl.
  - rewrite totalDemandOf_snoc. simpl. lra.
  - rewrite totalSupplyOf_snoc. simpl. lra.
  - done.
Qed.

Lemma balanceProblem_positive ss cs :
  Forall (fun s => 0 < supply s)%Q ss ->
  Forall (fun c => 0 < demand c)%Q cs ->
  Forall (fun s => 0 < supply s)%Q (b_suppliers (balanceProblem ss cs)) /\
  Forall (fun c => 0 < demand c)%Q (b_customers (balanceProblem ss cs)).
Proof.
  intros Hs Hc.
  destruct (balanceProblem_cases ss cs)
    as [(H & fc & -> & ->)|[(H & fs & -> & ->)|(H & ->)]]; simpl.
  - split; [done|]. apply Forall_app. split; [done|].
    constructor; [simpl; lra|constructor].
  - split; [|done]. apply Forall_app. split; [done|].
    constructor; [simpl; lra|constructor].
  - done.
Qed.

(** ** The Maximum Element Method on suppliers and customers *)

Lemma at_supply ss i : at_ (supply <$> ss) i = supplyAt ss i.
Proof. unfold at_, supplyAt. by rewrite list_lookup_fmap. Qed.

Lemma at_demand cs j : at_ (demand <$> cs) j = demandAt cs j.
Proof. unfold at_, demandAt. by rewrite list_lookup_fmap. Qed.

Lemma maximumElementMethod_feasible pm ss cs :
  Forall (fun s => 0 < supply s)%Q ss ->
  Forall (fun c => 0 < demand c)%Q cs ->
  (totalSupplyOf ss == totalDemandOf cs)%Q ->
  exists st,
    maximumElementMethod pm ss cs = Some st /\
    shape (a_plan st) (length ss) (length cs) /\
    (forall i j, 0 <= cell (a_plan st) i j)%Q /\
    (forall i, i < length ss -> (rowSum (a_plan st) i == supplyAt ss i)%Q) /\
    (forall j, j < length cs -> (colSum (a_plan st) j == demandAt cs j)%Q) /\
    (0 < length ss + length cs ->
     allocationStep st + 1 <= length ss + length cs).
Proof.
  intros Hs Hc Hbal.
  destruct (allocate_feasible pm (supply <$> ss) (demand <$> cs))
    as (st & Hrun & Hshape & Hnn & Hrows & Hcols & Hsteps).
  - apply Forall_fmap. eapply Forall_impl; [exact Hs|]. simpl. intros; lra.
  - apply Forall_fmap. eapply Forall_impl; [exact Hc|]. simpl. intros; lra.
  - by rewrite <- totalSupplyOf_sumQ, <- totalDemandOf_sumQ.
  - unfold allocationStart in Hrun. rewrite !length_fmap in *.
    exists st. split_and!; [done..| | |done].
    + intros i Hi. rewrite <- at_supply. by apply Hrows.
    + intros j Hj. rewrite <- at_demand. by apply Hcols.
Qed.

(** ** The steps of solveMiddlemanProblem, by name *)

Lemma solve_valid t0 t1 p :
  isValid (validateProblem p) = true ->
  solveMiddlemanProblem t0 t1 p =
  match initialPlanOf p with
  | None => OutOfFuel
  | Some initialPlan =>
      match
        optimize (profitOf p) (suppliersOf p) (customersOf p) initialPlan
      with
      | None => OutOfFuel
      | Some (st, _) => Returned (solutionOf t0 t1 p st)
      end
  end.
Proof.
  intros Hv. unfold solveMiddlemanProblem. rewrite Hv. cbn [negb].
  apply isValid_wellFormed in Hv as (Hs & Hc & _).
  destruct (suppliers p) as [|s ss] eqn:Hss; [done|].
  destruct (customers p) as [|c cs] eqn:Hcs; [done|].
  cbn [length Nat.eqb orb].
  unfold solutionOf, initialPlanOf, profitOf, costsOf, suppliersOf,
    customersOf, balancedOf.
  rewrite Hss, Hcs.
  destruct (findOptimalTransportation _ _ _) as [plan0|]; [|reflexivity].
  destruct (optimize _ _ _ plan0) as [[st e]|]; reflexivity.
Qed.

Lemma solve_invalid t0 t1 p :
  isValid (validateProblem p) = false ->
  solveMiddlemanProblem t0 t1 p =
  Thrown ("Invalid problem: " ++ join ", " (errors (validateProblem p)))%string.
Proof. intros Hv. unfold solveMiddlemanProblem. by rewrite Hv. Qed.

(** The balanced lists of a well-formed problem: non-empty, positive,
    with equal totals. *)
Lemma wellFormed_balanced p :
  wellFormed p ->
  0 < length (suppliersOf p) /\ 0 < length (customersOf p) /\
  Forall (fun s => 0 < supply s)%Q (suppliersOf p) /\
  Forall (fun c => 0 < demand c)%Q (customersOf p) /\
  (totalSupplyOf (suppliersOf p) == totalDemandOf (customersOf p))%Q.
Proof.
  intros (Hs & Hc & Hvs & Hvc). unfold suppliersOf, customersOf, balancedOf.
  assert (Forall (fun s => 0 < supply s)%Q (suppliers p)) as Hps
    by (eapply Forall_impl; [exact Hvs|]; by intros s []).
  assert (Forall (fun c => 0 < demand c)%Q (customers p)) as Hpc
    by (eapply Forall_impl; [exact Hvc|]; by intros c []).
  destruct (balanceProblem_positive _ _ Hps Hpc) as [Hbs Hbc].
  split_and!; [| |done|done|apply balanceProblem_balanced].
  - destruct (balanceProblem_cases (suppliers p) (customers p))
      as [(H & fc & -> & _)|[(H & fs & -> & _)|(H & ->)]]; simpl;
      rewrite ?length_app; destruct (suppliers p); simpl; try done; lia.
  - destruct (balanceProblem_cases (suppliers p) (customers p))
      as [(H & fc & -> & _)|[(H & fs & -> & _)|(H & ->)]]; simpl;
      rewrite ?length_app; destruct (customers p); simpl; try done; lia.
Qed.

(** The run of a well-formed problem: the method returns an initial plan
    that meets every supply and demand exactly, step 6 leaves it as it is
    with no iteration counted, and the solution is assembled from it. *)
Lemma solve_run t0 t1 p :
  wellFormed p ->
  exists st0 isOpt term,
    maximumElementMethod (profitOf p) (suppliersOf p) (customersOf p)
      = Some st0 /\
    initialPlanOf p = Some (a_plan st0) /\
    shape (a_plan st0) (length (suppliersOf p)) (length (customersOf p)) /\
    (forall i j, 0 <= cell (a_plan st0) i j)%Q /\
    (forall i, i < length (suppliersOf p) ->
       (rowSum (a_plan st0) i == supplyAt (suppliersOf p) i)%Q) /\
    (forall j, j < length (customersOf p) ->
       (colSum (a_plan st0) j == demandAt (customersOf p) j)%Q) /\
    allocationStep st0 + 1
      <= length (suppliersOf p) + length (customersOf p) /\
    optimize (profitOf p) (suppliersOf p) (customersOf p) (a_plan st0)
      = Some (mkLoop (a_plan st0) isOpt 0, term) /\
    ((isOpt = true /\ term = InitiallyOptimal)
     \/ (isOpt = false /\ term = LoopLeft PlanUnchanged)) /\
    solveMiddlemanProblem t0 t1 p
      = Returned (solutionOf t0 t1 p (mkLoop (a_plan st0) isOpt 0)).
Proof.
  intros Hw.
  destruct (wellFormed_balanced p Hw) as (Hm & Hn & Hps & Hpc & Hbal).
  destruct (maximumElementMethod_feasible (profitOf p) _ _ Hps Hpc Hbal)
    as (st0 & Hrun & Hshape & Hnn & Hrows & Hcols & Hsteps).
  assert (initialPlanOf p = Some (a_plan st0)) as Hinit.
  { unfold initialPlanOf, findOptimalTransportation. by rewrite Hrun. }
  pose proof (improveSolution_feasible _ _ _ Hshape Hrows Hcols) as Hfix.
  pose proof (solve_valid t0 t1 p (proj2 (isValid_wellFormed p) Hw)) as Hsolve.
  rewrite Hinit in Hsolve.
  destruct (optimize_fixed (profitOf p) _ _ _ Hfix) as [Hopt|Hopt];
    rewrite Hopt in Hsolve.
  - exists st0, true, InitiallyOptimal.
    split_and!; [done..|lia|done|by left|done].
  - exists st0, false, (LoopLeft PlanUnchanged).
    split_and!; [done..|lia|done|by right|done].
Qed.

(** ** Row-major order *)

Lemma seq_sorted (s n : nat) : StronglySorted lt (seq s n).
Proof.
  revert s. induction n as [|n IH]; intros s; simpl; constructor; [done|].
  apply Forall_forall. intros k Hk. apply elem_of_seq in Hk. lia.
Qed.

Lemma cells_from_sorted (s m n : nat) :
  StronglySorted before (i ← seq s m; (fun j => (i, j)) <$> seq 0 n).
Proof.
  revert s. induction m as [|m IH]; intros s; [constructor|].
  change (seq s (S m)) with (s :: seq (S s) m).
  change (i ← s :: seq (S s) m; (fun j => (i, j)) <$> seq 0 n)
    with (((fun j => (s, j)) <$> seq 0 n)
          ++ (i ← seq (S s) m; (fun j => (i, j)) <$> seq 0 n)).
  apply StronglySorted_app_2.
  - intros c c' Hc Hc'.
    apply list_elem_of_fmap in Hc as (j & -> & _).
    apply list_elem_of_bind in Hc' as (i' & Hc' & Hi').
    apply list_elem_of_fmap in Hc' as (j' & -> & _).
    apply elem_of_seq in Hi'. left. simpl. lia.
  - apply (StronglySorted_fmap _ lt); [|apply seq_sorted].
    intros j j' Hlt. right. simpl. done.
  - apply IH.
Qed.

Lemma cells_sorted (m n : nat) : StronglySorted before (cells m n).
Proof. apply cells_from_sorted. Qed.

(** The scan returns the first cell, in row-major order, among the
    eligible cells of largest profit. *)
Lemma findMaxCell_first pm m n rs rd z i j :
  findMaxCell pm m n rs rd = Some (z, (i, j)) ->
  forall i' j', i' < m -> j' < n ->
    (0 < at_ rs i')%Q -> (0 < at_ rd j')%Q ->
    (cell pm i' j' <= z)%Q /\
    ((cell pm i' j' == z)%Q -> i < i' \/ (i = i' /\ j <= j')).
Proof.
  intros H i' j' Hi' Hj' Hs Hd.
  pose proof (scan_scanned pm rs rd (cells m n)) as Hscan.
  unfold findMaxCell in H. rewrite H in Hscan.
  destruct Hscan as (Hz & He & l1 & l2 & Hl & Hbefore & Hafter).
  assert (eligible rs rd (i', j') = true) as He'.
  { unfold eligible. simpl. apply Qgtb_true in Hs, Hd. by rewrite Hs, Hd. }
  assert ((i', j') ∈ cells m n) as Hin by by apply elem_of_cells.
  pose proof (cells_sorted m n) as Hsorted. rewrite Hl in Hin, Hsorted.
  apply elem_of_app in Hin as [Hin|Hin].
  { specialize (Hbefore _ Hin He'). simpl in Hbefore. split; [lra|].
    intros Heq. lra. }
  apply elem_of_cons in Hin as [Heq|Hin].
  { inversion Heq; subst i' j'. simpl in Hz. subst z.
    split; [lra|]. intros _. right. split; [done|lia]. }
  specialize (Hafter _ Hin He'). simpl in Hafter. split; [done|].
  intros _. apply StronglySorted_app_1_r in Hsorted.
  apply StronglySorted_inv in Hsorted as [_ Hall].
  rewrite Forall_forall in Hall. specialize (Hall _ Hin).
  destruct Hall as [Hlt|[Heq Hlt]]; simpl in *; [by left|right; lia].
Qed.

Lemma findMaxCell_found pm m n rs rd i' j' :
  i' < m -> j' < n -> (0 < at_ rs i')%Q -> (0 < at_ rd j')%Q ->
  exists z i j, findMaxCell pm m n rs rd = Some (z, (i, j)).
Proof.
  intros Hi Hj Hs Hd.
  destruct (findMaxCell pm m n rs rd) as [[z [i j]]|] eqn:H; [by eauto|].
  exfalso. by eapply (findMaxCell_None _ _ _ _ _ i' j' H).
Qed.

(** ** Profit matrix *)

Lemma shape_calculateProfitMatrix ss cs costs :
  shape (calculateProfitMatrix ss cs costs) (length ss) (length cs).
Proof. apply shape_tabulate. Qed.

Lemma cell_calculateProfitMatrix ss cs costs i j s c :
  ss !! i = Some s -> cs !! j = Some c ->
  cell (calculateProfitMatrix ss cs costs) i j
  = (sellingPrice c - purchaseCost s - cell costs i j)%Q.
Proof.
  intros Hs Hc. unfold calculateProfitMatrix.
  rewrite cell_tabulate by (by eapply lookup_lt_Some).
  by rewrite Hs, Hc.
Qed.

(** ** Results and routes *)

Lemma sumOver_nil f : sumOver f [] = 0%Q.
Proof. reflexivity. Qed.

Lemma sumOver_cons f c l : (sumOver f (c :: l) == f c + sumOver f l)%Q.
Proof. unfold sumOver. simpl. apply sumQ_cons. Qed.

Lemma sumOver_ext f g l :
  (forall c, c ∈ l -> (f c == g c)%Q) -> (sumOver f l == sumOver g l)%Q.
Proof.
  induction l as [|c l IH]; intros H; [reflexivity|].
  rewrite !sumOver_cons, IH.
  - rewrite (H c) by (apply elem_of_cons; by left). reflexivity.
  - intros c' Hc'. apply H, elem_of_cons. by right.
Qed.

Lemma accumulate_totals plan ss cs vc l t :
  let t' := fold_left (accumulate plan ss cs vc) l t in
  (t_purchaseCost t' ==
     t_purchaseCost t
     + sumOver (fun c => cell plan c.1 c.2 * purchaseCostAt ss c.1)
         (List.filter (realRoute plan ss cs) l))%Q /\
  (t_transportationCost t' ==
     t_transportationCost t
     + sumOver (fun c => cell plan c.1 c.2 * cell vc c.1 c.2)
         (List.filter (realRoute plan ss cs) l))%Q /\
  (t_revenue t' ==
     t_revenue t
     + sumOver (fun c => cell plan c.1 c.2 * sellingPriceAt cs c.2)
         (List.filter (soldRoute plan cs) l))%Q.
Proof.
  revert t. induction l as [|[i j] l IH]; intros t; simpl.
  - rewrite !sumOver_nil. split_and!; lra.
  - destruct (IH (accumulate plan ss cs vc t (i, j))) as (IH1 & IH2 & IH3).
    rewrite IH1, IH2, IH3. clear IH IH1 IH2 IH3.
    unfold accumulate, realRoute, soldRoute, positiveFlow, realCustomer,
      realSupplier, purchaseCostAt, sellingPriceAt. cbn [fst snd].
    destruct (Qgtb (cell plan i j) 0); cbn [andb]; [|split_and!; reflexivity].
    destruct (negb (isFictitiousCustomer (cs !! j))); cbn [andb];
      [|split_and!; reflexivity].
    destruct (negb (isFictitiousSupplier (ss !! i))); cbn [andb];
      cbn [t_purchaseCost t_transportationCost t_revenue];
      rewrite ?sumOver_cons; cbn [fst snd]; split_and!; lra.
Qed.

(** Validating again a matrix of the right shape changes no cell. *)
Lemma revalidated_cell costs m n i j :
  shape costs m n -> i < m -> j < n ->
  cell (validateTransportationCosts (CostsNumbers costs) m n) i j
  = cell costs i j.
Proof.
  intros [Hlen Hrows] Hi Hj. unfold validateTransportationCosts.
  destruct costs as [|row costs]; [simpl in Hlen; lia|].
  apply Forall_cons in Hrows as [Hrow _].
  destruct row as [|x row]; [simpl in Hrow; lia|].
  by rewrite cell_tabulate.
Qed.

Lemma pushRoute_routes plan ss cs vc pm l routes :
  (forall c, c ∈ l -> c.1 < length ss /\ c.2 < length cs) ->
  fold_left (pushRoute plan ss cs vc pm) l routes
  = routes
    ++ (routeOf plan ss cs vc pm <$> List.filter (realRoute plan ss cs) l).
Proof.
  revert routes. induction l as [|[i j] l IH]; intros routes Hl; simpl.
  - by rewrite app_nil_r.
  - rewrite IH by (intros c Hc; apply Hl, elem_of_cons; by right).
    destruct (Hl (i, j)) as [Hi Hj]; [apply elem_of_cons; by left|].
    simpl in Hi, Hj.
    destruct (lookup_lt_is_Some_2 ss i Hi) as [s Hs].
    destruct (lookup_lt_is_Some_2 cs j Hj) as [c Hc].
    unfold pushRoute, realRoute, positiveFlow, realCustomer, realSupplier,
      routeOf, purchaseCostAt, sellingPriceAt. cbn [fst snd].
    rewrite Hs, Hc.
    cbn [isFictitiousCustomer isFictitiousSupplier].
    destruct (Qgtb (cell plan i j) 0); cbn [andb]; [|done].
    destruct (negb (cid c =? "fictitious-customer")%string
              && negb (sid s =? "fictitious-supplier")%string); [|done].
    rewrite fmap_cons. cbn [fst snd]. rewrite Hs, Hc.
    cbn [fmap option_fmap option_map default].
    by rewrite <- app_assoc.
Qed.

Lemma routeOf_ext plan ss cs vc costs pm (l : list (nat * nat)) :
  (forall c, c ∈ l -> cell vc c.1 c.2 = cell costs c.1 c.2) ->
  routeOf plan ss cs vc pm <$> l = routeOf plan ss cs costs pm <$> l.
Proof.
  intros H. apply list_fmap_ext. intros k c Hc. unfold routeOf.
  rewrite H; [done|]. apply list_elem_of_lookup. eauto.
Qed.

Lemma elem_of_filter_cells f m n c :
  c ∈ List.filter f (cells m n) -> f c = true /\ c.1 < m /\ c.2 < n.
Proof.
  intros H. apply list_elem_of_In, filter_In in H as [H Hf].
  apply list_elem_of_In in H. destruct c as [i j].
  apply elem_of_cells in H. done.
Qed.

(** The totals and the routes, for costs of the shape of the problem. *)
Lemma calculateResults_sums plan ss cs costs :
  shape costs (length ss) (length cs) ->
  let r := calculateResults plan ss cs costs in
  let flows := cells (length ss) (length cs) in
  (res_totalPurchaseCost r ==
     sumOver (fun c => cell plan c.1 c.2 * purchaseCostAt ss c.1)
       (List.filter (realRoute plan ss cs) flows))%Q /\
  (res_totalTransportationCost r ==
     sumOver (fun c => cell plan c.1 c.2 * cell costs c.1 c.2)
       (List.filter (realRoute plan ss cs) flows))%Q /\
  (res_totalRevenue r ==
     sumOver (fun c => cell plan c.1 c.2 * sellingPriceAt cs c.2)
       (List.filter (soldRoute plan cs) flows))%Q /\
  res_totalProfit r
  = (res_totalRevenue r - res_totalPurchaseCost r
     - res_totalTransportationCost r)%Q.
Proof.
  intros Hshape r flows. subst r flows. unfold calculateResults.
  cbn [res_totalPurchaseCost res_totalTransportationCost res_totalRevenue
       res_totalProfit].
  destruct (accumulate_totals plan ss cs
              (validateTransportationCosts (CostsNumbers costs)
                 (length ss) (length cs))
              (cells (length ss) (length cs)) (mkTotals 0 0 0))
    as (H1 & H2 & H3).
  cbn [t_purchaseCost t_transportationCost t_revenue] in *.
  split_and!; [lra| |lra|done].
  rewrite H2, Qplus_0_l. apply sumOver_ext. intros c Hc.
  apply elem_of_filter_cells in Hc as (_ & Hi & Hj).
  by rewrite revalidated_cell.
Qed.

Lemma createOptimalRoutes_routes plan ss cs costs pm :
  shape costs (length ss) (length cs) ->
  createOptimalRoutes plan ss cs costs pm
  = routeOf plan ss cs costs pm
      <$> List.filter (realRoute plan ss cs) (cells (length ss) (length cs)).
Proof.
  intros Hshape. unfold createOptimalRoutes. rewrite pushRoute_routes.
  - simpl. apply routeOf_ext. intros c Hc.
    apply elem_of_filter_cells in Hc as (_ & Hi & Hj).
    by apply revalidated_cell.
  - intros [i j] Hc. by apply elem_of_cells in Hc.
Qed.

(** The costs validated by the solver have the shape of the balanced
    problem. *)
Lemma shape_validateTransportationCosts costs m n :
  shape (validateTransportationCosts costs m n) m n.
Proof.
  unfold validateTransportationCosts.
  destruct costs as [|rows|rows|];
    try destruct rows as [|[|x row] rows];
    auto using shape_zeros, shape_tabulate.
Qed.

(** ** The list of improvements *)

Lemma collectImprovement_omap pm plan dual l acc :
  fold_left (collectImprovement pm plan dual) l acc
  = acc ++ omap (opportunityAt pm plan dual) l.
Proof.
  revert acc. induction l as [|[i j] l IH]; intros acc; simpl.
  - by rewrite app_nil_r.
  - rewrite IH. unfold collectImprovement, opportunityAt, opportunityCost.
    cbn [fst snd].
    destruct (Qle_bool (cell plan i j) epsilon); [|done].
    destruct (Qgtb _ epsilon); [|done].
    by rewrite <- app_assoc.
Qed.

Lemma insertImprovement_perm x l : insertImprovement x l ≡ₚ x :: l.
Proof.
  induction l as [|y l IH]; simpl; [done|].
  destruct (Qle_bool (improvement y) (improvement x)); [done|].
  rewrite IH. apply Permutation_swap.
Qed.

Lemma sortImprovements_perm l : sortImprovements l ≡ₚ l.
Proof.
  induction l as [|x l IH]; simpl; [done|].
  by rewrite insertImprovement_perm, IH.
Qed.

Lemma insertImprovement_sorted x l :
  StronglySorted byImprovement l ->
  StronglySorted byImprovement (insertImprovement x l).
Proof.
  induction 1 as [|y l Hl IH Hy]; simpl.
  - repeat constructor.
  - destruct (Qle_bool (improvement y) (improvement x)) eqn:Hle.
    + apply Qle_bool_iff in Hle. constructor; [by constructor|].
      constructor; [done|]. eapply Forall_impl; [exact Hy|].
      unfold byImprovement. intros z Hz. simpl in *. lra.
    + assert (improvement x <= improvement y)%Q as Hxy.
      { apply Qlt_le_weak, Qnot_le_lt. intros H.
        apply Qle_bool_iff in H. congruence. }
      constructor; [done|]. rewrite insertImprovement_perm.
      by constructor.
Qed.

Lemma sortImprovements_sorted l :
  StronglySorted byImprovement (sortImprovements l).
Proof.
  induction l as [|x l IH]; simpl; [constructor|].
  by apply insertImprovement_sorted.
Qed.

Lemma elem_of_opportunities pm plan dual m n imp :
  imp ∈ omap (opportunityAt pm plan dual) (cells m n) <->
  exists i j,
    i < m /\ j < n /\ (cell plan i j <= epsilon)%Q /\
    (epsilon < opportunityCost pm dual i j)%Q /\
    imp = mkImprovement i j (opportunityCost pm dual i j) 0%Q (cell pm i j).
Proof.
  rewrite list_elem_of_omap. split.
  - intros ([i j] & Hc & Hopp). apply elem_of_cells in Hc as [Hi Hj].
    unfold opportunityAt in Hopp. cbn [fst snd] in Hopp.
    destruct (Qle_bool (cell plan i j) epsilon) eqn:Hle; [|done].
    destruct (Qgtb _ epsilon) eqn:Hgt; [|done].
    apply Qle_bool_iff in Hle. apply Qgtb_true in Hgt.
    exists i, j. by inversion Hopp.
  - intros (i & j & Hi & Hj & Hle & Hgt & ->). exists (i, j).
    split; [by apply elem_of_cells|].
    unfold opportunityAt. cbn [fst snd].
    apply Qle_bool_iff in Hle. apply Qgtb_true in Hgt.
    by rewrite Hle, Hgt.
Qed.

Lemma checkOptimality_perm pm plan ss cs :
  oc_improvements (checkOptimality pm plan ss cs)
  ≡ₚ omap
       (opportunityAt pm plan
          (calculateDualVariables pm plan (length ss) (length cs)))
       (cells (length ss) (length cs)).
Proof.
  unfold checkOptimality. cbn [oc_improvements].
  by rewrite sortImprovements_perm, collectImprovement_omap.
Qed.

Lemma checkOptimality_members pm plan ss cs imp :
  let dual := calculateDualVariables pm plan (length ss) (length cs) in
  imp ∈ oc_improvements (checkOptimality pm plan ss cs) <->
  exists i j,
    i < length ss /\ j < length cs /\ (cell plan i j <= epsilon)%Q /\
    (epsilon < opportunityCost pm dual i j)%Q /\
    imp = mkImprovement i j (opportunityCost pm dual i j) 0%Q (cell pm i j).
Proof.
  intros dual. rewrite checkOptimality_perm. apply elem_of_opportunities.
Qed.

Lemma checkOptimality_optimal pm plan ss cs :
  let dual := calculateDualVariables pm plan (length ss) (length cs) in
  oc_isOptimal (checkOptimality pm plan ss cs) = true <->
  forall i j, i < length ss -> j < length cs ->
    (cell plan i j <= epsilon)%Q ->
    (opportunityCost pm dual i j <= epsilon)%Q.
Proof.
  intros dual. rewrite checkOptimality_isOptimal. split.
  - intros Hnil i j Hi Hj Hle. apply Qnot_lt_le. intros Hgt.
    assert (mkImprovement i j (opportunityCost pm dual i j) 0%Q
              (cell pm i j)
            ∈ oc_improvements (checkOptimality pm plan ss cs)) as Hin
      by (apply checkOptimality_members; by exists i, j).
    rewrite Hnil in Hin. by apply elem_of_nil in Hin.
  - intros Hall.
    destruct (oc_improvements (checkOptimality pm plan ss cs))
      as [|imp l] eqn:E; [done|].
    destruct (proj1 (checkOptimality_members pm plan ss cs imp))
      as (i & j & Hi & Hj & Hle & Hgt & _).
    { rewrite E. apply elem_of_cons. by left. }
    specialize (Hall i j Hi Hj Hle). fold dual in Hgt. lra.
Qed.

(** ** The paths of the improver *)

Lemma reallocateAlongRow_Some plan i j u ks p :
  reallocateAlongRow plan i j u ks = Some p ->
  exists k c,
    k ∈ ks /\ k <> j /\ (0 < c)%Q /\ (c <= cell plan i k)%Q /\ (c <= u)%Q /\
    p = set_cell (set_cell plan i k (cell plan i k - c)%Q) i j
          (cell (set_cell plan i k (cell plan i k - c)%Q) i j + c)%Q.
Proof.
  induction ks as [|k ks IH]; simpl; [done|].
  destruct (negb (k =? j)%nat && Qgtb (cell plan i k) 0) eqn:Hk.
  - destruct (Qgtb (Qmin (Qmin (cell plan i k) u) 1) 0) eqn:Hc.
    + intros H. inversion H; subst p. clear H.
      apply andb_true_iff in Hk as [Hkj _].
      apply negb_true_iff, Nat.eqb_neq in Hkj. apply Qgtb_true in Hc.
      exists k, (Qmin (Qmin (cell plan i k) u) 1).
      pose proof (Q.le_min_l (Qmin (cell plan i k) u) 1).
      pose proof (Q.le_min_l (cell plan i k) u).
      pose proof (Q.le_min_r (cell plan i k) u).
      split_and!; [apply elem_of_cons; by left|done|done|lra|lra|done].
    + intros H. destruct (IH H) as (k' & c & Hin & Hrest).
      exists k', c. split; [apply elem_of_cons; by right|done].
  - intros H. destruct (IH H) as (k' & c & Hin & Hrest).
    exists k', c. split; [apply elem_of_cons; by right|done].
Qed.

Lemma reallocateAlongColumn_Some plan i j a ks p :
  reallocateAlongColumn plan i j a ks = Some p ->
  exists k c,
    k ∈ ks /\ k <> i /\ (0 < c)%Q /\ (c <= cell plan k j)%Q /\ (c <= a)%Q /\
    p = set_cell (set_cell plan k j (cell plan k j - c)%Q) i j
          (cell (set_cell plan k j (cell plan k j - c)%Q) i j + c)%Q.
Proof.
  induction ks as [|k ks IH]; simpl; [done|].
  destruct (negb (k =? i)%nat && Qgtb (cell plan k j) 0) eqn:Hk.
  - destruct (Qgtb (Qmin (Qmin (cell plan k j) a) 1) 0) eqn:Hc.
    + intros H. inversion H; subst p. clear H.
      apply andb_true_iff in Hk as [Hki _].
      apply negb_true_iff, Nat.eqb_neq in Hki. apply Qgtb_true in Hc.
      exists k, (Qmin (Qmin (cell plan k j) a) 1).
      pose proof (Q.le_min_l (Qmin (cell plan k j) a) 1).
      pose proof (Q.le_min_l (cell plan k j) a).
      pose proof (Q.le_min_r (cell plan k j) a).
      split_and!; [apply elem_of_cons; by left|done|done|lra|lra|done].
    + intros H. destruct (IH H) as (k' & c & Hin & Hrest).
      exists k', c. split; [apply elem_of_cons; by right|done].
  - intros H. destruct (IH H) as (k' & c & Hin & Hrest).
    exists k', c. split; [apply elem_of_cons; by right|done].
Qed.

(** Setting one cell of a feasible plan, when the new value is not
    negative and the row and the column stay within their capacities. *)

(** ** Worked runs *)

Example smallExample_balanced :
  customersOf smallExample = smallBalancedCustomers
  /\ suppliersOf smallExample = smallSuppliers.
Proof. split; vm_compute; reflexivity. Qed.

Example smallExample_profit :
  profitOf smallExample = [[10; 13; -8]; [7; 14; -10]]%Q.
Proof. vm_compute. reflexivity. Qed.

Example smallExample_initial_plan :
  initialPlanOf smallExample = Some saturatedPlan.
Proof. vm_compute. reflexivity. Qed.

Example smallExample_steps :
  allocationStep
    <$> maximumElementMethod (profitOf smallExample)
          (suppliersOf smallExample) (customersOf smallExample)
  = Some 4.
Proof. vm_compute. reflexivity. Qed.

Example smallExample_solution :
  exists sol,
    solveMiddlemanProblem 0 1 smallExample = Returned sol /\
    transportationPlan sol = saturatedPlan /\
    isBalanced sol = false /\ isOptimal sol = true /\ iterations sol = 0 /\
    (totalRevenue sol == 2300)%Q /\ (totalPurchaseCost sol == 920)%Q /\
    (totalTransportationCost sol == 140)%Q /\ (totalProfit sol == 1240)%Q /\
    length (optimalRoutes sol) = 2.
Proof.
  eexists. split; [vm_compute; reflexivity|].
  split_and!; vm_compute; reflexivity.
Qed.

(** On the small example, whose quantities are whole numbers, the run
    over binary64 numbers returns what the run over rationals returns. *)
Example smallExample_binary64 :
  exists sol,
    Double.solveMiddlemanProblem 0 1 smallExampleDouble = Returned sol /\
    Double.profitMatrix sol = [[10; 13; -8]; [7; 14; -10]]%float /\
    Double.transportationPlan sol = [[40; 0; 10]; [0; 60; 10]]%float /\
    Double.isBalanced sol = false /\ Double.isOptimal sol = true /\
    Double.iterations sol = 0 /\
    Double.totalRevenue sol = 2300%float /\
    Double.totalPurchaseCost sol = 920%float /\
    Double.totalTransportationCost sol = 140%float /\
    Double.totalProfit sol = 1240%float /\
    length (Double.optimalRoutes sol) = 2.
Proof.
  eexists. split; [vm_compute; reflexivity|].
  split_and!; vm_compute; reflexivity.
Qed.

Example shortageProblem_balanced :
  suppliersOf shortageProblem
  = [mkSupplier "S1" "Factory A" 10 1;
     mkSupplier "fictitious-supplier" "Fictitious Supplier" (15 - 10) 0]%Q
  /\ profitOf shortageProblem = [[4]; [5]]%Q.
Proof. split; vm_compute; reflexivity. Qed.

Example stagnationProblem_run :
  profitOf stagnationProblem = [[10; 9]; [9; 1]]%Q /\
  initialPlanOf stagnationProblem = Some [[1; 0]; [0; 1]]%Q /\
  optimize (profitOf stagnationProblem) (suppliersOf stagnationProblem)
    (customersOf stagnationProblem) [[1; 0]; [0; 1]]%Q
  = Some (mkLoop [[1; 0]; [0; 1]]%Q false 0, LoopLeft PlanUnchanged).
Proof. split_and!; vm_compute; reflexivity. Qed.

(** * The claims *)

(** ** Exact quantities *)

(** Closed instances of [exactQuantities] and of the lists of
    [exactPlan], by evaluation. *)
Ltac whole_numbers :=
  repeat first
    [ apply List.Forall_nil
    | apply List.Forall_cons;
      [first [ split; vm_compute; first [reflexivity|discriminate]
             | vm_compute; reflexivity
             | whole_numbers ] |] ].

Ltac whole_quantities :=
  split_and!; [whole_numbers|whole_numbers|vm_compute; discriminate..].

(** C5.  [calculateProfitMatrix] has one row per supplier and one entry
    per customer, and its cell [(i, j)] is exactly
    [sellingPrice[j] - purchaseCost[i] - transportCost[i][j]], where a
    transport cost missing from the matrix counts as [0]; on the worked
    example it is [[10, 13], [7, 14]].  Being a function of its three
    arguments, it yields the same matrix for the same inputs. *)
Theorem calculateProfitMatrix_formula ss cs costs :
  shape (calculateProfitMatrix ss cs costs) (length ss) (length cs) /\
  (forall i j s c,
     ss !! i = Some s -> cs !! j = Some c ->
     cell (calculateProfitMatrix ss cs costs) i j
     = (sellingPrice c - purchaseCost s - cell costs i j)%Q /\
     ((row ← costs !! i; row !! j) = None ->
      cell (calculateProfitMatrix ss cs costs) i j
      = (sellingPrice c - purchaseCost s - 0)%Q)) /\
  calculateProfitMatrix smallSuppliers smallCustomers [[2; 4]; [3; 1]]%Q
  = [[10; 13]; [7; 14]]%Q.
Proof.
  split_and!.
  - apply shape_calculateProfitMatrix.
  - intros i j s c Hs Hc. split.
    + by apply cell_calculateProfitMatrix.
    + intros Hmissing. rewrite (cell_calculateProfitMatrix _ _ _ _ _ s c)
        by done.
      unfold cell. by rewrite Hmissing.
  - vm_compute. reflexivity.
Qed.

Lemma calculateProfitMatrix_formula_witness :
  cell (calculateProfitMatrix smallSuppliers smallCustomers [[2; 4]; [3]]%Q)
    1 1
  = (25 - 10 - 0)%Q.
Proof.
  apply (proj1 (proj2 (calculateProfitMatrix_formula
                         smallSuppliers smallCustomers [[2; 4]; [3]]%Q))
           1 1 (mkSupplier "S2" "Factory B" 70 10)
           (mkCustomer "C2" "Store Y" 60 25)); reflexivity.
Defined.

(** C7, as stated, fails in binary64, where the totals are rounded sums.
    For a supply of 0.2 and a demand of 0.9 the code appends a fictitious
    supplier of 0.9 - 0.2 = 0.7, and the returned suppliers then total
    0.2 + 0.7 = 0.8999999999999999, less than the demand 0.9: balancing
    the returned lists again appends a second fictitious supplier.  For
    the supplies 0.1, 0.2, 0.3 and the demands 0.3, 0.2, 0.1, equal in
    total, it appends a fictitious customer. *)
Lemma balanceProblem_rounded_totals_differ :
  let bp := Double.balanceProblem fractionalSuppliers fractionalCustomers in
  Double.b_suppliers bp
  = fractionalSuppliers
    ++ [Double.mkSupplier "fictitious-supplier" "Fictitious Supplier"
          0.7 0] /\
  Double.b_customers bp = fractionalCustomers /\
  Double.totalSupplyOf (Double.b_suppliers bp) = 0.8999999999999999%float /\
  Double.totalDemandOf (Double.b_customers bp) = 0.9%float /\
  PrimFloat.ltb (Double.totalSupplyOf (Double.b_suppliers bp))
    (Double.totalDemandOf (Double.b_customers bp)) = true /\
  length
    (Double.b_suppliers
       (Double.balanceProblem (Double.b_suppliers bp)
          (Double.b_customers bp))) = 3 /\
  is_Some
    (Double.fictitiousCustomer
       (Double.balanceProblem
          [Double.mkSupplier "S1" "Factory A" 0.1 1;
           Double.mkSupplier "S2" "Factory B" 0.2 1;
           Double.mkSupplier "S3" "Factory C" 0.3 1]
          [Double.mkCustomer "C1" "Store X" 0.3 5;
           Double.mkCustomer "C2" "Store Y" 0.2 5;
           Double.mkCustomer "C3" "Store Z" 0.1 5])).
Proof.
  split_and!; try (vm_compute; reflexivity). vm_compute. by eexists.
Qed.

(** C7, amended.  On whole-number supplies and demands with totals at
    most 2^53, where its sums are exact, [balanceProblem] keeps the lists
    it is given: with more supply than demand it appends one fictitious
    customer whose demand is the excess and whose selling price is 0;
    with more demand than supply it appends one fictitious supplier whose
    supply is the excess and whose purchase cost is 0; with equal totals
    it appends nothing; [isBalanced] is true exactly when the totals are
    equal, and the returned lists have equal totals.  In binary64, on
    every input, the same three cases hold of the totals as the code
    computes and compares them, and [isBalanced] is their comparison by
    [===]. *)
Theorem balanceProblem_spec :
  (forall ss cs,
     exactQuantities ss cs ->
     let bp := balanceProblem ss cs in
     ((totalDemandOf cs < totalSupplyOf ss)%Q ->
      b_suppliers bp = ss /\
      fictitiousSupplier bp = None /\
      exists fc,
        b_customers bp = cs ++ [fc] /\ fictitiousCustomer bp = Some fc /\
        cid fc = "fictitious-customer" /\
        demand fc = (totalSupplyOf ss - totalDemandOf cs)%Q /\
        sellingPrice fc = 0%Q) /\
     ((totalSupplyOf ss < totalDemandOf cs)%Q ->
      b_customers bp = cs /\
      fictitiousCustomer bp = None /\
      exists fs,
        b_suppliers bp = ss ++ [fs] /\ fictitiousSupplier bp = Some fs /\
        sid fs = "fictitious-supplier" /\
        supply fs = (totalDemandOf cs - totalSupplyOf ss)%Q /\
        purchaseCost fs = 0%Q) /\
     ((totalSupplyOf ss == totalDemandOf cs)%Q ->
      b_suppliers bp = ss /\ b_customers bp = cs /\
      fictitiousSupplier bp = None /\ fictitiousCustomer bp = None /\
      b_isBalanced bp = true) /\
     (b_isBalanced bp = true <-> (totalSupplyOf ss == totalDemandOf cs)%Q) /\
     originalSupplyTotal bp = totalSupplyOf ss /\
     originalDemandTotal bp = totalDemandOf cs /\
     (totalSupplyOf (b_suppliers bp) == totalDemandOf (b_customers bp))%Q) /\
  (forall ss cs,
     let bp := Double.balanceProblem ss cs in
     let totalSupply := Double.totalSupplyOf ss in
     let totalDemand := Double.totalDemandOf cs in
     (PrimFloat.ltb totalDemand totalSupply = true ->
      Double.b_suppliers bp = ss /\
      Double.fictitiousSupplier bp = None /\
      exists fc,
        Double.b_customers bp = cs ++ [fc] /\
        Double.fictitiousCustomer bp = Some fc /\
        Double.cid fc = "fictitious-customer" /\
        Double.demand fc = PrimFloat.sub totalSupply totalDemand /\
        Double.sellingPrice fc = 0%float) /\
     (PrimFloat.ltb totalDemand totalSupply = false ->
      PrimFloat.ltb totalSupply totalDemand = true ->
      Double.b_customers bp = cs /\
      Double.fictitiousCustomer bp = None /\
      exists fs,
        Double.b_suppliers bp = ss ++ [fs] /\
        Double.fictitiousSupplier bp = Some fs /\
        Double.sid fs = "fictitious-supplier" /\
        Double.supply fs = PrimFloat.sub totalDemand totalSupply /\
        Double.purchaseCost fs = 0%float) /\
     (PrimFloat.ltb totalDemand totalSupply = false ->
      PrimFloat.ltb totalSupply totalDemand = false ->
      Double.b_suppliers bp = ss /\ Double.b_customers bp = cs /\
      Double.fictitiousSupplier bp = None /\
      Double.fictitiousCustomer bp = None) /\
     Double.b_isBalanced bp = PrimFloat.eqb totalSupply totalDemand /\
     Double.originalSupplyTotal bp = totalSupply /\
     Double.originalDemandTotal bp = totalDemand).
Proof.
  split.
  - intros ss cs _ bp. pose proof (balanceProblem_balanced ss cs) as Hbal.
    fold bp in Hbal.
    destruct (balanceProblem_cases ss cs)
      as [(H & fc & Hbp & Hfc)|[(H & fs & Hbp & Hfs)|(H & Hbp)]];
      fold bp in Hbp; rewrite Hbp in *; cbn [b_suppliers b_customers
        b_isBalanced fictitiousSupplier fictitiousCustomer originalSupplyTotal
        originalDemandTotal].
    + split_and!; [|intros; lra|intros; lra| |done|done|done].
      * intros _. split_and!; [done..|]. exists fc. by rewrite Hfc.
      * split; [done|]. intros; lra.
    + split_and!; [intros; lra| |intros; lra| |done|done|done].
      * intros _. split_and!; [done..|]. exists fs. by rewrite Hfs.
      * split; [done|]. intros; lra.
    + split_and!; [intros; lra|intros; lra|done|done|done|done|done].
  - intros ss cs bp totalSupply totalDemand. subst bp.
    unfold Double.balanceProblem. fold totalSupply totalDemand. cbv zeta.
    destruct (PrimFloat.ltb totalDemand totalSupply) eqn:Hgt;
      [|destruct (PrimFloat.ltb totalSupply totalDemand) eqn:Hlt];
      cbn [Double.b_suppliers Double.b_customers Double.b_isBalanced
           Double.fictitiousSupplier Double.fictitiousCustomer
           Double.originalSupplyTotal Double.originalDemandTotal];
      split_and!; try done; intros; split_and!; try done; by eexists.
Qed.

Lemma balanceProblem_spec_witness :
  b_suppliers (balanceProblem smallSuppliers smallCustomers) = smallSuppliers
  /\ exists fc,
       b_customers (balanceProblem smallSuppliers smallCustomers)
       = smallCustomers ++ [fc]
       /\ (demand fc == 20)%Q /\ sellingPrice fc = 0%Q.
Proof.
  destruct (proj1 (proj1 balanceProblem_spec smallSuppliers smallCustomers
                     ltac:(whole_quantities)))
    as (Hs & _ & fc & Hc & _ & _ & Hd & Hp).
  - vm_compute. reflexivity.
  - split; [exact Hs|]. exists fc. split; [exact Hc|]. split; [|exact Hp].
    rewrite Hd. vm_compute. reflexivity.
Defined.

(** Each violation puts its own message in the list of errors. *)
Lemma errors_name_the_violation p :
  (suppliers p = [] ->
   "Problem must have at least one supplier" ∈ errors (validateProblem p)) /\
  (customers p = [] ->
   "Problem must have at least one customer" ∈ errors (validateProblem p)) /\
  (forall s, s ∈ suppliers p -> (supply s <= 0)%Q ->
   ("Supplier " ++ sname s ++ " must have positive supply")%string
     ∈ errors (validateProblem p)) /\
  (forall s, s ∈ suppliers p -> (purchaseCost s < 0)%Q ->
   ("Supplier " ++ sname s ++ " cannot have negative purchase cost")%string
     ∈ errors (validateProblem p)) /\
  (forall c, c ∈ customers p -> (demand c <= 0)%Q ->
   ("Customer " ++ cname c ++ " must have positive demand")%string
     ∈ errors (validateProblem p)) /\
  (forall c, c ∈ customers p -> (sellingPrice c < 0)%Q ->
   ("Customer " ++ cname c ++ " cannot have negative selling price")%string
     ∈ errors (validateProblem p)).
Proof.
  unfold validateProblem. cbn [errors].
  assert (forall s, s ∈ suppliers p ->
            forall e, e ∈ supplierErrors s ->
            e ∈ (if Nat.eqb (length (suppliers p)) 0
                 then ["Problem must have at least one supplier"]
                 else s ← suppliers p; supplierErrors s)) as Hsup.
  { intros s Hs e He. destruct (suppliers p) as [|s0 ss] eqn:E;
      [by apply elem_of_nil in Hs|].
    cbn [length Nat.eqb]. apply list_elem_of_bind. eauto. }
  assert (forall c, c ∈ customers p ->
            forall e, e ∈ customerErrors c ->
            e ∈ (if Nat.eqb (length (customers p)) 0
                 then ["Problem must have at least one customer"]
                 else c ← customers p; customerErrors c)) as Hcus.
  { intros c Hc e He. destruct (customers p) as [|c0 cs] eqn:E;
      [by apply elem_of_nil in Hc|].
    cbn [length Nat.eqb]. apply list_elem_of_bind. eauto. }
  split_and!.
  - intros ->. apply elem_of_app. left. apply elem_of_cons. by left.
  - intros ->. apply elem_of_app. right. apply elem_of_cons. by left.
  - intros s Hs Hle. apply elem_of_app. left. apply (Hsup s Hs).
    unfold supplierErrors. apply Qle_bool_iff in Hle. rewrite Hle.
    apply elem_of_app. left. apply elem_of_cons. by left.
  - intros s Hs Hlt. apply elem_of_app. left. apply (Hsup s Hs).
    unfold supplierErrors. apply Qltb_true in Hlt. rewrite Hlt.
    apply elem_of_app. right. apply elem_of_cons. by left.
  - intros c Hc Hle. apply elem_of_app. right. apply (Hcus c Hc).
    unfold customerErrors. apply Qle_bool_iff in Hle. rewrite Hle.
    apply elem_of_app. left. apply elem_of_cons. by left.
  - intros c Hc Hlt. apply elem_of_app. right. apply (Hcus c Hc).
    unfold customerErrors. apply Qltb_true in Hlt. rewrite Hlt.
    apply elem_of_app. right. apply elem_of_cons. by left.
Qed.

(** C10.  On a structurally invalid problem (no suppliers, no customers,
    a non-positive supply or demand, a negative purchase cost or selling
    price) the validation fails and [solveMiddlemanProblem] throws
    ["Invalid problem: "] followed by the collected errors, a non-empty
    list in which every violation has its own message; the result is
    fixed by the validation alone, with no balancing, matrix or iteration
    behind it.  On a problem that passes the validation it returns a
    solution. *)
Theorem solve_rejects_invalid_input t0 t1 p :
  (structurallyInvalid p ->
   isValid (validateProblem p) = false /\
   errors (validateProblem p) <> [] /\
   solveMiddlemanProblem t0 t1 p
   = Thrown
       ("Invalid problem: " ++ join ", " (errors (validateProblem p)))%string
   /\
   (suppliers p = [] ->
    "Problem must have at least one supplier" ∈ errors (validateProblem p))
   /\
   (customers p = [] ->
    "Problem must have at least one customer" ∈ errors (validateProblem p))
   /\
   (forall s, s ∈ suppliers p -> (supply s <= 0)%Q ->
    ("Supplier " ++ sname s ++ " must have positive supply")%string
      ∈ errors (validateProblem p)) /\
   (forall s, s ∈ suppliers p -> (purchaseCost s < 0)%Q ->
    ("Supplier " ++ sname s ++ " cannot have negative purchase cost")%string
      ∈ errors (validateProblem p)) /\
   (forall c, c ∈ customers p -> (demand c <= 0)%Q ->
    ("Customer " ++ cname c ++ " must have positive demand")%string
      ∈ errors (validateProblem p)) /\
   (forall c, c ∈ customers p -> (sellingPrice c < 0)%Q ->
    ("Customer " ++ cname c ++ " cannot have negative selling price")%string
      ∈ errors (validateProblem p))) /\
  (isValid (validateProblem p) = true ->
   ~ structurallyInvalid p /\
   exists sol, solveMiddlemanProblem t0 t1 p = Returned sol).
Proof.
  split.
  - intros Hinv. apply isValid_structurallyInvalid in Hinv as Hv.
    destruct (validateProblem_cases p) as [(Hv' & _)|(_ & Herr & _)];
      [congruence|].
    split_and!; [done|done|by apply solve_invalid|..];
      apply (errors_name_the_violation p).
  - intros Hv. apply isValid_wellFormed in Hv as Hw.
    split; [by apply wellFormed_not_invalid|].
    destruct (solve_run t0 t1 p Hw) as (st0 & isOpt & term & H).
    eexists. apply H.
Qed.

Lemma solve_rejects_invalid_input_witness :
  solveMiddlemanProblem 0 1 emptyProblem
  = Thrown
      ("Invalid problem: Problem must have at least one supplier, "
       ++ "Problem must have at least one customer")%string
  /\ exists sol, solveMiddlemanProblem 0 1 smallExample = Returned sol.
Proof.
  split.
  - destruct (proj1 (solve_rejects_invalid_input 0 1 emptyProblem))
      as (_ & _ & H & _); [by left|]. exact H.
  - apply (proj2 (solve_rejects_invalid_input 0 1 smallExample)).
    vm_compute. reflexivity.
Defined.

(** Step 6 always ends, whatever plan it starts from. *)
Lemma optimize_total pm ss cs plan :
  exists st term,
    optimize pm ss cs plan = Some (st, term) /\
    l_iterations st <= maxIterations /\
    match term with
    | InitiallyOptimal =>
        l_isOptimal st = true /\ l_iterations st = 0 /\ l_plan st = plan /\
        oc_improvements (checkOptimality pm plan ss cs) = []
    | LoopLeft ConditionFalse =>
        l_isOptimal st = true
        \/ (l_isOptimal st = false /\ l_iterations st = maxIterations)
    | LoopLeft PlanUnchanged =>
        l_isOptimal st = false /\
        exists best rest,
          oc_improvements (checkOptimality pm (l_plan st) ss cs)
            = best :: rest /\
          arraysEqual (l_plan st)
            (improveSolution (l_plan st) best ss cs) = true
    | LoopLeft NoImprovements =>
        l_isOptimal st = false /\
        oc_improvements (checkOptimality pm (l_plan st) ss cs) = []
    end.
Proof.
  unfold optimize.
  destruct (oc_isOptimal (checkOptimality pm plan ss cs)) eqn:Hopt.
  - exists (mkLoop plan true 0), InitiallyOptimal.
    cbn [l_isOptimal l_iterations l_plan].
    split_and!; [done|unfold maxIterations; lia|done|done|done|].
    by apply checkOptimality_isOptimal.
  - destruct (improvementLoop_total maxIterations pm ss cs
                (mkLoop plan false 0))
      as (st & e & Hrun & Hit & He); cbn [l_iterations]; [lia..|].
    exists st, (LoopLeft e). rewrite Hrun. cbn.
    split_and!; [done|lia|]. by destruct e.
Qed.

(** C8.  For every problem that passes the validation
    [solveMiddlemanProblem] returns: the Maximum Element Method stops, the
    improvement loop is left, and the reported iteration count is at most
    20.  The loop is not entered when the initial plan passes the
    optimality test; otherwise it is left because a later test succeeds
    ([isOptimal = true]), because the improved plan equals the previous
    one within 0.001 or no improvement is listed (stagnation,
    [isOptimal = false]), or because 20 iterations were counted, and then
    [isOptimal = false]. *)
Theorem solve_terminates t0 t1 p :
  isValid (validateProblem p) = true ->
  exists plan0 st term sol,
    initialPlanOf p = Some plan0 /\
    optimize (profitOf p) (suppliersOf p) (customersOf p) plan0
      = Some (st, term) /\
    solveMiddlemanProblem t0 t1 p = Returned sol /\
    transportationPlan sol = l_plan st /\
    iterations sol = l_iterations st /\
    iterations sol <= 20 /\
    match term with
    | InitiallyOptimal => isOptimal sol = true /\ iterations sol = 0
    | LoopLeft ConditionFalse =>
        isOptimal sol = true
        \/ (isOptimal sol = false /\ iterations sol = 20)
    | LoopLeft PlanUnchanged =>
        isOptimal sol = false /\
        exists best rest,
          oc_improvements
            (checkOptimality (profitOf p) (transportationPlan sol)
               (suppliersOf p) (customersOf p)) = best :: rest /\
          arraysEqual (transportationPlan sol)
            (improveSolution (transportationPlan sol) best
               (suppliersOf p) (customersOf p)) = true
    | LoopLeft NoImprovements =>
        isOptimal sol = false /\
        oc_improvements
          (checkOptimality (profitOf p) (transportationPlan sol)
             (suppliersOf p) (customersOf p)) = []
    end.
Proof.
  intros Hv. apply isValid_wellFormed in Hv as Hw.
  destruct (solve_run t0 t1 p Hw) as (st0 & _ & _ & _ & Hinit & _).
  destruct (optimize_total (profitOf p) (suppliersOf p) (customersOf p)
              (a_plan st0)) as (st & term & Hopt & Hit & Hterm).
  exists (a_plan st0), st, term, (solutionOf t0 t1 p st).
  pose proof (solve_valid t0 t1 p Hv) as Hsolve.
  rewrite Hinit, Hopt in Hsolve.
  cbn [solutionOf transportationPlan iterations isOptimal].
  split_and!; [done..|].
  destruct term as [|[| |]]; [|done..]. by destruct Hterm as (? & ? & _).
Qed.

Lemma solve_terminates_witness :
  exists sol,
    solveMiddlemanProblem 0 1 smallExample = Returned sol /\
    iterations sol <= 20.
Proof.
  destruct (solve_terminates 0 1 smallExample)
    as (plan0 & st & term & sol & _ & _ & Hsol & _ & _ & Hit & _).
  - vm_compute. reflexivity.
  - exists sol. split; [exact Hsol|exact Hit].
Defined.







(** ** Accepted improvement steps *)

(** A pass of the loop over an accepted step goes on with the new plan. *)
Lemma improvementLoop_accepts fuel pm ss cs plan newPlan it :
  it < maxIterations ->
  accepts pm ss cs plan newPlan ->
  improvementLoop (S fuel) pm ss cs (mkLoop plan false it)
  = improvementLoop fuel pm ss cs (mkLoop newPlan false (S it)).
Proof.
  intros Hit (best & rest & Himp & -> & Hneq).
  rewrite improvementLoop_unfold. cbn [l_plan l_isOptimal l_iterations negb].
  apply Nat.ltb_lt in Hit. rewrite Hit. cbn [andb]. cbv zeta.
  assert (oc_isOptimal (checkOptimality pm plan ss cs) = false) as ->.
  { apply not_true_iff_false. intros H.
    apply checkOptimality_isOptimal in H. congruence. }
  cbn [negb]. by rewrite Himp, Hneq.
Qed.

(** What [improveSolution] returns: the plan it was given, or that plan
    with a positive amount added to the chosen cell, taken from nowhere
    (the direct allocation), from another cell of its row or from another
    cell of its column. *)
Lemma improveSolution_cases plan imp ss cs :
  let i := supplierIndex imp in
  let j := customerIndex imp in
  improveSolution plan imp ss cs = plan \/
  (exists a, (0 < a)%Q /\
     improveSolution plan imp ss cs
     = set_cell plan i j (cell plan i j + a)%Q) \/
  (exists k c, k < length cs /\ k <> j /\ (0 < c)%Q /\
     (c <= cell plan i k)%Q /\
     improveSolution plan imp ss cs
     = set_cell (set_cell plan i k (cell plan i k - c)%Q) i j
         (cell (set_cell plan i k (cell plan i k - c)%Q) i j + c)%Q) \/
  (exists k c, k < length ss /\ k <> i /\ (0 < c)%Q /\
     (c <= cell plan k j)%Q /\
     improveSolution plan imp ss cs
     = set_cell (set_cell plan k j (cell plan k j - c)%Q) i j
         (cell (set_cell plan k j (cell plan k j - c)%Q) i j + c)%Q).
Proof.
  intros i j. unfold improveSolution. cbv zeta. fold i j.
  destruct (Qgtb _ 0) eqn:Hdirect.
  { right. left. apply Qgtb_true in Hdirect. by eexists. }
  destruct (reallocateAlongRow _ _ _ _ _) as [p|] eqn:Hrow.
  { right. right. left.
    apply reallocateAlongRow_Some in Hrow
      as (k & c & Hk & Hkj & Hc & Hle & _ & ->).
    apply elem_of_seq in Hk. exists k, c. split_and!; [lia|done..]. }
  destruct (reallocateAlongColumn _ _ _ _ _) as [p|] eqn:Hcol; [|by left].
  right. right. right.
  apply reallocateAlongColumn_Some in Hcol
    as (k & c & Hk & Hki & Hc & Hle & _ & ->).
  apply elem_of_seq in Hk. exists k, c. split_and!; [lia|done..].
Qed.

Lemma NoDup_cells (m n : nat) : NoDup (cells m n).
Proof.
  unfold cells. induction m as [|m IH]; [by apply NoDup_nil|].
  replace (S m) with (m + 1) by lia. rewrite seq_app, bind_app. simpl.
  rewrite app_nil_r. apply NoDup_app. split_and!.
  - exact IH.
  - intros [i j] Hin Hin'. apply (elem_of_cells m n) in Hin as [Hi _].
    apply list_elem_of_fmap in Hin' as (j' & Heq & _).
    injection Heq as -> _. lia.
  - apply NoDup_fmap_2; [|apply NoDup_seq]. by intros j j' [= ->].
Qed.

(** A sum over cells that occur once, when the summand changes at one of
    them. *)
Lemma sumOver_update (f g : nat * nat -> Q) (l : list (nat * nat)) c0 :
  NoDup l -> c0 ∈ l ->
  (forall c, c ∈ l -> c <> c0 -> (g c == f c)%Q) ->
  (sumOver g l == sumOver f l + (g c0 - f c0))%Q.
Proof.
  induction l as [|c l IH]; intros Hnodup Hin Hsame.
  { by apply elem_of_nil in Hin. }
  apply NoDup_cons in Hnodup as [Hc Hnodup].
  rewrite !sumOver_cons. apply elem_of_cons in Hin as [->|Hin].
  - rewrite (sumOver_ext g f l); [lra|].
    intros c' Hc'. apply Hsame; [by apply elem_of_cons; right|].
    by intros ->.
  - rewrite IH; [|done|done|].
    + rewrite (Hsame c); [lra|by apply elem_of_cons; left|by intros ->].
    + intros c' Hc' Hne. apply Hsame; [by apply elem_of_cons; right|done].
Qed.

(** The objective after the write [plan[i][j] = v]. *)
Lemma objective_set_cell pm plan m n i j v :
  shape plan m n -> i < m -> j < n ->
  (objective pm (set_cell plan i j v) m n
   == objective pm plan m n + cell pm i j * (v - cell plan i j))%Q.
Proof.
  intros Hshape Hi Hj. unfold objective.
  rewrite (sumOver_update
             (fun c => (cell pm c.1 c.2 * cell plan c.1 c.2)%Q) _ _ (i, j)).
  - simpl. rewrite (cell_set_cell_eq _ m n) by done. lra.
  - apply NoDup_cells.
  - by apply elem_of_cells.
  - intros [i' j'] _ Hne. simpl. rewrite cell_set_cell_ne; [lra|].
    by intros [= -> ->].
Qed.

(** C3, as stated, fails.  In binary64 the demands 1 and 2^53 total 2^53,
    the supply, so that the code takes the problem for a balanced one and
    the initial plan ships the whole supply to the second customer, at the
    unit profit 8.  The test lists the cell of the first customer, of unit
    profit 1; [improveSolution] moves one unit to it from the cell of the
    second customer, the plans differ, and the loop goes on with the new
    plan, whose total profit 2^56 - 8 is below the 2^56 of the plan it
    replaces.  [solveMiddlemanProblem] returns the new plan. *)
Lemma accepted_step_lowers_profit :
  let ss := Double.suppliers roundedShortage in
  let cs := Double.customers roundedShortage in
  let pm := [[1; 8]]%float in
  let plan := [[0; 0x1p53]]%float in
  let newPlan := [[1; 9007199254740991]]%float in
  let best := Double.mkImprovement 0 0 1 0 1 in
  Double.balanceProblem ss cs
  = Double.mkBalanced ss cs true None None 0x1p53 0x1p53 /\
  Double.findOptimalTransportation pm ss cs = Some plan /\
  Double.oc_improvements (Double.checkOptimality pm plan ss cs) = [best] /\
  Double.improveSolution plan best ss cs = newPlan /\
  Double.arraysEqual plan newPlan = false /\
  Double.res_totalProfit (Double.calculateResults plan ss cs [[0; 0]]%float)
  = 0x1p56%float /\
  Double.res_totalProfit
    (Double.calculateResults newPlan ss cs [[0; 0]]%float)
  = 72057594037927928%float /\
  PrimFloat.ltb 72057594037927928 0x1p56 = true /\
  exists sol,
    Double.solveMiddlemanProblem 0 1 roundedShortage = Returned sol /\
    Double.profitMatrix sol = pm /\
    Double.transportationPlan sol = newPlan /\
    Double.iterations sol = 2 /\
    Double.totalProfit sol = 72057594037927928%float.
Proof.
  cbv zeta. split_and!; try (vm_compute; reflexivity).
  eexists. split_and!; vm_compute; reflexivity.
Qed.

(** C3, amended.  The loop replaces the plan by the plan of
    [improveSolution] whenever the two differ, whatever their profits.
    On a plan of whole-number flows within whole-number supplies and
    demands of at most 2^53 the replacement adds an amount [a > 0] to the
    chosen cell, the first of the listed improvements, and takes it from
    nowhere (unused supply and unmet demand), from another positive cell
    of the same row or from another positive cell of the same column; the
    total profit of the plan under the profit matrix changes by [a] times
    the unit profit of the chosen cell less that of the donor (less 0 when
    there is none).  So the step does not decrease the total profit
    exactly when the chosen cell's unit profit is at least the donor's. *)
Theorem accepted_step_profit pm plan newPlan ss cs :
  shape pm (length ss) (length cs) ->
  exactPlan plan ss cs ->
  accepts pm ss cs plan newPlan ->
  (forall fuel it,
     it < maxIterations ->
     improvementLoop (S fuel) pm ss cs (mkLoop plan false it)
     = improvementLoop fuel pm ss cs (mkLoop newPlan false (S it))) /\
  exists best rest a donor,
    oc_improvements (checkOptimality pm plan ss cs) = best :: rest /\
    newPlan = improveSolution plan best ss cs /\
    supplierIndex best < length ss /\
    customerIndex best < length cs /\
    (0 < a)%Q /\
    (donor = 0%Q
     \/ (exists k, k < length cs /\ k <> customerIndex best /\
           (0 < cell plan (supplierIndex best) k)%Q /\
           donor = cell pm (supplierIndex best) k)
     \/ (exists k, k < length ss /\ k <> supplierIndex best /\
           (0 < cell plan k (customerIndex best))%Q /\
           donor = cell pm k (customerIndex best))) /\
    (objective pm newPlan (length ss) (length cs)
     == objective pm plan (length ss) (length cs)
        + a * (cell pm (supplierIndex best) (customerIndex best) - donor))%Q /\
    ((objective pm plan (length ss) (length cs)
      <= objective pm newPlan (length ss) (length cs))%Q
     <-> (donor
          <= cell pm (supplierIndex best) (customerIndex best))%Q).
Proof.
  intros _ ((Hshape & _) & _) Hacc. split.
  { intros fuel it Hit. by apply improvementLoop_accepts. }
  destruct Hacc as (best & rest & Himp & -> & Hneq).
  assert (supplierIndex best < length ss /\ customerIndex best < length cs)
    as [Hi Hj].
  { assert (best ∈ oc_improvements (checkOptimality pm plan ss cs)) as Hin.
    { rewrite Himp. apply elem_of_cons. by left. }
    apply checkOptimality_members in Hin as (i & j & Hi & Hj & _ & _ & ->).
    done. }
  pose proof (improveSolution_cases plan best ss cs) as Hcases.
  cbv zeta in Hcases.
  set (i := supplierIndex best) in *. set (j := customerIndex best) in *.
  set (m := length ss) in *. set (n := length cs) in *.
  assert (forall a donor : Q,
            (0 < a)%Q ->
            (objective pm (improveSolution plan best ss cs) m n
             == objective pm plan m n + a * (cell pm i j - donor))%Q ->
            (objective pm plan m n
             <= objective pm (improveSolution plan best ss cs) m n)%Q
            <-> (donor <= cell pm i j)%Q) as Hiff.
  { intros a donor Ha Hobj. rewrite Hobj. split; intros H; nra. }
  destruct Hcases
    as [Hsame|[(a & Ha & Hnew)|[(k & c & Hk & Hkj & Hc & Hle & Hnew)
                              |(k & c & Hk & Hki & Hc & Hle & Hnew)]]].
  - rewrite Hsame, arraysEqual_refl in Hneq. done.
  - assert (objective pm (improveSolution plan best ss cs) m n
            == objective pm plan m n + a * (cell pm i j - 0))%Q as Hobj.
    { rewrite Hnew, (objective_set_cell pm plan m n i j) by done. lra. }
    exists best, rest, a, 0%Q.
    split_and!; [done|done|done|done|done|by left|done|by apply (Hiff a)].
  - assert (objective pm (improveSolution plan best ss cs) m n
            == objective pm plan m n + c * (cell pm i j - cell pm i k))%Q
      as Hobj.
    { rewrite Hnew.
      rewrite (objective_set_cell pm _ m n i j);
        [|by apply shape_set_cell|done|done].
      rewrite (objective_set_cell pm plan m n i k) by done. lra. }
    exists best, rest, c, (cell pm i k).
    split_and!; [done|done|done|done|done| |done|by apply (Hiff c)].
    right. left. fold i j. exists k. split_and!; [done|done|lra|done].
  - assert (objective pm (improveSolution plan best ss cs) m n
            == objective pm plan m n + c * (cell pm i j - cell pm k j))%Q
      as Hobj.
    { rewrite Hnew.
      rewrite (objective_set_cell pm _ m n i j);
        [|by apply shape_set_cell|done|done].
      rewrite (objective_set_cell pm plan m n k j) by done. lra. }
    exists best, rest, c, (cell pm k j).
    split_and!; [done|done|done|done|done| |done|by apply (Hiff c)].
    right. right. fold i j. exists k. split_and!; [done|done|lra|done].
Qed.

Lemma accepted_step_profit_witness :
  accepts unservedProfit unservedSuppliers unservedCustomers unservedPlan
    [[1; inject_Z (2 ^ 53) - 1]]%Q /\
  exists a donor,
    (0 < a)%Q /\
    (objective unservedProfit [[1; inject_Z (2 ^ 53) - 1]]%Q 1 2
     == objective unservedProfit unservedPlan 1 2
        + a * (cell unservedProfit 0 0 - donor))%Q /\
    ~ (donor <= cell unservedProfit 0 0)%Q.
Proof.
  assert (oc_improvements
            (checkOptimality unservedProfit unservedPlan unservedSuppliers
               unservedCustomers)
          = [mkImprovement 0 0 1 0 1]) as Hlist.
  { vm_compute. reflexivity. }
  assert (improveSolution unservedPlan (mkImprovement 0 0 1 0 1)
            unservedSuppliers unservedCustomers
          = [[1; inject_Z (2 ^ 53) - 1]]%Q) as Hnew.
  { vm_compute. reflexivity. }
  assert (accepts unservedProfit unservedSuppliers unservedCustomers
            unservedPlan [[1; inject_Z (2 ^ 53) - 1]]%Q) as Hacc.
  { exists (mkImprovement 0 0 1 0 1), []. split; [exact Hlist|].
    split; [by rewrite Hnew|]. vm_compute. reflexivity. }
  split; [exact Hacc|].
  destruct (accepted_step_profit unservedProfit unservedPlan
              [[1; inject_Z (2 ^ 53) - 1]]%Q unservedSuppliers
              unservedCustomers)
    as (_ & best & rest & a & donor & Himp & _ & _ & _ & Ha & _ & Hobj
        & Hiff).
  - split; [reflexivity|]. repeat constructor.
  - split_and!.
    + split_and!.
      * split; [reflexivity|]. repeat constructor.
      * intros [|i] [|[|j]]; vm_compute; discriminate.
      * intros [|i] Hi; [vm_compute; discriminate|]. simpl in Hi. lia.
      * intros [|[|j]] Hj; [vm_compute; discriminate..|]. simpl in Hj. lia.
    + whole_numbers.
    + whole_numbers.
    + whole_numbers.
  - exact Hacc.
  - rewrite Hlist in Himp. injection Himp as <- <-.
    exists a, donor. split; [exact Ha|]. split; [exact Hobj|].
    intros Hle. apply Hiff in Hle. revert Hle. vm_compute. by intros H.
Defined.

(** A direct allocation may lower the profit as well: from the plan with
    slack the loop accepts an allocation of 2 units into a cell of unit
    profit -5, and the objective drops from -30 to -40. *)
Remark accepted_step_may_lower_objective :
  accepts slackProfit slackSuppliers slackCustomers slackPlan
    [[1; 0]; [1; 2]]%Q /\
  (objective slackProfit [[1; 0]; [1; 2]]%Q 2 2
   < objective slackProfit slackPlan 2 2)%Q.
Proof.
  split.
  - eexists _, _. split; [vm_compute; reflexivity|].
    split; vm_compute; reflexivity.
  - vm_compute. reflexivity.
Qed.

(** ** Determinism *)

(** C4, as stated, fails: two runs on the same problem return solutions
    that differ in [executionTime], the difference of two clock readings. *)
Lemma solve_time_differs :
  solveMiddlemanProblem 0 1 smallExample
  <> solveMiddlemanProblem 0 2 smallExample.
Proof. vm_compute. discriminate. Qed.

(** C4, amended.  Two runs of [solveMiddlemanProblem] on the same problem
    agree on the outcome and on every field of the solution other than
    [executionTime], which is the difference of the two clock readings of
    the run.  The maximum scan of the initial builder finds a cell
    whenever one is eligible, and the cell it returns is the first one in
    row-major order among the eligible cells of largest profit. *)
Theorem solve_deterministic_but_for_time :
  (forall p t0 t1 t0' t1',
     withoutTime (solveMiddlemanProblem t0 t1 p)
     = withoutTime (solveMiddlemanProblem t0' t1' p)) /\
  (forall p t0 t1 sol,
     solveMiddlemanProblem t0 t1 p = Returned sol ->
     executionTime sol = (t1 - t0)%Q) /\
  (forall pm m n rs rd,
     (forall i' j', i' < m -> j' < n ->
        (0 < at_ rs i')%Q -> (0 < at_ rd j')%Q ->
        exists z i j, findMaxCell pm m n rs rd = Some (z, (i, j))) /\
     (forall z i j,
        findMaxCell pm m n rs rd = Some (z, (i, j)) ->
        i < m /\ j < n /\ (0 < at_ rs i)%Q /\ (0 < at_ rd j)%Q /\
        z = cell pm i j /\
        forall i' j', i' < m -> j' < n ->
          (0 < at_ rs i')%Q -> (0 < at_ rd j')%Q ->
          (cell pm i' j' <= cell pm i j)%Q /\
          ((cell pm i' j' == cell pm i j)%Q ->
           i < i' \/ (i = i' /\ j <= j')))).
Proof.
  split_and!.
  - intros p t0 t1 t0' t1'.
    destruct (isValid (validateProblem p)) eqn:Hv.
    + rewrite !solve_valid by done.
      destruct (initialPlanOf p) as [plan0|]; [|done].
      by destruct (optimize _ _ _ plan0) as [[st term]|].
    + by rewrite !solve_invalid.
  - intros p t0 t1 sol Hsol.
    destruct (isValid (validateProblem p)) eqn:Hv.
    + rewrite solve_valid in Hsol by done.
      destruct (initialPlanOf p) as [plan0|]; [|done].
      destruct (optimize _ _ _ plan0) as [[st term]|]; [|done].
      by inversion Hsol.
    + by rewrite solve_invalid in Hsol.
  - intros pm m n rs rd. split.
    + intros i' j'. apply findMaxCell_found.
    + intros z i j H.
      destruct (findMaxCell_Some _ _ _ _ _ _ _ _ H)
        as (Hi & Hj & Hs & Hd & Hz).
      split_and!; [done..|]. subst z.
      by apply (findMaxCell_first _ _ _ _ _ _ _ _ H).
Qed.

Lemma solve_deterministic_but_for_time_witness :
  exists sol,
    solveMiddlemanProblem 0 2 smallExample = Returned sol /\
    executionTime sol = (2 - 0)%Q.
Proof.
  eexists. split; [vm_compute; reflexivity|].
  eapply (proj1 (proj2 solve_deterministic_but_for_time) smallExample).
  vm_compute. reflexivity.
Defined.

(** ** Fictitious nodes in the results *)

(** A solution that is returned is assembled from a final loop state of a
    problem that passed the validation. *)
Lemma solve_returned t0 t1 p sol :
  solveMiddlemanProblem t0 t1 p = Returned sol ->
  isValid (validateProblem p) = true /\
  exists st, sol = solutionOf t0 t1 p st.
Proof.
  intros Hsol. destruct (isValid (validateProblem p)) eqn:Hv.
  - split; [done|]. rewrite solve_valid in Hsol by done.
    destruct (initialPlanOf p) as [plan0|]; [|done].
    destruct (optimize _ _ _ plan0) as [[st term]|]; [|done].
    exists st. by inversion Hsol.
  - by rewrite solve_invalid in Hsol.
Qed.

Lemma realRoute_ids plan ss cs costs pm c :
  realRoute plan ss cs c = true -> c.1 < length ss -> c.2 < length cs ->
  r_supplierId (routeOf plan ss cs costs pm c) <> "fictitious-supplier" /\
  r_customerId (routeOf plan ss cs costs pm c) <> "fictitious-customer".
Proof.
  intros Hreal Hi Hj. unfold realRoute, realCustomer, realSupplier in Hreal.
  apply andb_true_iff in Hreal as [_ Hreal].
  apply andb_true_iff in Hreal as [Hc Hs].
  apply negb_true_iff in Hc, Hs.
  destruct (lookup_lt_is_Some_2 ss _ Hi) as [s Hss].
  destruct (lookup_lt_is_Some_2 cs _ Hj) as [cu Hcs].
  unfold routeOf. cbn [r_supplierId r_customerId].
  rewrite Hss, Hcs in *. cbn in *.
  apply String.eqb_neq in Hc, Hs. done.
Qed.

(** C1, as stated, fails: with 10 units of supply for 15 of demand the
    plan ships 5 units from the fictitious supplier to the real customer,
    and [totalRevenue] counts them: it is 75, where the flows between real
    endpoints bring 50. *)
Lemma shortage_revenue_counts_fictitious_supplier :
  exists sol,
    solveMiddlemanProblem 0 1 shortageProblem = Returned sol /\
    transportationPlan sol = [[10]; [5]]%Q /\
    isFictitiousSupplier (suppliersOf shortageProblem !! 1) = true /\
    isFictitiousCustomer (customersOf shortageProblem !! 0) = false /\
    (totalRevenue sol == 75)%Q /\
    (sumOver
       (fun c => cell (transportationPlan sol) c.1 c.2
                 * sellingPriceAt (customersOf shortageProblem) c.2)%Q
       (List.filter
          (realRoute (transportationPlan sol) (suppliersOf shortageProblem)
             (customersOf shortageProblem))
          (cells 2 1)) == 50)%Q /\
    ~ (totalRevenue sol ==
       sumOver
         (fun c => cell (transportationPlan sol) c.1 c.2
                   * sellingPriceAt (customersOf shortageProblem) c.2)%Q
         (List.filter
            (realRoute (transportationPlan sol) (suppliersOf shortageProblem)
               (customersOf shortageProblem))
            (cells (length (suppliersOf shortageProblem))
               (length (customersOf shortageProblem)))))%Q.
Proof.
  eexists. split; [vm_compute; reflexivity|].
  split_and!; try (vm_compute; reflexivity).
  intros H. vm_compute in H. discriminate.
Qed.

(** C1, amended.  In the solution of a solve, the total purchase cost and
    the total transportation cost are sums over the positive-flow cells
    with no fictitious endpoint, and every route of the route list has a
    real supplier and a real customer; the total revenue is the sum over
    the positive-flow cells whose customer is not fictitious, so that it
    counts no flow to the fictitious customer. *)
Theorem solve_excludes_fictitious_flows t0 t1 p sol :
  solveMiddlemanProblem t0 t1 p = Returned sol ->
  let plan := transportationPlan sol in
  let ss := suppliersOf p in
  let cs := customersOf p in
  let flows := cells (length ss) (length cs) in
  (totalPurchaseCost sol ==
     sumOver (fun c => cell plan c.1 c.2 * purchaseCostAt ss c.1)
       (List.filter (realRoute plan ss cs) flows))%Q /\
  (totalTransportationCost sol ==
     sumOver (fun c => cell plan c.1 c.2 * cell (costsOf p) c.1 c.2)
       (List.filter (realRoute plan ss cs) flows))%Q /\
  (totalRevenue sol ==
     sumOver (fun c => cell plan c.1 c.2 * sellingPriceAt cs c.2)
       (List.filter (soldRoute plan cs) flows))%Q /\
  (forall c, c ∈ List.filter (soldRoute plan cs) flows ->
     isFictitiousCustomer (cs !! c.2) = false) /\
  (forall c, c ∈ List.filter (realRoute plan ss cs) flows ->
     isFictitiousCustomer (cs !! c.2) = false /\
     isFictitiousSupplier (ss !! c.1) = false) /\
  Forall (fun r => r_supplierId r <> "fictitious-supplier" /\
                   r_customerId r <> "fictitious-customer")
    (optimalRoutes sol).
Proof.
  intros Hsol plan ss cs flows.
  apply solve_returned in Hsol as (_ & st & ->).
  subst plan ss cs flows.
  cbn [solutionOf transportationPlan totalPurchaseCost
       totalTransportationCost totalRevenue optimalRoutes].
  pose proof (shape_validateTransportationCosts (transportationCosts p)
                (length (suppliersOf p)) (length (customersOf p))) as Hshape.
  fold (costsOf p) in Hshape.
  destruct (calculateResults_sums (l_plan st) (suppliersOf p) (customersOf p)
              (costsOf p) Hshape) as (H1 & H2 & H3 & _).
  split_and!; [done..| | |].
  - intros c Hc. apply elem_of_filter_cells in Hc as (Hc & _).
    unfold soldRoute, realCustomer in Hc.
    apply andb_true_iff in Hc as [_ Hc]. by apply negb_true_iff in Hc.
  - intros c Hc. apply elem_of_filter_cells in Hc as (Hc & _).
    unfold realRoute, realCustomer, realSupplier in Hc.
    apply andb_true_iff in Hc as [_ Hc].
    apply andb_true_iff in Hc as [Hc Hs].
    by apply negb_true_iff in Hc, Hs.
  - rewrite createOptimalRoutes_routes by done.
    apply Forall_fmap, Forall_forall. intros c Hc.
    apply elem_of_filter_cells in Hc as (Hreal & Hi & Hj).
    by apply realRoute_ids.
Qed.

Lemma solve_excludes_fictitious_flows_witness :
  exists sol,
    solveMiddlemanProblem 0 1 shortageProblem = Returned sol /\
    Forall (fun r => r_supplierId r <> "fictitious-supplier" /\
                     r_customerId r <> "fictitious-customer")
      (optimalRoutes sol).
Proof.
  eexists. split; [vm_compute; reflexivity|].
  eapply (solve_excludes_fictitious_flows 0 1 shortageProblem).
  vm_compute. reflexivity.
Defined.

(** C9.  For costs of the shape of the problem, [calculateResults] adds
    [purchaseCost[i] * X[i][j]] to the total purchase cost and
    [transportCost[i][j] * X[i][j]] to the total transportation cost for
    exactly the positive-flow cells with neither endpoint fictitious, and
    [sellingPrice[j] * X[i][j]] to the total revenue for exactly the
    positive-flow cells whose customer is not fictitious, whoever the
    supplier is; the total profit is revenue minus purchase cost minus
    transportation cost; and [createOptimalRoutes] lists, in row-major
    order, exactly the positive-flow cells with no fictitious endpoint,
    each with its quantity, unit profit, purchase cost, transportation
    cost and selling price. *)
Theorem results_aggregation plan ss cs costs pm :
  shape costs (length ss) (length cs) ->
  let r := calculateResults plan ss cs costs in
  let flows := cells (length ss) (length cs) in
  (res_totalPurchaseCost r ==
     sumOver (fun c => cell plan c.1 c.2 * purchaseCostAt ss c.1)
       (List.filter (realRoute plan ss cs) flows))%Q /\
  (res_totalTransportationCost r ==
     sumOver (fun c => cell plan c.1 c.2 * cell costs c.1 c.2)
       (List.filter (realRoute plan ss cs) flows))%Q /\
  (res_totalRevenue r ==
     sumOver (fun c => cell plan c.1 c.2 * sellingPriceAt cs c.2)
       (List.filter (soldRoute plan cs) flows))%Q /\
  res_totalProfit r
  = (res_totalRevenue r - res_totalPurchaseCost r
     - res_totalTransportationCost r)%Q /\
  createOptimalRoutes plan ss cs costs pm
  = routeOf plan ss cs costs pm <$> List.filter (realRoute plan ss cs) flows
  /\
  (forall c,
     c ∈ List.filter (realRoute plan ss cs) flows <->
     c.1 < length ss /\ c.2 < length cs /\ (0 < cell plan c.1 c.2)%Q /\
     isFictitiousCustomer (cs !! c.2) = false /\
     isFictitiousSupplier (ss !! c.1) = false) /\
  (forall c,
     c ∈ List.filter (soldRoute plan cs) flows <->
     c.1 < length ss /\ c.2 < length cs /\ (0 < cell plan c.1 c.2)%Q /\
     isFictitiousCustomer (cs !! c.2) = false).
Proof.
  intros Hshape r flows. subst r flows.
  destruct (calculateResults_sums plan ss cs costs Hshape)
    as (H1 & H2 & H3 & H4).
  split_and!; [done..|by apply createOptimalRoutes_routes| |].
  - intros [i j]. rewrite list_elem_of_In, filter_In, <- list_elem_of_In.
    rewrite elem_of_cells. unfold realRoute, positiveFlow, realCustomer,
      realSupplier. cbn [fst snd].
    rewrite !andb_true_iff, !negb_true_iff, Qgtb_true. tauto.
  - intros [i j]. rewrite list_elem_of_In, filter_In, <- list_elem_of_In.
    rewrite elem_of_cells. unfold soldRoute, positiveFlow, realCustomer.
    cbn [fst snd].
    rewrite !andb_true_iff, !negb_true_iff, Qgtb_true. tauto.
Qed.

Lemma results_aggregation_witness :
  Qeq
    (res_totalRevenue
       (calculateResults [[10]; [5]]%Q (suppliersOf shortageProblem)
          (customersOf shortageProblem) [[0]; [0]]%Q))
    (sumOver
       (fun c => cell [[10]; [5]]%Q c.1 c.2
                 * sellingPriceAt (customersOf shortageProblem) c.2)%Q
       [(0, 0); (1, 0)]).
Proof.
  apply (results_aggregation [[10]; [5]]%Q (suppliersOf shortageProblem)
           (customersOf shortageProblem) [[0]; [0]]%Q [[4]; [5]]%Q).
  vm_compute. split; [reflexivity|]. repeat constructor.
Defined.

(** * Further properties of the code *)

(** ** validateTransportationCosts *)





(** ** arraysEqual *)

Lemma forallb_zip {A} (f : A * A -> bool) (l k : list A) :
  forallb f (zip l k) = true <->
  forall i x y, l !! i = Some x -> k !! i = Some y -> f (x, y) = true.
Proof.
  revert k. induction l as [|x l IH]; intros k.
  - split; [intros _ i x y Hx; by rewrite lookup_nil in Hx|done].
  - destruct k as [|y k].
    + split; [intros _ i x' y' _ Hy; by rewrite lookup_nil in Hy|done].
    + change (zip (x :: l) (y :: k)) with ((x, y) :: zip l k).
      cbn [forallb]. rewrite andb_true_iff, IH. split.
      * intros [Hxy H] [|i] x' y' Hx Hy; simpl in *.
        -- by inversion Hx; inversion Hy; subst.
        -- by eapply H.
      * intros H. split; [by apply (H 0)|].
        intros i x' y' Hx Hy. by apply (H (S i)).
Qed.

Lemma close_true (x y : Q) :
  negb (Qgtb (Qabs (x - y)) 0.001%Q) = true <-> (Qabs (x - y) <= 0.001)%Q.
Proof. rewrite negb_true_iff. apply Qgtb_false. Qed.

Lemma arraysEqual_true (a b : Matrix) :
  arraysEqual a b = true <->
  length a = length b /\
  forall i ra rb, a !! i = Some ra -> b !! i = Some rb ->
    length ra = length rb /\
    forall j x y, ra !! j = Some x -> rb !! j = Some y ->
      (Qabs (x - y) <= 0.001)%Q.
Proof.
  unfold arraysEqual.
  destruct (Nat.eqb (length a) (length b)) eqn:Hlen; cbn [negb].
  - apply Nat.eqb_eq in Hlen. rewrite forallb_zip. split.
    + intros H. split; [done|]. intros i ra rb Ha Hb.
      specialize (H i ra rb Ha Hb). cbn beta iota in H.
      apply andb_true_iff in H as [Hl Hrow]. apply Nat.eqb_eq in Hl.
      split; [done|]. intros j x y Hx Hy.
      rewrite forallb_zip in Hrow. apply close_true.
      apply (Hrow j x y Hx Hy).
    + intros [_ H] i ra rb Ha Hb. destruct (H i ra rb Ha Hb) as [Hl Hrow].
      cbn beta iota. apply andb_true_iff. split; [by apply Nat.eqb_eq|].
      apply forallb_zip. intros j x y Hx Hy. apply close_true. eauto.
  - apply Nat.eqb_neq in Hlen. split; [done|]. by intros [? _].
Qed.

(** X2.  [arraysEqual] holds exactly of two matrices with the same number
    of rows, rows of the same lengths and entries that differ by at most
    0.001; it is reflexive and symmetric, but not transitive: a change the
    loop takes for none can add up with another to one it does see. *)
Theorem arraysEqual_tolerance :
  (forall a b : Matrix,
     arraysEqual a b = true <->
     length a = length b /\
     forall i ra rb, a !! i = Some ra -> b !! i = Some rb ->
       length ra = length rb /\
       forall j x y, ra !! j = Some x -> rb !! j = Some y ->
         (Qabs (x - y) <= 0.001)%Q) /\
  (forall a : Matrix, arraysEqual a a = true) /\
  (forall a b : Matrix, arraysEqual a b = arraysEqual b a) /\
  (exists a b c : Matrix,
     arraysEqual a b = true /\ arraysEqual b c = true /\
     arraysEqual a c = false).
Proof.
  split_and!.
  - apply arraysEqual_true.
  - apply arraysEqual_refl.
  - assert (forall a b : Matrix,
              arraysEqual a b = true -> arraysEqual b a = true) as Hsym.
    { intros a b. rewrite !arraysEqual_true. intros [Hlen H].
      split; [done|]. intros i rb ra Hb Ha.
      destruct (H i ra rb Ha Hb) as [Hl Hrow]. split; [done|].
      intros j y x Hy Hx. specialize (Hrow j x y Hx Hy).
      apply Qabs_Qle_condition in Hrow. apply Qabs_Qle_condition. lra. }
    intros a b. destruct (arraysEqual a b) eqn:Hab.
    + symmetry. by apply Hsym.
    + destruct (arraysEqual b a) eqn:Hba; [|done].
      apply Hsym in Hba. congruence.
  - exists [[0]]%Q, [[0.001]]%Q, [[0.002]]%Q.
    split_and!; vm_compute; reflexivity.
Qed.

Lemma arraysEqual_tolerance_witness :
  arraysEqual [[1; 0]]%Q [[1; 0.0005]]%Q = true /\
  length [[1; 0]]%Q = length [[1; 0.0005]]%Q.
Proof.
  assert (arraysEqual [[1; 0]]%Q [[1; 0.0005]]%Q = true) as H.
  { vm_compute. reflexivity. }
  split; [exact H|].
  exact (proj1 (proj1 (proj1 arraysEqual_tolerance _ _) H)).
Defined.

(** ** checkOptimality *)

(** X3.  [checkOptimality] lists exactly the cells of the matrix whose
    flow is at most 0.001 and whose opportunity cost
    [z - alpha[i] - beta[j]] exceeds 0.001, each once and with that cost
    as its improvement, in order of non-increasing improvement; it reports
    an optimum exactly when there is no such cell. *)
Theorem checkOptimality_report pm plan ss cs :
  let dual := calculateDualVariables pm plan (length ss) (length cs) in
  let r := checkOptimality pm plan ss cs in
  oc_improvements r
    ≡ₚ omap (opportunityAt pm plan dual) (cells (length ss) (length cs)) /\
  (forall imp,
     imp ∈ oc_improvements r <->
     exists i j,
       i < length ss /\ j < length cs /\ (cell plan i j <= epsilon)%Q /\
       (epsilon < opportunityCost pm dual i j)%Q /\
       imp = mkImprovement i j (opportunityCost pm dual i j) 0%Q
               (cell pm i j)) /\
  StronglySorted byImprovement (oc_improvements r) /\
  (oc_isOptimal r = true <->
   forall i j, i < length ss -> j < length cs ->
     (cell plan i j <= epsilon)%Q ->
     (opportunityCost pm dual i j <= epsilon)%Q).
Proof.
  intros dual r. split_and!.
  - apply checkOptimality_perm.
  - intros imp. apply checkOptimality_members.
  - subst r. unfold checkOptimality. cbn [oc_improvements].
    apply sortImprovements_sorted.
  - apply checkOptimality_optimal.
Qed.

Lemma checkOptimality_report_witness :
  mkImprovement 0 1 9 0 9
  ∈ oc_improvements
      (checkOptimality (profitOf stagnationProblem) [[1; 0]; [0; 1]]%Q
         (suppliersOf stagnationProblem) (customersOf stagnationProblem)).
Proof.
  destruct (checkOptimality_report (profitOf stagnationProblem)
              [[1; 0]; [0; 1]]%Q (suppliersOf stagnationProblem)
              (customersOf stagnationProblem)) as (_ & H & _ & _).
  apply H. exists 0, 1. split_and!.
  - vm_compute. lia.
  - vm_compute. lia.
  - vm_compute. discriminate.
  - vm_compute. reflexivity.
  - vm_compute. reflexivity.
Defined.

(** The sort is stable: its first element is the first of the largest
    improvements of the list it sorts. *)
Lemma sortImprovements_head l best rest :
  sortImprovements l = best :: rest ->
  exists l1 l2,
    l = l1 ++ best :: l2 /\
    (forall x, x ∈ l1 -> (improvement x < improvement best)%Q) /\
    (forall x, x ∈ l2 -> (improvement x <= improvement best)%Q).
Proof.
  revert best rest. induction l as [|x l IH]; intros best rest Hsort;
    [done|].
  simpl in Hsort. destruct (sortImprovements l) as [|y r] eqn:Hl.
  - pose proof (sortImprovements_perm l) as Hperm. rewrite Hl in Hperm.
    apply Permutation_nil_l in Hperm. subst l.
    simpl in Hsort. inversion Hsort; subst. exists [], [].
    split_and!; [done|intros z Hz; by apply elem_of_nil in Hz..].
  - destruct (IH y r eq_refl) as (l1 & l2 & -> & H1 & H2).
    simpl in Hsort.
    destruct (Qle_bool (improvement y) (improvement x)) eqn:Hle.
    + apply Qle_bool_iff in Hle. inversion Hsort; subst best rest.
      exists [], (l1 ++ y :: l2). split_and!; [done| |].
      * intros z Hz. by apply elem_of_nil in Hz.
      * intros z Hz. apply elem_of_app in Hz as [Hz|Hz].
        { specialize (H1 z Hz). lra. }
        apply elem_of_cons in Hz as [->|Hz]; [done|].
        specialize (H2 z Hz). lra.
    + assert (improvement x < improvement y)%Q as Hxy.
      { apply Qnot_le_lt. intros H. apply Qle_bool_iff in H. congruence. }
      inversion Hsort; subst best rest.
      exists (x :: l1), l2. split_and!; [done| |done].
      intros z Hz. apply elem_of_cons in Hz as [->|Hz]; [done|by apply H1].
Qed.

Lemma opportunityAt_cell pm plan dual c imp :
  opportunityAt pm plan dual c = Some imp -> cellOf imp = c.
Proof.
  unfold opportunityAt. destruct (Qle_bool _ _); [|done].
  destruct (Qgtb _ _); [|done]. intros H. inversion H. by destruct c.
Qed.

Lemma opportunities_sorted pm plan dual l :
  StronglySorted before l ->
  StronglySorted (fun a b => before (cellOf a) (cellOf b))
    (omap (opportunityAt pm plan dual) l).
Proof.
  induction 1 as [|c l Hl IH Hc]; simpl; [constructor|].
  destruct (opportunityAt pm plan dual c) as [imp|] eqn:Hopp; [|done].
  constructor; [done|]. apply Forall_forall. intros imp' Hin.
  apply list_elem_of_omap in Hin as (c' & Hc' & Hopp').
  rewrite (opportunityAt_cell _ _ _ _ _ Hopp).
  rewrite (opportunityAt_cell _ _ _ _ _ Hopp').
  rewrite Forall_forall in Hc. by apply Hc.
Qed.

(** X4.  The improvement the loop acts on, the first of the sorted list,
    has the largest opportunity cost of all candidate cells, and among the
    cells of that cost it is the first in row-major order. *)
Theorem best_improvement_first_maximal pm plan ss cs best rest :
  oc_improvements (checkOptimality pm plan ss cs) = best :: rest ->
  let dual := calculateDualVariables pm plan (length ss) (length cs) in
  supplierIndex best < length ss /\ customerIndex best < length cs /\
  (cell plan (supplierIndex best) (customerIndex best) <= epsilon)%Q /\
  improvement best
  = opportunityCost pm dual (supplierIndex best) (customerIndex best) /\
  forall i j, i < length ss -> j < length cs ->
    (cell plan i j <= epsilon)%Q ->
    (epsilon < opportunityCost pm dual i j)%Q ->
    (opportunityCost pm dual i j <= improvement best)%Q /\
    ((opportunityCost pm dual i j == improvement best)%Q ->
     supplierIndex best < i
     \/ (supplierIndex best = i /\ customerIndex best <= j)).
Proof.
  intros Hbest dual.
  destruct (proj1 (checkOptimality_members pm plan ss cs best))
    as (bi & bj & Hbi & Hbj & Hble & Hbgt & Hb).
  { rewrite Hbest. apply elem_of_cons. by left. }
  split_and!; [by subst best..|].
  intros i j Hi Hj Hle Hgt.
  unfold checkOptimality in Hbest. cbn [oc_improvements] in Hbest.
  rewrite collectImprovement_omap in Hbest. simpl in Hbest. fold dual in Hbest.
  apply sortImprovements_head in Hbest as (l1 & l2 & Hl & H1 & H2).
  pose proof (opportunities_sorted pm plan dual _
                (cells_sorted (length ss) (length cs))) as Hsorted.
  set (imp := mkImprovement i j (opportunityCost pm dual i j) 0%Q
                (cell pm i j)).
  assert (imp ∈ omap (opportunityAt pm plan dual)
                  (cells (length ss) (length cs))) as Hin
    by (apply elem_of_opportunities; by exists i, j).
  rewrite Hl in Hin, Hsorted.
  apply elem_of_app in Hin as [Hin|Hin].
  { specialize (H1 _ Hin). simpl in H1. split; [lra|]. intros Heq. lra. }
  apply elem_of_cons in Hin as [Heq|Hin].
  { rewrite <- Heq. simpl. split; [lra|]. intros _. right. split; [done|lia]. }
  specialize (H2 _ Hin). simpl in H2. split; [done|]. intros _.
  apply StronglySorted_app_1_r, StronglySorted_inv in Hsorted as [_ Hall].
  rewrite Forall_forall in Hall. specialize (Hall _ Hin).
  destruct Hall as [Hlt|[Heq Hlt]]; simpl in *; [by left|right; lia].
Qed.

Lemma best_improvement_first_maximal_witness :
  oc_improvements
    (checkOptimality (profitOf stagnationProblem) [[1; 0]; [0; 1]]%Q
       (suppliersOf stagnationProblem) (customersOf stagnationProblem))
  = [mkImprovement 0 1 9 0 9] /\
  supplierIndex (mkImprovement 0 1 9 0 9)
  < length (suppliersOf stagnationProblem).
Proof.
  assert (oc_improvements
            (checkOptimality (profitOf stagnationProblem) [[1; 0]; [0; 1]]%Q
               (suppliersOf stagnationProblem)
               (customersOf stagnationProblem))
          = [mkImprovement 0 1 9 0 9]) as H.
  { vm_compute. reflexivity. }
  split; [exact H|].
  exact (proj1 (best_improvement_first_maximal _ _ _ _ _ _ H)).
Defined.

(** ** The optimality flag *)





(** ** improveSolution *)




(** ** The Maximum Element Method without balance *)






(** ** balanceProblem, twice *)

(** X8.  On whole-number supplies and demands with totals at most 2^53
    balancing is idempotent: the lists [balanceProblem] returns are
    balanced, so that balancing them again adds no fictitious node, keeps
    both lists and reports [isBalanced = true]; and no call adds both a
    fictitious supplier and a fictitious customer. *)
Theorem balanceProblem_idempotent ss cs :
  exactQuantities ss cs ->
  let bp := balanceProblem ss cs in
  let again := balanceProblem (b_suppliers bp) (b_customers bp) in
  b_suppliers again = b_suppliers bp /\
  b_customers again = b_customers bp /\
  b_isBalanced again = true /\
  fictitiousSupplier again = None /\
  fictitiousCustomer again = None /\
  (fictitiousSupplier bp = None \/ fictitiousCustomer bp = None).
Proof.
  intros _ bp again. pose proof (balanceProblem_balanced ss cs) as Hbal.
  fold bp in Hbal.
  destruct (balanceProblem_cases (b_suppliers bp) (b_customers bp))
    as [(H & _)|[(H & _)|(_ & Heq)]]; [lra|lra|].
  fold again in Heq. rewrite Heq. cbn. split_and!; [done..|].
  destruct (balanceProblem_cases ss cs)
    as [(_ & fc & Hbp & _)|[(_ & fs & Hbp & _)|(_ & Hbp)]];
    fold bp in Hbp; rewrite Hbp; cbn; by eauto.
Qed.

Lemma balanceProblem_idempotent_witness :
  let bp := balanceProblem smallSuppliers smallCustomers in
  b_customers (balanceProblem (b_suppliers bp) (b_customers bp))
  = b_customers bp.
Proof.
  exact (proj1 (proj2 (balanceProblem_idempotent smallSuppliers
                         smallCustomers ltac:(whole_quantities)))).
Defined.

(** ** OptimalTransportationTable: the totals it computes from the routes *)

Lemma fold_routes_sumOver (g : TransportationCell -> Q)
    (f : nat * nat -> TransportationCell) (l : list (nat * nat)) :
  (fold_left (fun sum route => sum + g route) (f <$> l) 0
   == sumOver (fun c => g (f c)) l)%Q.
Proof.
  assert (forall a,
            fold_left (fun sum route => sum + g route) (f <$> l) a
            == a + sumOver (fun c => g (f c)) l)%Q as H.
  { induction l as [|c l IH]; intros a; simpl.
    - rewrite sumOver_nil. lra.
    - rewrite IH, sumOver_cons. lra. }
  rewrite H. lra.
Qed.

Lemma sumOver_minus f g h l :
  (sumOver (fun c => f c - g c - h c) l
   == sumOver f l - sumOver g l - sumOver h l)%Q.
Proof.
  induction l as [|c l IH]; [rewrite !sumOver_nil; lra|].
  rewrite !sumOver_cons, IH. lra.
Qed.

Lemma sumOver_split f (P R : nat * nat -> bool) l :
  (sumOver f (List.filter P l)
   == sumOver f (List.filter (fun c => P c && R c) l)
      + sumOver f (List.filter (fun c => P c && negb (R c)) l))%Q.
Proof.
  induction l as [|c l IH]; simpl; [rewrite !sumOver_nil; lra|].
  destruct (P c), (R c); simpl; rewrite ?sumOver_cons, IH; lra.
Qed.

Lemma filter_ext_in {A} (f g : A -> bool) (l : list A) :
  (forall x, x ∈ l -> f x = g x) -> List.filter f l = List.filter g l.
Proof.
  induction l as [|x l IH]; intros H; simpl; [done|].
  rewrite (H x) by (apply elem_of_cons; by left).
  rewrite IH; [done|]. intros y Hy. apply H, elem_of_cons. by right.
Qed.

(** X9.  The totals the results table computes from the route list of a
    solve, against the totals of the solution: purchase cost and
    transportation cost agree; the table's profit, the sum of quantity
    times unit profit, is its revenue minus its two costs; the solution's
    revenue is the table's revenue plus the revenue of the flows from the
    fictitious supplier, so that revenue and profit agree as well when no
    supplier of the balanced problem is fictitious. *)
Theorem table_totals t0 t1 p sol :
  solveMiddlemanProblem t0 t1 p = Returned sol ->
  let routes := optimalRoutes sol in
  let plan := transportationPlan sol in
  let ss := suppliersOf p in
  let cs := customersOf p in
  (tableTotalPurchaseCost routes == totalPurchaseCost sol)%Q /\
  (tableTotalTransportationCost routes == totalTransportationCost sol)%Q /\
  (tableTotalProfit routes ==
     tableTotalRevenue routes - tableTotalPurchaseCost routes
     - tableTotalTransportationCost routes)%Q /\
  (totalRevenue sol ==
     tableTotalRevenue routes
     + sumOver (fun c => cell plan c.1 c.2 * sellingPriceAt cs c.2)
         (List.filter (phantomRoute plan ss cs)
            (cells (length ss) (length cs))))%Q /\
  (Forall (fun s => sid s <> "fictitious-supplier") ss ->
   (tableTotalRevenue routes == totalRevenue sol)%Q /\
   (tableTotalProfit routes == totalProfit sol)%Q).
Proof.
  intros Hsol routes plan ss cs.
  apply solve_returned in Hsol as (_ & st & ->).
  subst routes plan ss cs.
  cbn [solutionOf transportationPlan totalPurchaseCost
       totalTransportationCost totalRevenue totalProfit optimalRoutes].
  pose proof (shape_validateTransportationCosts (transportationCosts p)
                (length (suppliersOf p)) (length (customersOf p))) as Hshape.
  fold (costsOf p) in Hshape.
  destruct (calculateResults_sums (l_plan st) (suppliersOf p) (customersOf p)
              (costsOf p) Hshape) as (H1 & H2 & H3 & H4).
  rewrite createOptimalRoutes_routes by done.
  set (real := List.filter
                 (realRoute (l_plan st) (suppliersOf p) (customersOf p))
                 (cells (length (suppliersOf p)) (length (customersOf p)))).
  fold real in H1, H2.
  assert (tableTotalPurchaseCost
            (routeOf (l_plan st) (suppliersOf p) (customersOf p) (costsOf p)
               (profitOf p) <$> real)
          == res_totalPurchaseCost
               (calculateResults (l_plan st) (suppliersOf p) (customersOf p)
                  (costsOf p)))%Q as Hp.
  { unfold tableTotalPurchaseCost. rewrite fold_routes_sumOver, H1.
    reflexivity. }
  assert (tableTotalTransportationCost
            (routeOf (l_plan st) (suppliersOf p) (customersOf p) (costsOf p)
               (profitOf p) <$> real)
          == res_totalTransportationCost
               (calculateResults (l_plan st) (suppliersOf p) (customersOf p)
                  (costsOf p)))%Q as Ht.
  { unfold tableTotalTransportationCost. rewrite fold_routes_sumOver, H2.
    reflexivity. }
  assert (tableTotalRevenue
            (routeOf (l_plan st) (suppliersOf p) (customersOf p) (costsOf p)
               (profitOf p) <$> real)
          == sumOver
               (fun c => cell (l_plan st) c.1 c.2
                         * sellingPriceAt (customersOf p) c.2)%Q real)%Q
    as Hr.
  { unfold tableTotalRevenue. rewrite fold_routes_sumOver. reflexivity. }
  assert (tableTotalProfit
            (routeOf (l_plan st) (suppliersOf p) (customersOf p) (costsOf p)
               (profitOf p) <$> real)
          == tableTotalRevenue
               (routeOf (l_plan st) (suppliersOf p) (customersOf p)
                  (costsOf p) (profitOf p) <$> real)
             - tableTotalPurchaseCost
                 (routeOf (l_plan st) (suppliersOf p) (customersOf p)
                    (costsOf p) (profitOf p) <$> real)
             - tableTotalTransportationCost
                 (routeOf (l_plan st) (suppliersOf p) (customersOf p)
                    (costsOf p) (profitOf p) <$> real))%Q as Hprofit.
  { unfold tableTotalProfit, tableTotalRevenue, tableTotalPurchaseCost,
      tableTotalTransportationCost.
    rewrite !fold_routes_sumOver, <- sumOver_minus.
    apply sumOver_ext. intros [i j] Hc. subst real.
    apply elem_of_filter_cells in Hc as (_ & Hi & Hj). simpl in Hi, Hj.
    destruct (lookup_lt_is_Some_2 _ _ Hi) as [s Hs].
    destruct (lookup_lt_is_Some_2 _ _ Hj) as [c Hc].
    unfold routeOf, purchaseCostAt, sellingPriceAt, profitOf.
    cbn [r_quantity r_unitProfit r_sellingPrice r_purchaseCost
         r_transportationCost fst snd].
    rewrite (cell_calculateProfitMatrix _ _ _ _ _ s c) by done.
    rewrite Hs, Hc. simpl. ring. }
  assert (res_totalRevenue
            (calculateResults (l_plan st) (suppliersOf p) (customersOf p)
               (costsOf p))
          == tableTotalRevenue
               (routeOf (l_plan st) (suppliersOf p) (customersOf p)
                  (costsOf p) (profitOf p) <$> real)
             + sumOver
                 (fun c => cell (l_plan st) c.1 c.2
                           * sellingPriceAt (customersOf p) c.2)
                 (List.filter
                    (phantomRoute (l_plan st) (suppliersOf p) (customersOf p))
                    (cells (length (suppliersOf p))
                       (length (customersOf p)))))%Q as Hrev.
  { rewrite H3, Hr.
    rewrite (sumOver_split _ _ (realSupplier (suppliersOf p))).
    subst real. unfold phantomRoute.
    rewrite (filter_ext_in
               (fun c => soldRoute (l_plan st) (customersOf p) c
                         && realSupplier (suppliersOf p) c)
               (realRoute (l_plan st) (suppliersOf p) (customersOf p)));
      [reflexivity|].
    intros c _. unfold soldRoute, realRoute. by rewrite andb_assoc. }
  split_and!; [done..|].
  intros Hreal.
  assert (List.filter
            (phantomRoute (l_plan st) (suppliersOf p) (customersOf p))
            (cells (length (suppliersOf p)) (length (customersOf p)))
          = []) as Hnone.
  { rewrite (filter_ext_in _ (fun _ => false)).
    - generalize (cells (length (suppliersOf p)) (length (customersOf p))).
      intros l. by induction l.
    - intros [i j] Hc. apply elem_of_cells in Hc as [Hi Hj].
      unfold phantomRoute, realSupplier. cbn [fst snd].
      destruct (lookup_lt_is_Some_2 _ _ Hi) as [s Hs]. rewrite Hs.
      rewrite Forall_lookup in Hreal. specialize (Hreal _ _ Hs).
      apply String.eqb_neq in Hreal. cbn [isFictitiousSupplier].
      by rewrite Hreal, andb_false_r. }
  rewrite Hnone, sumOver_nil in Hrev.
  split; [lra|]. rewrite Hprofit, H4, Hp, Ht. lra.
Qed.

Lemma table_totals_witness :
  exists sol,
    solveMiddlemanProblem 0 1 smallExample = Returned sol /\
    (tableTotalProfit (optimalRoutes sol) == totalProfit sol)%Q.
Proof.
  eexists. split; [vm_compute; reflexivity|].
  eapply (table_totals 0 1 smallExample).
  - vm_compute. reflexivity.
  - repeat constructor; discriminate.
Defined.

(** ** What a solve returns for an unbalanced problem *)





(** ** calculateDualVariables *)

Lemma keeps_refl a : keeps a a.
Proof. by split. Qed.

Lemma keeps_trans a b c : keeps a b -> keeps b c -> keeps a c.
Proof.
  intros [Hl1 H1] [Hl2 H2]. split; [congruence|]. intros i v Hi. eauto.
Qed.

Lemma keeps_insert a j v :
  a !! j = Some None -> keeps a (<[j := Some v]> a).
Proof.
  intros Hj. split; [by rewrite length_insert|]. intros i w Hi.
  destruct (decide (i = j)) as [->|Hne]; [congruence|].
  by rewrite list_lookup_insert_ne.
Qed.

Lemma dualStep_keeps pm alpha beta changed bv :
  keeps alpha (dualStep pm (alpha, beta, changed) bv).1.1 /\
  keeps beta (dualStep pm (alpha, beta, changed) bv).1.2.
Proof.
  destruct bv as [i j]. cbn [dualStep].
  destruct (alpha !! i) as [[a|]|] eqn:Ha;
    destruct (beta !! j) as [[b|]|] eqn:Hb; cbn [fst snd];
    auto using keeps_refl, keeps_insert.
Qed.

Lemma dualFold_keeps pm l alpha beta changed :
  keeps alpha (fold_left (dualStep pm) l (alpha, beta, changed)).1.1 /\
  keeps beta (fold_left (dualStep pm) l (alpha, beta, changed)).1.2.
Proof.
  revert alpha beta changed. induction l as [|bv l IH];
    intros alpha beta changed; cbn [fold_left].
  - split; apply keeps_refl.
  - destruct (dualStep_keeps pm alpha beta changed bv) as [Ha Hb].
    destruct (dualStep pm (alpha, beta, changed) bv) as [[a1 b1] c1].
    cbn [fst snd] in *. destruct (IH a1 b1 c1) as [Ha' Hb'].
    split; eapply keeps_trans; eauto.
Qed.

Lemma dualPasses_keeps budget pm l alpha beta :
  keeps alpha (dualPasses budget pm l alpha beta).1 /\
  keeps beta (dualPasses budget pm l alpha beta).2.
Proof.
  revert alpha beta. induction budget as [|budget IH]; intros alpha beta;
    cbn [dualPasses].
  - split; apply keeps_refl.
  - destruct (dualFold_keeps pm l alpha beta false) as [Ha Hb].
    destruct (fold_left (dualStep pm) l (alpha, beta, false))
      as [[a1 b1] c1].
    cbn [fst snd] in *. destruct c1; [|done].
    destruct (IH a1 b1) as [Ha' Hb']. split; eapply keeps_trans; eauto.
Qed.

(** Over the basic cells of one row whose dual is known, a pass derives
    the dual of every column that is still unknown. *)
Lemma dualFold_row pm (posc : nat * nat -> bool) i0 a0 js alpha beta changed :
  NoDup js ->
  alpha !! i0 = Some (Some a0) ->
  (forall j, j ∈ js -> beta !! j = Some None) ->
  forall j, j ∈ js -> posc (i0, j) = true ->
    (fold_left (dualStep pm)
       (List.filter posc ((fun j => (i0, j)) <$> js))
       (alpha, beta, changed)).1.2 !! j
    = Some (Some (cell pm i0 j - a0)%Q).
Proof.
  revert alpha beta changed. induction js as [|j0 js IH];
    intros alpha beta changed Hnodup Ha Hb j Hj Hpos.
  { by apply elem_of_nil in Hj. }
  apply NoDup_cons in Hnodup as [Hj0 Hnodup].
  cbn [fmap list_fmap List.filter].
  destruct (posc (i0, j0)) eqn:Hp0.
  - cbn [fold_left dualStep]. rewrite Ha.
    rewrite (Hb j0) by (apply elem_of_cons; by left).
    apply elem_of_cons in Hj as [->|Hj].
    + pose proof (dualFold_keeps pm
                    (List.filter posc ((fun j => (i0, j)) <$> js))
                    alpha (<[j0 := Some (cell pm i0 j0 - a0)%Q]> beta) true)
        as [_ [_ Hkeep]].
      apply Hkeep. apply list_lookup_insert_eq.
      apply lookup_lt_is_Some. rewrite (Hb j0); [by eexists|].
      apply elem_of_cons. by left.
    + apply IH; [done|done| |done|done].
      intros j' Hj'. rewrite list_lookup_insert_ne by (by intros ->).
      apply Hb, elem_of_cons. by right.
  - apply elem_of_cons in Hj as [->|Hj]; [congruence|].
    apply IH; [done|done| |done|done].
    intros j' Hj'. apply Hb, elem_of_cons. by right.
Qed.

Lemma find_seq_first (f : nat -> bool) (s m i : nat) :
  s <= i < s + m -> f i = true ->
  (forall k, s <= k < i -> f k = false) ->
  List.find f (seq s m) = Some i.
Proof.
  revert s. induction m as [|m IH]; intros s Hi Hf Hfirst; [lia|].
  cbn [seq List.find]. destruct (decide (s = i)) as [->|Hne].
  - by rewrite Hf.
  - rewrite (Hfirst s) by lia. apply IH; [lia|done|].
    intros k Hk. apply Hfirst. lia.
Qed.

Lemma find_seq_none (f : nat -> bool) (s m : nat) :
  (forall k, s <= k < s + m -> f k = false) -> List.find f (seq s m) = None.
Proof.
  revert s. induction m as [|m IH]; intros s H; [done|].
  cbn [seq List.find]. rewrite (H s) by lia. apply IH.
  intros k Hk. apply H. lia.
Qed.

Lemma basicCells_row plan m n i :
  existsb (fun bv => Nat.eqb (fst bv) i) (basicCells plan m n) = true <->
  i < m /\ exists j, j < n /\ (0 < cell plan i j)%Q.
Proof.
  rewrite existsb_exists. unfold basicCells. split.
  - intros ([i' j] & Hin & Heq). apply Nat.eqb_eq in Heq. simpl in Heq.
    subst i'. apply filter_In in Hin as [Hin Hpos].
    apply list_elem_of_In, elem_of_cells in Hin as [Hi Hj].
    apply Qgtb_true in Hpos. eauto.
  - intros (Hi & j & Hj & Hpos). exists (i, j). split.
    + apply filter_In. split.
      * apply list_elem_of_In. by apply elem_of_cells.
      * by apply Qgtb_true.
    + apply Nat.eqb_refl.
Qed.

(** The basic cells, split at the row [i0]: none above it when the rows
    above hold no positive flow. *)
Lemma basicCells_split plan m n i0 :
  i0 < m ->
  (forall i j, i < i0 -> j < n -> (cell plan i j <= 0)%Q) ->
  exists rest,
    basicCells plan m n
    = List.filter (fun c => Qgtb (cell plan c.1 c.2) 0)
        ((fun j => (i0, j)) <$> seq 0 n)
      ++ rest.
Proof.
  intros Hi0 Habove. unfold basicCells, cells.
  assert (seq 0 m = seq 0 i0 ++ i0 :: seq (S i0) (m - S i0)) as ->.
  { replace m with (i0 + S (m - S i0)) at 1 by lia.
    by rewrite seq_app. }
  rewrite bind_app, bind_cons, !List.filter_app.
  assert (List.filter (fun '(i, j) => Qgtb (cell plan i j) 0)
            (i ← seq 0 i0; (fun j => (i, j)) <$> seq 0 n) = []) as ->.
  { rewrite (filter_ext_in _ (fun _ => false)).
    - generalize (i ← seq 0 i0; (fun j => (i, j)) <$> seq 0 n).
      intros l. by induction l.
    - intros [i j] Hc. apply (elem_of_cells i0 n) in Hc as [Hi Hj].
      apply Qgtb_false. by apply Habove. }
  simpl. eexists. f_equal. apply filter_ext_in. by intros [i j] _.
Qed.

(** X11.  [calculateDualVariables] returns one [alpha] per row and one
    [beta] per column.  With no positive flow in the matrix every dual is
    0.  Otherwise the first row that holds a positive flow is pinned,
    [alpha = 0], and every positive cell of that row gets the [beta] that
    makes its opportunity cost vanish: [beta[j] = z[i0][j] - 0]. *)
Theorem calculateDualVariables_pinned_row pm plan m n :
  let dual := calculateDualVariables pm plan m n in
  length (alpha dual) = m /\ length (beta dual) = n /\
  ((forall i j, i < m -> j < n -> (cell plan i j <= 0)%Q) ->
   dual = mkDual (replicate m 0%Q) (replicate n 0%Q)) /\
  (forall i0,
     i0 < m ->
     (exists j, j < n /\ (0 < cell plan i0 j)%Q) ->
     (forall i j, i < i0 -> j < n -> (cell plan i j <= 0)%Q) ->
     at_ (alpha dual) i0 = 0%Q /\
     forall j, j < n -> (0 < cell plan i0 j)%Q ->
       at_ (beta dual) j = (cell pm i0 j - 0)%Q /\
       (opportunityCost pm dual i0 j == 0)%Q).
Proof.
  intros dual. subst dual. unfold calculateDualVariables.
  split_and!.
  - destruct (List.find _ _) as [i0|]; [|by cbn; rewrite length_replicate].
    pose proof (dualPasses_keeps 50 pm (basicCells plan m n)
                  (<[i0 := Some 0%Q]> (replicate m None)) (replicate n None))
      as [[Hl _] _].
    destruct (dualPasses _ _ _ _ _) as [a b]. cbn in *.
    by rewrite length_fmap, Hl, length_insert, length_replicate.
  - destruct (List.find _ _) as [i0|]; [|by cbn; rewrite length_replicate].
    pose proof (dualPasses_keeps 50 pm (basicCells plan m n)
                  (<[i0 := Some 0%Q]> (replicate m None)) (replicate n None))
      as [_ [Hl _]].
    destruct (dualPasses _ _ _ _ _) as [a b]. cbn in *.
    by rewrite length_fmap, Hl, length_replicate.
  - intros Hnone. rewrite find_seq_none; [done|].
    intros k Hk. apply not_true_iff_false. intros H.
    apply basicCells_row in H as (Hi & j & Hj & Hpos).
    specialize (Hnone k j Hi Hj). lra.
  - intros i0 Hi0 Hrow Habove.
    rewrite (find_seq_first _ 0 m i0); [|lia| |].
    2: { by apply basicCells_row. }
    2: { intros k Hk. apply not_true_iff_false. intros H.
         apply basicCells_row in H as (Hi & j & Hj & Hpos).
         specialize (Habove k j ltac:(lia) Hj). lra. }
    set (alpha0 := <[i0 := Some 0%Q]> (replicate m None)).
    set (beta0 := replicate n (@None Q)).
    assert (alpha0 !! i0 = Some (Some 0%Q)) as Ha0.
    { apply list_lookup_insert_eq. by rewrite length_replicate. }
    destruct (basicCells_split plan m n i0 Hi0 Habove) as [rest Hsplit].
    assert (forall j, j < n -> (0 < cell plan i0 j)%Q ->
              (dualPasses 50 pm (basicCells plan m n) alpha0 beta0).2 !! j
              = Some (Some (cell pm i0 j - 0)%Q)) as Hbeta.
    { intros j Hj Hpos. cbn [dualPasses]. rewrite Hsplit, fold_left_app.
      pose proof (dualFold_row pm
                    (fun c => Qgtb (cell plan c.1 c.2) 0) i0 0%Q (seq 0 n)
                    alpha0 beta0 false (NoDup_seq 0 n) Ha0) as Hrow1.
      specialize (Hrow1 ltac:(intros j' Hj'; apply elem_of_seq in Hj';
                              by apply lookup_replicate_2; lia)
                        j ltac:(apply elem_of_seq; lia)
                        ltac:(by apply Qgtb_true)).
      destruct (fold_left (dualStep pm)
                  (List.filter (fun c => Qgtb (cell plan c.1 c.2) 0)
                     ((fun j => (i0, j)) <$> seq 0 n))
                  (alpha0, beta0, false)) as [[a1 b1] c1].
      cbn [fst snd] in Hrow1.
      pose proof (dualFold_keeps pm rest a1 b1 c1) as [_ [_ Hk2]].
      destruct (fold_left (dualStep pm) rest (a1, b1, c1)) as [[a2 b2] c2].
      cbn [fst snd] in Hk2. apply Hk2 in Hrow1.
      destruct c2; [|done].
      pose proof (dualPasses_keeps 49 pm
                    (List.filter (fun c => Qgtb (cell plan c.1 c.2) 0)
                       ((fun j => (i0, j)) <$> seq 0 n) ++ rest) a2 b2)
        as [_ [_ Hk3]].
      by apply Hk3. }
    pose proof (dualPasses_keeps 50 pm (basicCells plan m n) alpha0 beta0)
      as [[_ Hka] _].
    specialize (Hka _ _ Ha0).
    destruct (dualPasses 50 pm (basicCells plan m n) alpha0 beta0)
      as [a b] eqn:Hpasses.
    cbn [fst snd alpha beta] in *.
    assert (at_ (default 0%Q <$> a) i0 = 0%Q) as Halpha.
    { unfold at_. by rewrite list_lookup_fmap, Hka. }
    split; [done|]. intros j Hj Hpos.
    assert (at_ (default 0%Q <$> b) j = (cell pm i0 j - 0)%Q) as Hb.
    { unfold at_. by rewrite list_lookup_fmap, (Hbeta j Hj Hpos). }
    split; [done|]. unfold opportunityCost. cbn [alpha beta].
    rewrite Halpha, Hb. lra.
Qed.

Lemma calculateDualVariables_pinned_row_witness :
  let dual :=
    calculateDualVariables (profitOf stagnationProblem)
      [[1; 0]; [0; 1]]%Q 2 2 in
  at_ (alpha dual) 0 = 0%Q /\
  at_ (beta dual) 0 = (cell (profitOf stagnationProblem) 0 0 - 0)%Q.
Proof.
  intros dual.
  destruct (calculateDualVariables_pinned_row (profitOf stagnationProblem)
              [[1; 0]; [0; 1]]%Q 2 2) as (_ & _ & _ & H).
  destruct (H 0) as [Ha Hb].
  - lia.
  - exists 0. split; [lia|]. vm_compute. reflexivity.
  - intros i j Hi. lia.
  - split; [exact Ha|]. apply (Hb 0); [lia|]. vm_compute. reflexivity.
Defined.
